(** * polySV: LD pruning and allele frequencies on mixed-ploidy VCF files

    A shallow embedding of [src/prune_ld.c] and of the parts of
    [src/poly_freq.c] that differ from it:

    - the window evaluator [estLD], the correlation estimator [estR2], the
      genotype-dosage extraction and the stream driver of [readVcf] (the
      same code is repeated in [poly_freq.c] for the [r2 < 1] mode);
    - the site list: [readSites] and the lookup of each line in [readVcf];
    - the command line of [prune_ld]: [openFiles];
    - the lines [printOut] writes, and how [readVcf] takes a line apart;
    - of [poly_freq.c]: [readPops], the [#CHROM] line and the allele counts
      per population in the mode without [-r2];

    with the properties the specification states about them and further
    ones read off the code.

    C [double] values are Rocq's primitive binary64 floats, so every
    arithmetic step below is the IEEE-754 operation the compiled program
    performs (without fused multiply-add contraction).  C [int] counters
    that only ever index the window are [nat]; [ok], [pos] and the running
    [n] of [estR2] are [Z]. *)

From stdpp Require Import base list.
From Stdlib Require Import ZArith String Ascii Floats Uint63 Lia Bool Sorted.

Local Open Scope Z_scope.

(* [String] also has a [length]; the unqualified name is the one of lists. *)
Local Abbreviation length := List.length (only parsing).

(** ** Data model *)

(** [SNP_s], one window slot.  [hap] holds the genotype tokens written for
    the current line, [geno] the per-individual dosages.  The C array [geno]
    is [geno_n] entries long and zero-filled by [memset] before each line, so
    an entry past the written ones reads as [0]; here that is the default of
    [nth]. *)
Record SNP_s := mkSNP {
  pos : Z;
  ok : Z;
  geno : list float;
  ref : ascii;
  alt : ascii;
  id : string;
  chr : string;
  hap : list string
}.

(** The values the code stores in [ok]. *)
Definition Pending : Z := -1.
Definition Rejected : Z := 0.
Definition Kept : Z := 1.

Definition blank_SNP : SNP_s :=
  mkSNP 0 0 [] Ascii.zero Ascii.zero EmptyString EmptyString [].

#[global] Instance SNP_s_inhabited : Inhabited SNP_s := populate blank_SNP.

Definition set_ok (v : Z) (s : SNP_s) : SNP_s :=
  mkSNP (pos s) v (geno s) (ref s) (alt s) (id s) (chr s) (hap s).

Definition set_chr (c : string) (s : SNP_s) : SNP_s :=
  mkSNP (pos s) (ok s) (geno s) (ref s) (alt s) (id s) c (hap s).

Definition set_geno (g : list float) (s : SNP_s) : SNP_s :=
  mkSNP (pos s) (ok s) g (ref s) (alt s) (id s) (chr s) (hap s).

(** [snps[i].chr[0] == '\0'] *)
Definition tomb (s : SNP_s) : bool :=
  match chr s with
  | EmptyString => true
  | String _ _ => false
  end.

(** Conversion of a C [int] to [double]. *)
Definition double_of_int (z : Z) : float :=
  if z <? 0 then PrimFloat.opp (of_uint63 (Uint63.of_Z (- z)))
  else of_uint63 (Uint63.of_Z z).

Definition missing : float := double_of_int (-1).

(** ** [estR2] *)

Record r2_acc := mkAcc {
  acc_n : Z;
  sum1 : float;
  sum2 : float;
  sum12 : float;
  sqsum1 : float;
  sqsum2 : float
}.

Definition r2_init (n : nat) : r2_acc :=
  mkAcc (Z.of_nat n) 0%float 0%float 0%float 0%float 0%float.

(** One iteration of the [for] loop over the individuals. *)
Definition r2_step (geno1 geno2 : list float) (a : r2_acc) (i : nat) : r2_acc :=
  let g1 := nth i geno1 0%float in
  let g2 := nth i geno2 0%float in
  if (g1 =? missing)%float || (g2 =? missing)%float then
    mkAcc (acc_n a - 1) (sum1 a) (sum2 a) (sum12 a) (sqsum1 a) (sqsum2 a)
  else
    mkAcc (acc_n a)
          (sum1 a + g1)%float
          (sum2 a + g2)%float
          (sum12 a + g1 * g2)%float
          (sqsum1 a + g1 * g1)%float
          (sqsum2 a + g2 * g2)%float.

Definition r2_sums (geno1 geno2 : list float) (n : nat) : r2_acc :=
  fold_left (r2_step geno1 geno2) (seq 0 n) (r2_init n).

(** The numerator, the argument of [sqrt] and the returned value. *)
Definition r2_num (a : r2_acc) : float :=
  (double_of_int (acc_n a) * sum12 a - sum1 a * sum2 a)%float.

Definition r2_var1 (a : r2_acc) : float :=
  (double_of_int (acc_n a) * sqsum1 a - sum1 a * sum1 a)%float.

Definition r2_var2 (a : r2_acc) : float :=
  (double_of_int (acc_n a) * sqsum2 a - sum2 a * sum2 a)%float.

Definition r2_den (a : r2_acc) : float :=
  PrimFloat.sqrt (r2_var1 a * r2_var2 a)%float.

Definition r2_finish (a : r2_acc) : float :=
  let r := (r2_num a / r2_den a)%float in
  (r * r)%float.

Definition estR2 (geno1 geno2 : list float) (n : nat) : float :=
  r2_finish (r2_sums geno1 geno2 n).

(** ** [estLD] *)

(** The inner [for (j = i + 1; j < win; j++)] loop; [fuel] is [win - j].
    The result is the value of [j] when the loop is left: the index of the
    first conflicting slot after a [break], [win] otherwise. *)
Fixpoint scan (snps : list SNP_s) (ind_n : nat) (r2 : float) (si : SNP_s)
    (j fuel : nat) : nat :=
  match fuel with
  | O => j
  | S fuel' =>
      let sj := snps !!! j in
      if tomb sj then scan snps ind_n r2 si (S j) fuel'
      else if negb (String.eqb (chr si) (chr sj)) then scan snps ind_n r2 si (S j) fuel'
      else if (r2 <? estR2 (geno si) (geno sj) ind_n)%float then j
      else scan snps ind_n r2 si (S j) fuel'
  end.

(** The body of the outer loop for one [i]. *)
Definition estLD_step (win ind_n : nat) (r2 : float) (snps : list SNP_s) (i : nat)
    : list SNP_s :=
  let si := snps !!! i in
  if tomb si then snps
  else
    let j := scan snps ind_n r2 si (S i) (win - S i) in
    if (j =? win)%nat && ((ok si =? -1) || (ok si =? 1))
    then <[i := set_ok 1 si]> snps
    else <[i := set_ok 0 si]> snps.

Definition estLD (snps : list SNP_s) (win ind_n : nat) (r2 : float) : list SNP_s :=
  fold_left (estLD_step win ind_n r2) (seq 0 win) snps.

(** The decision the outer loop body takes for slot [i] of [snps]. *)
Definition verdict (win ind_n : nat) (r2 : float) (snps : list SNP_s) (i : nat) : SNP_s :=
  let si := snps !!! i in
  if tomb si then si
  else if (scan snps ind_n r2 si (S i) (win - S i) =? win)%nat
          && ((ok si =? -1) || (ok si =? 1))
       then set_ok 1 si else set_ok 0 si.

(** Two windows with the same sites, whatever their [ok] fields. *)
Definition same_sites (l l' : list SNP_s) : Prop :=
  length l = length l' /\
  forall k, chr (l !!! k) = chr (l' !!! k) /\ geno (l !!! k) = geno (l' !!! k).
(** What the inner loop tests for the pair [(si, sj)]: the slot [sj] is
    occupied, on the chromosome of [si], and [estR2 > r2]. *)
Definition conflict (ind_n : nat) (r2 : float) (si sj : SNP_s) : bool :=
  negb (tomb sj) && String.eqb (chr si) (chr sj)
  && (r2 <? estR2 (geno si) (geno sj) ind_n)%float.

(** ** Genotype tokens and dosage extraction *)

(** An input data line, split at tabs: the fixed columns the code reads
    ([k = 1 .. 5]) and the genotype columns ([k > 9]).  [l_listed] is the
    outcome of the lookup in the optional [-sites] list ([ok] in the source;
    [true] when no list is given). *)
Record vcf_line := mkLine {
  l_chr : string;
  l_pos : Z;
  l_id : string;
  l_ref : ascii;
  l_alt : ascii;
  l_listed : bool;
  l_gts : list string
}.

Definition colon : ascii := ":"%char.
Definition newline : ascii := "010"%char.
Definition dot : ascii := "."%char.

Fixpoint has_char (c : ascii) (s : string) : bool :=
  match s with
  | EmptyString => false
  | String a r => Ascii.eqb a c || has_char c r
  end.

Fixpoint skip_char (c : ascii) (s : string) : string :=
  match s with
  | String a r => if Ascii.eqb a c then skip_char c r else s
  | EmptyString => s
  end.

Fixpoint upto_char (c : ascii) (s : string) : string :=
  match s with
  | EmptyString => EmptyString
  | String a r => if Ascii.eqb a c then EmptyString else String a (upto_char c r)
  end.

(** The string copied into [hap[ind_i]]: [strtok(temp, ":")] when the column
    has a colon, the column cut at its newline otherwise.  (Tokens are taken
    to fit the 49 characters [strncpy] copies.) *)
Definition gt_token (field : string) : string :=
  if has_char colon field then upto_char colon (skip_char colon field)
  else upto_char newline field.

(** The [switch (strlen (hap))]: ploidy and [stop]. *)
Definition ploidy_of_length (n : nat) : option (float * nat) :=
  match n with
  | 3%nat => Some (2%float, 2%nat)
  | 7%nat => Some (4%float, 6%nat)
  | 11%nat => Some (6%float, 10%nat)
  | 15%nat => Some (8%float, 14%nat)
  | _ => None
  end.

(** [hap[i] - '0'] *)
Definition allele_value (a : ascii) : Z := Z.of_N (N_of_ascii a) - 48.

Definition is_allele (a : ascii) : bool :=
  Ascii.eqb a "0"%char || Ascii.eqb a "1"%char.

(** [for (i = 0; i <= stop; i += 2)], [cnt] iterations from offset [i];
    [g] is [geno[ind_i]] and [alt_i] the running alternative-allele count.
    [None] is the [exit] on an unknown allele. *)
Fixpoint allele_loop (hp : string) (i cnt : nat) (g alt_i : float)
    : option (float * float) :=
  match cnt with
  | O => Some (g, alt_i)
  | S cnt' =>
      match String.get i hp with
      | Some a =>
          if is_allele a then
            allele_loop hp (i + 2) cnt'
              (g + double_of_int (allele_value a))%float
              (alt_i + double_of_int (allele_value a))%float
          else None
      | None => None
      end
  end.

Inductive fatal :=
| UnsupportedPloidy
| UnknownAllele (c : string) (p : Z)
| NoDataLine.

(** The sums of one line: the dosages and tokens written so far (as many as
    [ind_i]), and [mis_i], [alt_i], [hap_i]. *)
Record line_acc := mkLacc {
  la_geno : list float;
  la_hap : list string;
  la_ind : nat;
  la_mis : float;
  la_alt : float;
  la_hapn : float
}.

(** Dosage extraction for one token [hp], from the test of the missing
    marker to the end of the allele loop.  [g0] is [geno[ind_i]] on entry
    (zero after the [memset]) and [alt_i] the running count. *)
Inductive dosage :=
| Missing
| Dosage (g alt_i ploidy : float)
| BadPloidy
| BadAllele.

Definition extract (hp : string) (g0 alt_i : float) : dosage :=
  match String.get 0 hp with
  | Some "."%char => Missing
  | _ =>
      match ploidy_of_length (String.length hp) with
      | None => BadPloidy
      | Some (ploidy, stop) =>
          match allele_loop hp 0 (stop / 2 + 1) g0 alt_i with
          | None => BadAllele
          | Some (g, alt_i') => Dosage g alt_i' ploidy
          end
      end
  end.

(** One genotype column ([k > 9]) of a line at [c]:[p]. *)
Definition gt_step (c : string) (p : Z) (a : line_acc) (field : string)
    : line_acc + fatal :=
  let hp := gt_token field in
  let haps := <[la_ind a := hp]> (la_hap a) in
  match extract hp (nth (la_ind a) (la_geno a) 0%float) (la_alt a) with
  | Missing =>
      inl (mkLacc (<[la_ind a := missing]> (la_geno a)) haps (S (la_ind a))
                  (la_mis a + 1)%float (la_alt a) (la_hapn a))
  | Dosage g alt_i ploidy =>
      inl (mkLacc (<[la_ind a := g]> (la_geno a)) haps (S (la_ind a))
                  (la_mis a) alt_i (la_hapn a + ploidy)%float)
  | BadPloidy => inr UnsupportedPloidy
  | BadAllele => inr (UnknownAllele c p)
  end.

Fixpoint gt_loop (c : string) (p : Z) (a : line_acc) (fields : list string)
    : line_acc + fatal :=
  match fields with
  | [] => inl a
  | f :: fs =>
      match gt_step c p a f with
      | inl a' => gt_loop c p a' fs
      | inr e => inr e
      end
  end.

(** ** The stream driver [readVcf] *)

Inductive event :=
| Eval (snps : list SNP_s) (win ind_n : nat)
| Print (snp : SNP_s) (n : nat).

(** The local variables of [readVcf] that live across lines, and the log of
    the calls of [estLD] and [printOut]. *)
Record state := mkState {
  snps : list SNP_s;
  win_n : nat;
  win_i : nat;
  step_i : nat;
  ind_n : nat;
  snp_i : nat;
  log : list event
}.

Definition with_snps (w : list SNP_s) (st : state) : state :=
  mkState w (win_n st) (win_i st) (step_i st) (ind_n st) (snp_i st) (log st).

Definition with_ind_n (n : nat) (st : state) : state :=
  mkState (snps st) (win_n st) (win_i st) (step_i st) n (snp_i st) (log st).

(** [memset (snps[win_i].geno, 0, geno_n * sizeof (double))] *)
Definition clear_geno (geno_n : nat) (st : state) : state :=
  with_snps (<[win_i st := set_geno (replicate geno_n 0%float) (snps st !!! win_i st)]> (snps st)) st.

(** [estLD (snps, win_n + 1, ind_n, r2)] *)
Definition call_estLD (r2 : float) (st : state) : state :=
  mkState (estLD (snps st) (S (win_n st)) (ind_n st) r2)
          (win_n st) (win_i st) (step_i st) (ind_n st) (snp_i st)
          (log st ++ [Eval (snps st) (S (win_n st)) (ind_n st)]).

(** [if (snps[win_i].ok == 1) { printOut (...); snps[win_i].ok = 0; snp_i++; }] *)
Definition emit (st : state) : state :=
  let s := snps st !!! win_i st in
  if ok s =? 1 then
    mkState (<[win_i st := set_ok 0 s]> (snps st))
            (win_n st) (win_i st) (step_i st) (ind_n st) (S (snp_i st))
            (log st ++ [Print s (ind_n st)])
  else st.

(** [win_i++; if (win_i == win) win_i = 0;] *)
Definition advance (win : nat) (st : state) : state :=
  mkState (snps st) (win_n st)
          (if (S (win_i st) =? win)%nat then O else S (win_i st))
          (step_i st) (ind_n st) (snp_i st) (log st).

(** The flush loop [for (i = 0; i < win; i++)]. *)
Definition flush (win : nat) (st : state) : state :=
  Nat.iter win (fun st => advance win (emit st)) st.

(** The branch taken at [k == 2] when the chromosome differs from the one of
    slot 0. *)
Definition chr_change (win geno_n : nat) (r2 : float) (st : state) : state :=
  let st := flush win (call_estLD r2 st) in
  clear_geno geno_n
    (mkState (snps st) 0 0 0 (ind_n st) (snp_i st) (log st)).

(** The test that guards the call of [estLD] after a placement. *)
Definition trigger (win step : nat) (st : state) : bool :=
  ((win_n st =? win - 1)%nat && (step <=? step_i st)%nat)
  || ((win =? step)%nat && (win_i st =? win - 1)%nat).

(** The bookkeeping after a site has passed both filters: the evaluation
    when it is due, then the counters, the cursor and the emission test on
    the slot the cursor reaches. *)
Definition evaluate_if_due (win step : nat) (r2 : float) (st : state) : state :=
  if trigger win step st then
    let st := call_estLD r2 st in
    mkState (snps st) (win_n st) (win_i st) 0 (ind_n st) (snp_i st) (log st)
  else st.

Definition move_on (win : nat) (st : state) : state :=
  let st := mkState (snps st)
              (if (win_n st <? win - 1)%nat then S (win_n st) else win_n st)
              (win_i st) (S (step_i st)) (ind_n st) (snp_i st) (log st) in
  let st := advance win st in
  if (win_n st =? win - 1)%nat then emit st else st.

Definition placed (win step : nat) (r2 : float) (st : state) : state :=
  move_on win (evaluate_if_due win step r2 st).

(** [snps[win_i].chr[0] = '\0'] *)
Definition tombstone (st : state) : state :=
  with_snps (<[win_i st := set_chr EmptyString (snps st !!! win_i st)]> (snps st)) st.

(** The two filters on a line whose columns have all been read. *)
Definition mis_fails (mis : float) (mis_i : float) (ind_n : nat) : bool :=
  ((1 - mis) <? mis_i / double_of_int (Z.of_nat ind_n))%float
  || (mis_i =? double_of_int (Z.of_nat ind_n))%float.

Definition maf_fails (maf : float) (alt_i hap_i : float) : bool :=
  (alt_i / hap_i <? maf)%float || ((1 - maf) <? alt_i / hap_i)%float.

Section Driver.
Variables (win step geno_n : nat) (mis maf r2 : float).

(** The start of the [while (getline ...)] body for a listed data line: the
[memset] and the chromosome test at [k == 2]. *)
Definition open_line (st : state) (ln : vcf_line) : state :=
  let st := clear_geno geno_n st in
  if (0 <? win_n st)%nat && negb (String.eqb (chr (snps st !!! 0%nat)) (l_chr ln))
  then chr_change win geno_n r2 st else st.

(** The columns of the line written into slot [win_i] and, after the last
column, [ind_n].  The result is the state in which the two filters are
tested, with the sums of the line.  On a fatal error the process exits; the
state returned then is the one reached before the genotype columns. *)
Definition site_state (st : state) (ln : vcf_line) : state * line_acc + state * fatal :=
  let st := open_line st ln in
  let s := snps st !!! win_i st in
  let s := mkSNP (l_pos ln) (-1) (geno s) (l_ref ln) (l_alt ln) (l_id ln)
                 (l_chr ln) (hap s) in
  match gt_loop (l_chr ln) (l_pos ln)
                (mkLacc (geno s) (hap s) 0 0%float 0%float 0%float) (l_gts ln) with
  | inr e => inr (with_snps (<[win_i st := s]> (snps st)) st, e)
  | inl a =>
      let s := mkSNP (pos s) (ok s) (la_geno a) (ref s) (alt s) (id s) (chr s)
                     (la_hap a) in
      let st := with_snps (<[win_i st := s]> (snps st)) st in
      let st := if (ind_n st =? 0)%nat then with_ind_n (la_ind a) st else st in
      inl (st, a)
  end.

(** One pass of the [while (getline ...)] body for a data line.  A line that
is not in the site list leaves the loop at [k == 2], after the [memset]. *)
Definition read_line (st : state) (ln : vcf_line) : state + state * fatal :=
  if negb (l_listed ln) then inl (clear_geno geno_n st)
  else
    match site_state st ln with
    | inr e => inr e
    | inl (st, a) =>
        if mis_fails mis (la_mis a) (ind_n st) then inl (tombstone st)
        else if maf_fails maf (la_alt a) (la_hapn a) then inl (tombstone st)
        else inl (placed win step r2 st)
    end.

Fixpoint read_lines (st : state) (lines : list vcf_line) : state + state * fatal :=
  match lines with
  | [] => inl st
  | ln :: rest =>
      match read_line st ln with
      | inl st' => read_lines st' rest
      | inr e => inr e
      end
  end.

(** The whole of [readVcf] on the data lines of the file.  [snps0] is the
    window as [malloc] returns it at the first data line.  Without a data
    line [snps] is still [NULL] when the final [estLD] reads it. *)
Definition readVcf (snps0 : list SNP_s) (lines : list vcf_line)
    : state + (state * fatal) :=
  let st0 := mkState snps0 0 0 0 0 0 [] in
  match lines with
  | [] => inr (st0, NoDataLine)
  | _ =>
      match read_lines st0 lines with
      | inl st => inl (flush win (call_estLD r2 st))
      | inr e => inr e
      end
  end.
End Driver.

(** What reaches standard output: the sites handed to [printOut]. *)
Definition printed (l : list event) : list (string * Z) :=
  flat_map (fun e => match e with
                     | Print s _ => [(chr s, pos s)]
                     | Eval _ _ _ => []
                     end) l.

Definition is_eval (e : event) : bool :=
  match e with
  | Eval _ _ _ => true
  | Print _ _ => false
  end.

(** The number of calls of [estLD]. *)
Definition evals (l : list event) : nat := List.length (List.filter is_eval l).

Definition final_log (r : state + (state * fatal)) : list event :=
  match r with
  | inl st => log st
  | inr (st, _) => log st
  end.

(** [exit (EXIT_FAILURE)] was called. *)
Definition exit_failure (r : state + state * fatal) : bool :=
  match r with
  | inr (_, UnsupportedPloidy) | inr (_, UnknownAllele _ _) => true
  | _ => false
  end.

(** The characters of a token at even offsets, where the alleles are. *)
Fixpoint even_chars (hp : string) : list ascii :=
  match hp with
  | EmptyString => []
  | String a EmptyString => [a]
  | String a (String _ r) => a :: even_chars r
  end.

(** The number of ['1'] among them. *)
Definition ones (hp : string) : Z :=
  Z.of_nat (List.length (List.filter (Ascii.eqb "1"%char) (even_chars hp))).

Definition supported_length (n : nat) : Prop :=
  n = 3%nat \/ n = 7%nat \/ n = 11%nat \/ n = 15%nat.

(** A token that is not missing and is of unsupported length or has a
    character other than ['0'] and ['1'] at an even offset. *)
Definition bad_token (hp : string) : Prop :=
  String.get 0 hp <> Some dot /\
  (~ supported_length (String.length hp) \/
   exists i a, Nat.even i = true /\ String.get i hp = Some a /\ is_allele a = false).

Definition bad_line (ln : vcf_line) : Prop :=
  l_listed ln = true /\ Exists (fun f => bad_token (gt_token f)) (l_gts ln).

(** What [readVcf] does to the window without writing a new site into a
    slot: a call of [estLD], the emission test on a slot, the [memset] of a
    slot's dosages and the tombstoning of a slot. *)
Inductive window_op :=
| OpEval (win ind_n : nat) (r2 : float)
| OpEmit (k : nat)
| OpClear (k geno_n : nat)
| OpTombstone (k : nat).

Definition apply_op (l : list SNP_s) (o : window_op) : list SNP_s :=
  match o with
  | OpEval win ind_n r2 => estLD l win ind_n r2
  | OpEmit k => if ok (l !!! k) =? 1 then <[k := set_ok 0 (l !!! k)]> l else l
  | OpClear k geno_n => <[k := set_geno (replicate geno_n 0%float) (l !!! k)]> l
  | OpTombstone k => <[k := set_chr EmptyString (l !!! k)]> l
  end.

(** Sample data: the thresholds 0.1, 0.6 and 0.05 as [atof] reads them, and
    sites on chromosome "1" with given dosages. *)
Definition r2_01 : float := 0x1.999999999999ap-4%float.
Definition mis_06 : float := 0x1.3333333333333p-1%float.
Definition maf_005 : float := 0x1.999999999999ap-5%float.

Definition sample_site (p : Z) (o : Z) (g : list Z) : SNP_s :=
  mkSNP p o (map double_of_int g) "A"%char "C"%char "."%string "1"%string [].

Definition sample_line (c : string) (p : Z) (gts : list string) : vcf_line :=
  mkLine c p "."%string "A"%char "C"%char true gts.

(** The three sites of the end-to-end scenario: chromosome "1", positions
    10, 20, 30, dosages [0,1,2], [2,1,0], [0,0,0]. *)
Definition scenario : list vcf_line :=
  [sample_line "1" 10 ["0/0"; "0/1"; "1/1"]%string;
   sample_line "1" 20 ["1/1"; "0/1"; "0/0"]%string;
   sample_line "1" 30 ["0/0"; "0/0"; "0/0"]%string].

(** A window of [win] slots with arrays of [geno_n] entries, all zero-filled. *)
Definition fresh (win geno_n : nat) : list SNP_s :=
  replicate win (mkSNP 0 0 (replicate geno_n 0%float) Ascii.zero Ascii.zero
                       EmptyString EmptyString (replicate geno_n EmptyString)).

Definition start (snps0 : list SNP_s) : state := mkState snps0 0 0 0 0 0 [].

(** With [step = win] the step counter never runs ahead of the cursor. *)
Definition in_step (win : nat) (st : state) : Prop :=
  (step_i st <= S (win_i st))%nat /\ (win_i st < win)%nat.

(** The number of missing tokens among the genotype columns of a line, and
    the summed ploidy of the others. *)
Definition is_missing (field : string) : bool :=
  match String.get 0 (gt_token field) with
  | Some c => Ascii.eqb c dot
  | None => false
  end.

Definition n_missing (fields : list string) : Z :=
  Z.of_nat (List.length (List.filter is_missing fields)).

Fixpoint ploidy_sum (fields : list string) : Z :=
  match fields with
  | [] => 0
  | f :: fs =>
      (if is_missing f then 0 else Z.of_nat (String.length (gt_token f) + 1) / 2)
      + ploidy_sum fs
  end.

(** ** Dosage vectors as whole numbers *)

(** A dosage vector as the specification has it: per individual a dosage or
    nothing; [encode] is the value [readVcf] stores for it. *)
Definition encode (d : option Z) : float :=
  match d with
  | Some k => double_of_int k
  | None => missing
  end.

Definition valid_dosage (d : option Z) : Prop :=
  match d with
  | Some k => 0 <= k <= 8
  | None => True
  end.

(** The individuals that are missing in neither vector. *)
Fixpoint joint (v1 v2 : list (option Z)) : list (Z * Z) :=
  match v1, v2 with
  | Some x :: r1, Some y :: r2 => (x, y) :: joint r1 r2
  | _ :: r1, _ :: r2 => joint r1 r2
  | _, _ => []
  end.

Definition zsum (f : Z * Z -> Z) (l : list (Z * Z)) : Z :=
  fold_right (fun p s => f p + s) 0 l.

Definition count (l : list (Z * Z)) : Z := Z.of_nat (List.length l).

(** [n * sum x^2 - (sum x)^2] for either coordinate, the product under the
    square root of Pearson's denominator, and the numerator. *)
Definition zvar (f : Z * Z -> Z) (l : list (Z * Z)) : Z :=
  count l * zsum (fun p => f p * f p) l - zsum f l * zsum f l.

Definition pearson_den_sq (l : list (Z * Z)) : Z := zvar fst l * zvar snd l.

Definition pearson_num (l : list (Z * Z)) : Z :=
  count l * zsum (fun p => fst p * snd p) l - zsum fst l * zsum snd l.

(** ** The window seen from the cursor *)

(** The slots in the order the cursor meets them: from [win_i] to the end,
    then from the start. *)
Definition rot (c : nat) (w : list SNP_s) : list SNP_s := drop c w ++ take c w.

Definition view (st : state) : list SNP_s := rot (win_i st) (snps st).

Definition locus (s : SNP_s) : string * Z := (chr s, pos s).
Definition line_locus (l : vcf_line) : string * Z := (l_chr l, l_pos l).

(** A slot that is printed already or was never a candidate, one that is
    Kept and waits for the cursor, and one that waits for an evaluation. *)
Definition dead (s : SNP_s) : Prop := ok s <> 1 /\ (tomb s = true \/ ok s = 0).
Definition kept (s : SNP_s) : Prop := ok s = 1 /\ tomb s = false.
Definition pending (s : SNP_s) : Prop := ok s = -1 /\ tomb s = false.

(** What [estLD] does to a slot none of whose pairs conflicts, and what the
    emission test does. *)
Definition settle (s : SNP_s) : SNP_s :=
  if tomb s then s
  else set_ok (if (ok s =? -1) || (ok s =? 1) then 1 else 0) s.

Definition kill (s : SNP_s) : SNP_s := if ok s =? 1 then set_ok 0 s else s.

(** The sums and dosages of a line read into a zeroed slot, and whether the
    line passes both filters with [n] individuals. *)
Definition line_sums (geno_n : nat) (ln : vcf_line) : line_acc + fatal :=
  gt_loop (l_chr ln) (l_pos ln)
          (mkLacc (replicate geno_n 0%float) [] 0 0%float 0%float 0%float) (l_gts ln).

Definition dosages (geno_n : nat) (ln : vcf_line) : list float :=
  match line_sums geno_n ln with
  | inl a => la_geno a
  | inr _ => []
  end.

Definition passes (geno_n : nat) (mis maf : float) (n : nat) (ln : vcf_line) : bool :=
  l_listed ln &&
  match line_sums geno_n ln with
  | inl a => negb (mis_fails mis (la_mis a) n) && negb (maf_fails maf (la_alt a) (la_hapn a))
  | inr _ => false
  end.

(** Two sets of sums that agree but for the tokens kept for [printOut]. *)
Definition same_sums (a a' : line_acc) : Prop :=
  la_geno a = la_geno a' /\ la_ind a = la_ind a' /\ la_mis a = la_mis a' /\
  la_alt a = la_alt a' /\ la_hapn a = la_hapn a'.

(** No two candidate sites of one chromosome exceed the threshold: for any
    two different lines of the file that pass the filters and have the same
    chromosome, [estR2] on their dosages is not above [r2]. *)
Definition below_threshold (geno_n : nat) (mis maf r2 : float) (n : nat)
    (lines : list vcf_line) : Prop :=
  forall (i j : nat) l1 l2, i <> j -> lines !! i = Some l1 -> lines !! j = Some l2 ->
    passes geno_n mis maf n l1 = true -> passes geno_n mis maf n l2 = true ->
    l_chr l1 = l_chr l2 ->
    (r2 <? estR2 (dosages geno_n l1) (dosages geno_n l2) n)%float = false.

(** A window no two slots of which conflict, in either order. *)
Definition calm (n : nat) (r2 : float) (w : list SNP_s) : Prop :=
  forall i j : nat, i <> j -> conflict n r2 (w !!! i) (w !!! j) = false.

(** A slot that conflicts with nothing: no chromosome, or zeroed dosages. *)
Definition quiet (geno_n : nat) (s : SNP_s) : Prop :=
  tomb s = true \/ geno s = replicate geno_n 0%float.

(** A slot whose content is accounted for: no chromosome, zeroed dosages, or
    the data of a candidate site among the lines [done]. *)
Definition benign (geno_n : nat) (mis maf : float) (n : nat) (done : list vcf_line)
    (s : SNP_s) : Prop :=
  quiet geno_n s \/
  exists l, In l done /\ passes geno_n mis maf n l = true /\
            chr s = l_chr l /\ geno s = dosages geno_n l.

Definition is_kept (s : SNP_s) : bool := ok s =? 1.

(** The [printOut] calls of a flush over the slots [l]. *)
Definition prints (l : list SNP_s) (n : nat) : list event :=
  map (fun s => Print s n) (List.filter is_kept l).

(** The two regimes of the driver between two lines.  While the window
    fills, no slot is Kept and the three counters count the pending sites;
    once it is full, the slot under the cursor is the only dead one and the
    step counter is one more than the number of pending sites. *)
Definition filling (st : state) (K Pn : list SNP_s) : Prop :=
  K = [] /\ win_n st = length Pn /\ win_i st = length Pn /\ step_i st = length Pn.

Definition steady (win step : nat) (st : state) (D Pn : list SNP_s) : Prop :=
  length D = 1%nat /\ win_n st = (win - 1)%nat /\ step_i st = S (length Pn) /\
  (step_i st <= step)%nat /\ (win = step -> step_i st = S (win_i st)).

(** The invariant of [readVcf] after the lines [done], when no two candidate
    sites conflict: seen from the cursor the window is a run of dead slots,
    then the Kept sites, then the pending ones, oldest first, and what has
    been printed followed by the sites still in the window is the list of the
    candidate sites read so far. *)
Definition orderly (win step geno_n : nat) (mis maf r2 : float) (n : nat)
    (st : state) (done : list vcf_line) : Prop :=
  length (snps st) = win /\ (win_i st < win)%nat /\
  (ind_n st = n \/ ind_n st = 0%nat) /\
  (Forall (benign geno_n mis maf n done) (snps st) /\ calm n r2 (snps st)) /\
  exists D K Pn,
    view st = D ++ K ++ Pn /\
    Forall dead D /\ Forall kept K /\ Forall pending Pn /\ D <> [] /\
    printed (log st) ++ map locus (K ++ Pn)
    = map line_locus (List.filter (passes geno_n mis maf n) done) /\
    (filling st K Pn \/ steady win step st D Pn).


(** Two chromosomes with the same two sites each: within a chromosome the
    two dosage vectors are uncorrelated, across the chromosomes they are
    identical. *)
Definition two_chromosomes : list vcf_line :=
  [sample_line "1" 10 ["0/0"; "0/1"; "0/0"; "0/1"]%string;
   sample_line "1" 20 ["0/0"; "0/0"; "0/1"; "0/1"]%string;
   sample_line "2" 5 ["0/0"; "0/1"; "0/0"; "0/1"]%string;
   sample_line "2" 15 ["0/0"; "0/0"; "0/1"; "0/1"]%string].

(** ** The site list of [-sites] *)

(** [Site_s], an entry of the list. *)
Record Site_s := mkSite {
  s_chr : string;
  s_pos : Z
}.

(** [strcmp]: the order of the first bytes that differ, as unsigned values,
    a proper prefix before the longer string. *)
Definition strcmp (a b : string) : comparison := String.compare a b.

(** The test [readSites] makes on an entry [s] and the entry [prev] before
    it: [true] when the file is not sorted. *)
Definition out_of_order (prev s : Site_s) : bool :=
  match strcmp (s_chr s) (s_chr prev) with
  | Lt => true
  | Eq => s_pos s <? s_pos prev
  | Gt => false
  end.

(** The loop of [readSites] over the lines of the site file, each split at
    tabs into its two columns; [None] is a blank line or a comment line,
    which is skipped.  [lst] holds the [*n] entries read so far ([list] in
    the source).  The result [None] is the [exit] on a file that is not
    sorted. *)
Fixpoint readSites_from (lst : list Site_s) (rows : list (option Site_s))
    : option (list Site_s) :=
  match rows with
  | [] => Some lst
  | None :: rest => readSites_from lst rest
  | Some s :: rest =>
      match last lst with
      | Some prev =>
          if out_of_order prev s then None else readSites_from (lst ++ [s]) rest
      | None => readSites_from (lst ++ [s]) rest
      end
  end.

Definition readSites (rows : list (option Site_s)) : option (list Site_s) :=
  readSites_from [] rows.

(** The [while (site_i < site_n)] loop of [readVcf] for a line at [c]:[p],
    at most [fuel] entries from [site_i] on: [ok] and the cursor on exit. *)
Fixpoint site_scan (sites : list Site_s) (c : string) (p : Z) (site_i fuel : nat)
    : bool * nat :=
  match fuel with
  | O => (false, site_i)
  | S fuel' =>
      match sites !! site_i with
      | None => (false, site_i)
      | Some s =>
          match strcmp c (s_chr s) with
          | Eq =>
              if p =? s_pos s then (true, site_i)
              else if p <? s_pos s then (false, site_i)
              else site_scan sites c p (S site_i) fuel'
          | Lt => (false, site_i)
          | Gt => site_scan sites c p (S site_i) fuel'
          end
      end
  end.

(** The loop runs until [site_i] reaches [site_n], the length of the list. *)
Definition lookup_site (sites : list Site_s) (c : string) (p : Z) (site_i : nat)
    : bool * nat :=
  site_scan sites c p site_i (List.length sites - site_i).

Definition set_listed (b : bool) (ln : vcf_line) : vcf_line :=
  mkLine (l_chr ln) (l_pos ln) (l_id ln) (l_ref ln) (l_alt ln) b (l_gts ln).

(** The data lines of the VCF file with the outcome of the lookup on each,
    the cursor [site_i] going from one line to the next.  Without a list
    ([site_n = 0]) no line is looked up and every line is read. *)
Fixpoint list_lines (sites : list Site_s) (site_i : nat) (lines : list vcf_line)
    : list vcf_line :=
  match lines with
  | [] => []
  | ln :: rest =>
      if (0 <? List.length sites)%nat then
        let r := lookup_site sites (l_chr ln) (l_pos ln) site_i in
        set_listed (fst r) ln :: list_lines sites (snd r) rest
      else set_listed true ln :: list_lines sites site_i rest
  end.

(** The order the site file and the VCF file are meant to be in:
    chromosomes as [strcmp] orders them, positions within a chromosome. *)
Definition site_lt (a b : Site_s) : Prop :=
  strcmp (s_chr a) (s_chr b) = Lt \/ (s_chr a = s_chr b /\ s_pos a < s_pos b).

Definition site_le (a b : Site_s) : Prop :=
  strcmp (s_chr a) (s_chr b) = Lt \/ (s_chr a = s_chr b /\ s_pos a <= s_pos b).

Definition line_site (ln : vcf_line) : Site_s := mkSite (l_chr ln) (l_pos ln).

(** The entries of the site file that are read. *)
Definition site_rows (rows : list (option Site_s)) : list Site_s :=
  omap (fun r => r) rows.

(** ** [poly_freq.c]: the population file *)

(** [Pop_s], an entry of the population file: the individual, the name of
    its population and the index of that name in the table of names. *)
Record Pop_s := mkPop {
  p_idx : nat;
  p_ind : string;
  p_pop : string
}.

(** The search [for (i = 0; i <= *m; i++)] in the table of names, [fuel]
    entries from [i] on.  The table is [calloc]'ed, so the entry after the
    [*m] names, which the loop reads too, is the empty string. *)
Fixpoint find_pop (pops : list string) (name : string) (i fuel : nat) : option nat :=
  match fuel with
  | O => None
  | S fuel' =>
      if String.eqb (nth i pops EmptyString) name then Some i
      else find_pop pops name (S i) fuel'
  end.

(** The body of the loop of [readPops] for an entry of the file, split at
    tabs into individual and population.  [lst] holds the [*n] entries read
    so far and [pops] the [*m] names; the table is allocated, and gets its
    first name, at the first entry. *)
Definition pops_step (st : list Pop_s * list string) (row : string * string)
    : list Pop_s * list string :=
  let lst := fst st in
  let pops := match lst with
              | [] => [snd row]
              | _ => snd st
              end in
  match find_pop pops (snd row) 0 (S (List.length pops)) with
  | Some i => (lst ++ [mkPop i (fst row) (snd row)], pops)
  | None => (lst ++ [mkPop (List.length pops) (fst row) (snd row)], pops ++ [snd row])
  end.

(** [readPops] on the entries of the file (the lines that are neither blank
    nor comments): the entries with their indices, and the table of names.
    Without an entry the table is never allocated and the final
    [free (pops[i])] reads through a null pointer: [None]. *)
Definition readPops (rows : list (string * string)) : option (list Pop_s * list string) :=
  match rows with
  | [] => None
  | _ => Some (fold_left pops_step rows ([], []))
  end.

(** The loop over the entries of the population file for a column of the
    [#CHROM] line: [pop_l[k]] and [ind_i]. *)
Definition column_pop (pops : list Pop_s) (name : string) (st : option nat * nat)
    : option nat * nat :=
  fold_left (fun acc p => if String.eqb name (p_ind p)
                          then (Some (p_idx p), S (snd acc)) else acc)
            pops st.

(** The genotype columns ([k > 9]) of the [#CHROM] line, each cut at its
    newline by [stringTerminator]: [pop_l] for these columns and [ind_n]
    after the line.  [None] is the [exit] when no individual of the
    population file is in the VCF file. *)
Definition header_step (pops : list Pop_s) (st : list (option nat) * nat) (col : string)
    : list (option nat) * nat :=
  let c := column_pop pops (upto_char newline col) (None, snd st) in
  (fst st ++ [fst c], snd c).

Definition read_header (pops : list Pop_s) (cols : list string)
    : option (list (option nat) * nat) :=
  let r := fold_left (header_step pops) cols ([], O) in
  if (snd r =? 0)%nat then None
  else Some (fst r, if (snd r <? List.length pops)%nat then snd r else List.length pops).

(** What [readPops] keeps true from one entry to the next. *)
Definition pops_inv (st : list Pop_s * list string) : Prop :=
  NoDup (snd st) /\
  Forall (fun e => snd st !! p_idx e = Some (p_pop e)) (fst st) /\
  (forall name, name ∈ snd st <-> name ∈ map p_pop (fst st)) /\
  (forall k, (k < List.length (snd st))%nat -> exists e, e ∈ fst st /\ p_idx e = k).


(** The entry of the population file for the sample of a column, and the
    columns that have one. *)
Definition column_entry (pops : list Pop_s) (col : string) : option Pop_s :=
  List.find (fun e => String.eqb (upto_char newline col) (p_ind e)) pops.

Definition counted (pops : list Pop_s) (cols : list string) : list string :=
  List.filter (fun col => match column_entry pops col with
                          | Some _ => true
                          | None => false
                          end) cols.

(** ** [poly_freq.c]: allele counts per population *)

(** The sums of one line in the mode without [-r2]: [counts[i][0]] and
    [counts[i][1]] for every population, [ind_i], [mis_i], [alt_i] and
    [hap_i]. *)
Record freq_acc := mkFacc {
  fa_counts : list (float * float);
  fa_ind : nat;
  fa_mis : float;
  fa_alt : float;
  fa_hapn : float
}.

(** One genotype column ([k > 9]) of a line at [c]:[p], with [pop_l[k]]:
    a column of no population is skipped; the alleles of another are added
    to the counts of its population.  The dosage extraction is the one of
    [prune_ld.c], with [counts[pop_l[k]][1]] in the place of the dosage. *)
Definition freq_step (c : string) (p : Z) (a : freq_acc) (col : option nat * string)
    : freq_acc + fatal :=
  match fst col with
  | None => inl a
  | Some q =>
      let cq := nth q (fa_counts a) (0%float, 0%float) in
      match extract (gt_token (snd col)) (snd cq) (fa_alt a) with
      | Missing =>
          inl (mkFacc (fa_counts a) (fa_ind a) (fa_mis a + 1)%float (fa_alt a) (fa_hapn a))
      | Dosage c1 alt_i ploidy =>
          inl (mkFacc (<[q := ((fst cq + ploidy)%float, c1)]> (fa_counts a))
                      (S (fa_ind a)) (fa_mis a) alt_i (fa_hapn a + ploidy)%float)
      | BadPloidy => inr UnsupportedPloidy
      | BadAllele => inr (UnknownAllele c p)
      end
  end.

Fixpoint freq_loop (c : string) (p : Z) (a : freq_acc) (cols : list (option nat * string))
    : freq_acc + fatal :=
  match cols with
  | [] => inl a
  | col :: rest =>
      match freq_step c p a col with
      | inl a' => freq_loop c p a' rest
      | inr e => inr e
      end
  end.

(** A data line in the mode without [-r2], for [pop_n] populations,
    [ind_n] individuals and the column map [pop_l] of the [#CHROM] line:
    the counts handed to [printOut], or nothing when the line is not listed
    or fails a filter. *)
Definition freq_line (pop_n ind_n : nat) (mis maf : float) (pop_l : list (option nat))
    (ln : vcf_line) : option (list (float * float)) + fatal :=
  if negb (l_listed ln) then inl None
  else
    match freq_loop (l_chr ln) (l_pos ln)
                    (mkFacc (replicate pop_n (0%float, 0%float)) 0 0%float 0%float 0%float)
                    (zip pop_l (l_gts ln)) with
    | inr e => inr e
    | inl a =>
        if mis_fails mis (fa_mis a) ind_n then inl None
        else if maf_fails maf (fa_alt a) (fa_hapn a) then inl None
        else inl (Some (fa_counts a))
    end.

(** What [printOut] writes for a population: the frequency
    [counts[i][1] / counts[i][0]] with [-out 0], the two allele counts
    [counts[i][0] - counts[i][1]] and [counts[i][1]] otherwise. *)
Definition frequency (cnt : float * float) : float := (snd cnt / fst cnt)%float.

Definition allele_counts (cnt : float * float) : float * float :=
  ((fst cnt - snd cnt)%float, snd cnt).

(** The ['1'] alleles among the tokens that are not missing. *)
Fixpoint ones_sum (fields : list string) : Z :=
  match fields with
  | [] => 0
  | f :: fs => (if is_missing f then 0 else ones (gt_token f)) + ones_sum fs
  end.

(** The genotype columns of population [q], and those of any population. *)
Definition cols_of (q : nat) (cols : list (option nat * string)) : list string :=
  map snd (List.filter (fun col => match fst col with
                                   | Some q' => (q' =? q)%nat
                                   | None => false
                                   end) cols).

Definition cols_mapped (cols : list (option nat * string)) : list string :=
  map snd (List.filter (fun col => match fst col with
                                   | Some _ => true
                                   | None => false
                                   end) cols).

(** The sums of a line are whole numbers, held exactly: [T q] and [A q]
    for the two counts of population [q], [M], [AL] and [H] for [mis_i],
    [alt_i] and [hap_i]. *)
Definition exact_acc (pop_n : nat) (T A : nat -> Z) (M AL H : Z) (a : freq_acc) : Prop :=
  List.length (fa_counts a) = pop_n /\
  (forall q, (q < pop_n)%nat ->
             nth q (fa_counts a) (0%float, 0%float)
             = (double_of_int (T q), double_of_int (A q))) /\
  fa_mis a = double_of_int M /\ fa_alt a = double_of_int AL /\
  fa_hapn a = double_of_int H.
(** ** Whole numbers, zeros and NaN in binary64 *)

(** [canon_of k m e]: [(m, e)] is the normalised mantissa and exponent of the
    whole number [k], [0 < k < 2^53]. *)
Definition canon_of (k : Z) (m : positive) (e : Z) : Prop :=
  Zpos (digits2_pos m) = 53 /\ -52 <= e <= 0 /\ Zpos m = k * 2 ^ (- e).

(** A value that is a zero of either sign, or NaN. *)
Definition zero_or_nan (x : float) : Prop :=
  Prim2SF x = S754_nan \/ exists s, Prim2SF x = S754_zero s.


(** ** The lines [prune_ld] writes and reads *)

Definition tab : ascii := "009"%char.

(** [printf ("%i", z)] *)
Definition digit_char (d : Z) : ascii := ascii_of_N (Z.to_N (48 + d)).

Fixpoint digits_of (fuel : nat) (n : Z) (acc : string) : string :=
  match fuel with
  | O => acc
  | S fuel' =>
      let acc' := String (digit_char (n mod 10)) acc in
      if n / 10 =? 0 then acc' else digits_of fuel' (n / 10) acc'
  end.

Definition show_nat (n : Z) : string := digits_of (S (Z.to_nat (Z.log2 n))) n EmptyString.

Definition show_int (z : Z) : string :=
  if z <? 0 then String "-"%char (show_nat (- z)) else show_nat z.

(** [atoi]: white space, a sign, and the digits up to the first character
    that is not one (values in the range of [int]). *)
Definition is_digit (c : ascii) : bool :=
  (48 <=? N_of_ascii c)%N && (N_of_ascii c <=? 57)%N.

Definition is_space (c : ascii) : bool :=
  (N_of_ascii c =? 32)%N || ((9 <=? N_of_ascii c)%N && (N_of_ascii c <=? 13)%N).

Fixpoint atoi_digits (s : string) (acc : Z) : Z :=
  match s with
  | String c r =>
      if is_digit c then atoi_digits r (10 * acc + (Z.of_N (N_of_ascii c) - 48)) else acc
  | EmptyString => acc
  end.

Fixpoint atoi (s : string) : Z :=
  match s with
  | EmptyString => 0
  | String c r =>
      if is_space c then atoi r
      else if Ascii.eqb c "-"%char then - atoi_digits r 0
      else if Ascii.eqb c "+"%char then atoi_digits r 0
      else atoi_digits s 0
  end.

(** The pieces of a line between tabs, and the tokens [strtok_r (..., "\t")]
    returns one after the other: the pieces that are not empty. *)
Fixpoint pieces (s : string) : list string :=
  match s with
  | EmptyString => [EmptyString]
  | String c r =>
      if Ascii.eqb c tab then EmptyString :: pieces r
      else match pieces r with
           | h :: t => String c h :: t
           | [] => [String c EmptyString]
           end
  end.

Definition fields (line : string) : list string :=
  List.filter (fun t => negb (String.eqb t EmptyString)) (pieces line).

Definition first_char (s : string) : ascii :=
  match s with
  | String c _ => c
  | EmptyString => Ascii.zero
  end.

Definition hash : ascii := "#"%char.

(** [getline]: the bytes of the stream up to and including the first
    newline, all of them when there is none. *)
Fixpoint getline (text : string) : string :=
  match text with
  | EmptyString => EmptyString
  | String c r =>
      if Ascii.eqb c newline then String c EmptyString else String c (getline r)
  end.

(** The C string in a buffer, which is what [strtok_r] sees of the line: the
    bytes before the first zero byte. *)
Definition c_string (buf : string) : string := upto_char Ascii.zero buf.

(** A data line as [readVcf] takes it apart, from what is left of the
    stream: the line [getline] returns, which is skipped when it starts with
    a newline or a ['#'], then the columns 1 to 5 and the columns after the
    ninth of its C string.  A line with fewer than nine columns is outside of
    what [vcf_line] describes. *)
Definition parse_line (text : string) : option vcf_line :=
  match getline text with
  | EmptyString => None
  | String c r =>
      if Ascii.eqb c newline || Ascii.eqb c hash then None
      else
        match fields (c_string (String c r)) with
        | c :: p :: i :: r :: a :: _ :: _ :: _ :: _ :: gts =>
            Some (mkLine c (atoi p) i (first_char r) (first_char a) true gts)
        | _ => None
        end
  end.

(** A text that is one line: its only newline is its last character. *)
Fixpoint one_line (s : string) : bool :=
  match s with
  | EmptyString => false
  | String c r => if Ascii.eqb c newline then String.eqb r EmptyString else one_line r
  end.

(** A string without a tab, a newline or a zero byte, and such a
    character. *)
Definition plain (s : string) : Prop :=
  has_char tab s = false /\ has_char newline s = false /\ has_char Ascii.zero s = false.

Definition plain_char (c : ascii) : Prop :=
  c <> tab /\ c <> newline /\ c <> Ascii.zero.

(** [printOut (snp, n)]: the text written to standard output. *)
Fixpoint print_haps (haps : list string) : string :=
  match haps with
  | [] => EmptyString
  | [h] => h ++ ":PASS" ++ String newline EmptyString
  | h :: rest => h ++ ":PASS" ++ String tab (print_haps rest)
  end.

Definition first_haps (snp : SNP_s) (n : nat) : list string :=
  map (fun i => nth i (hap snp) EmptyString) (seq 0 n).

Definition printOut (snp : SNP_s) (n : nat) : string :=
  chr snp ++ String tab (show_int (pos snp) ++ String tab (id snp ++ String tab
    (String (ref snp) (String tab (String (alt snp) (String tab
      ("." ++ String tab ("PASS" ++ String tab ("." ++ String tab ("GT:FT" ++ String tab
        (print_haps (first_haps snp n)))))))))))).

(** A genotype token as [readVcf] stores it for an individual that it could
    read: not empty, and cut at a colon within a column. *)
Definition clean_token (h : string) : Prop :=
  h <> EmptyString /\ has_char tab h = false /\ has_char colon h = false.


(** [strcspn (s, "\n")] and [stringTerminator]: the byte at the first
    newline is set to zero, which cuts the string there. *)
Fixpoint strcspn_char (c : ascii) (s : string) : nat :=
  match s with
  | EmptyString => O
  | String a r => if Ascii.eqb a c then O else S (strcspn_char c r)
  end.

Definition stringTerminator (s : string) : string :=
  String.substring 0 (strcspn_char newline s) s.

(** Whether an entry of the population file assigns the sample [s] to the
    population [name]. *)
Definition sample_in (rows : list (string * string)) (name s : string) : bool :=
  existsb (fun r => String.eqb (fst r) s && String.eqb (snd r) name) rows.

(** ** [openFiles] of [prune_ld.c]: the command line *)

(** The local variables of [openFiles] that the loop over [argv] sets; a
    file that has been opened is kept by its name. *)
Record opts := mkOpts {
  o_vcf : option string;
  o_sites : option string;
  o_win : Z;
  o_step : Z;
  o_mis : float;
  o_maf : float;
  o_r2 : float
}.

Definition opts0 : opts :=
  mkOpts None None 0 0 0x1.3333333333333p-1%float 0x1.999999999999ap-5%float (-1)%float.

(** How [openFiles] ends: with [exit], with a read through [argv] past its
    end or of its closing null pointer as a file name, or with the call of
    [readVcf] (after [readSites], when a site file is given). *)
Inductive stop :=
| Exits
| Undefined.

Inductive launch :=
| Stops (s : stop)
| Runs (o : opts).

Section OpenFiles.
(** What the C library decides: whether [fopen] succeeds on a name, what
    [strtod] accepts in [isNumeric], and the value of [atof]. *)
Variables (can_open : string -> bool) (isNumeric : string -> bool)
          (atof : string -> float).

Definition out_of_unit (x : float) : bool := (x <? 0)%float || (1 <? x)%float.

(** [-r2]: the window size, when the argument is numeric. *)
Definition set_win (o : opts) (x : string) : opts + stop :=
  if isNumeric x then
    let win := atoi x in
    if win <? 1 then inr Exits
    else inl (mkOpts (o_vcf o) (o_sites o) win (o_step o) (o_mis o) (o_maf o) (o_r2 o))
  else inl o.

Definition set_step (o : opts) (x : string) : opts + stop :=
  if isNumeric x then
    let step := atoi x in
    if (o_win o <? step) || (step <? 1) then inr Exits
    else inl (mkOpts (o_vcf o) (o_sites o) (o_win o) step (o_mis o) (o_maf o) (o_r2 o))
  else inl o.

Definition set_r2 (o : opts) (x : string) : opts + stop :=
  if isNumeric x then
    let r2 := atof x in
    if out_of_unit r2 then inr Exits
    else inl (mkOpts (o_vcf o) (o_sites o) (o_win o) (o_step o) (o_mis o) (o_maf o) r2)
  else inr Exits.

(** The loop [for (i = 1; i < argc; i++)] over the arguments from
    [argv[i]] on. *)
Fixpoint parse_args (args : list string) (o : opts) : opts + stop :=
  match args with
  | [] => inl o
  | a :: rest =>
      if String.eqb a "-vcf" then
        match rest with
        | f :: rest' =>
            if can_open f
            then parse_args rest' (mkOpts (Some f) (o_sites o) (o_win o) (o_step o)
                                          (o_mis o) (o_maf o) (o_r2 o))
            else inr Exits
        | [] => inr Undefined
        end
      else if String.eqb a "-sites" then
        match rest with
        | f :: rest' =>
            if can_open f
            then parse_args rest' (mkOpts (o_vcf o) (Some f) (o_win o) (o_step o)
                                          (o_mis o) (o_maf o) (o_r2 o))
            else inr Exits
        | [] => inr Undefined
        end
      else if String.eqb a "-mis" then
        match rest with
        | x :: rest' =>
            if isNumeric x then
              if out_of_unit (atof x) then inr Exits
              else parse_args rest' (mkOpts (o_vcf o) (o_sites o) (o_win o) (o_step o)
                                            (atof x) (o_maf o) (o_r2 o))
            else inr Exits
        | [] => inr Exits
        end
      else if String.eqb a "-maf" then
        match rest with
        | x :: rest' =>
            if isNumeric x then
              if out_of_unit (atof x) then inr Exits
              else parse_args rest' (mkOpts (o_vcf o) (o_sites o) (o_win o) (o_step o)
                                            (o_mis o) (atof x) (o_r2 o))
            else inr Exits
        | [] => inr Exits
        end
      else if String.eqb a "-r2" then
        match rest with
        | [] => inr Undefined
        | x1 :: rest1 =>
            match set_win o x1 with
            | inr e => inr e
            | inl o1 =>
                match rest1 with
                | [] => inr Undefined
                | x2 :: rest2 =>
                    match set_step o1 x2 with
                    | inr e => inr e
                    | inl o2 =>
                        match rest2 with
                        | [] => inr Exits
                        | x3 :: rest3 =>
                            match set_r2 o2 x3 with
                            | inr e => inr e
                            | inl o3 => parse_args rest3 o3
                            end
                        end
                    end
                end
            end
        end
      else inr Exits
  end.

(** [openFiles] on [argv[1]], ..., [argv[argc - 1]]. *)
Definition openFiles (args : list string) : launch :=
  match args with
  | [] => Stops Exits
  | _ =>
      match parse_args args opts0 with
      | inr e => Stops e
      | inl o =>
          match o_vcf o with
          | None => Stops Exits
          | Some _ =>
              if (o_win o =? 0) || (o_step o =? 0) || (o_r2 o =? -1)%float then Stops Exits
              else
                let maf := if (o_maf o =? 0)%float then 0x1.999999999999ap-5%float
                           else o_maf o in
                let mis := if (o_mis o =? 0)%float then 0x1.3333333333333p-1%float
                           else o_mis o in
                Runs (mkOpts (o_vcf o) (o_sites o) (o_win o) (o_step o) mis maf (o_r2 o))
          end
      end
  end.
End OpenFiles.

(** What the loop over the arguments keeps true of the options: a window
    and a step size that are unset or at least 1, thresholds within [0, 1]
    (or not a number), and files that could be opened. *)
Definition checked (can_open : string -> bool) (o : opts) : Prop :=
  (o_win o = 0 \/ 1 <= o_win o) /\ (o_step o = 0 \/ 1 <= o_step o) /\
  out_of_unit (o_mis o) = false /\ out_of_unit (o_maf o) = false /\
  (o_r2 o = (-1)%float \/ out_of_unit (o_r2 o) = false) /\
  (forall f, o_vcf o = Some f -> can_open f = true) /\
  (forall f, o_sites o = Some f -> can_open f = true).

(** The number of arguments that are the string ["-r2"]. *)
Definition count_r2 (args : list string) : nat :=
  List.length (List.filter (String.eqb "-r2") args).

(** The window and the step size before any [-r2] is read, or after the
    only one. *)
Definition sized (o : opts) (rest : list string) : Prop :=
  ((count_r2 rest <= 1)%nat /\ o_win o = 0 /\ o_step o = 0) \/
  (count_r2 rest = 0%nat /\ (o_step o = 0 \/ 1 <= o_step o <= o_win o)).

(** ** The window whatever the data *)

(** A slot whose site may still be printed: it has a chromosome and its
    [ok] field is 1 or -1. *)
Definition live (s : SNP_s) : bool := negb (tomb s) && ((ok s =? 1) || (ok s =? -1)).

(** A slot that is not Kept without a chromosome. *)
Definition sound (s : SNP_s) : Prop := ok s = 1 -> tomb s = false.

(** What [estLD] may do to a slot: it leaves the site as it is, and either
    leaves the [ok] field too, or sets it to 0, or sets it to 1 when the slot
    has a chromosome and the field was 1 or -1. *)
Definition judged (s s' : SNP_s) : Prop :=
  chr s' = chr s /\ pos s' = pos s /\
  (s' = s \/ ok s' = 0 \/ (ok s' = 1 /\ tomb s = false /\ (ok s = 1 \/ ok s = -1))).

(** The invariant of [readVcf] after the lines [done], whatever the data,
    the threshold and the step size: no slot is Kept without a chromosome;
    what has been printed, followed by the sites of the window that may
    still be printed, from the cursor on, is a subsequence of the candidate
    sites read so far; and either the window is full, or the cursor is at
    slot [win_n] and no slot from there on holds a site that may still be
    printed. *)
Definition tidy (win geno_n : nat) (mis maf : float) (n : nat)
    (st : state) (done : list vcf_line) : Prop :=
  length (snps st) = win /\ (win_i st < win)%nat /\
  (ind_n st = n \/ ind_n st = 0%nat) /\
  Forall sound (snps st) /\
  sublist (printed (log st) ++ map locus (List.filter live (view st)))
          (map line_locus (List.filter (passes geno_n mis maf n) done)) /\
  (win_n st = (win - 1)%nat \/
   exists D P, view st = D ++ P /\ Forall (fun s => live s = false) D /\
               length P = win_n st /\ win_i st = win_n st).

(** ** Whole numbers in binary64 *)

Lemma iter_pos_nat {A : Type} (f : A -> A) (p : positive) (x : A) :
  iter_pos f p x = Nat.iter (Pos.to_nat p) f x.
Proof.
  revert x. induction p as [p IH|p IH|]; intros x; cbn [iter_pos].
  - rewrite !IH, <- Nat.iter_succ_r, <- Nat.iter_add. f_equal. lia.
  - rewrite !IH, <- Nat.iter_add. f_equal. lia.
  - reflexivity.
Qed.

Lemma digits2_size (p : positive) : digits2_pos p = Pos.size p.
Proof. induction p as [p IH|p IH|]; simpl; congruence. Qed.

Lemma digits2_bounds (p : positive) :
  2 ^ (Zpos (digits2_pos p) - 1) <= Zpos p < 2 ^ Zpos (digits2_pos p).
Proof.
  rewrite digits2_size. split.
  - pose proof (Pos.size_le p) as H.
    assert (H' : 2 ^ Zpos (Pos.size p) <= 2 * Zpos p).
    { change 2 with (Zpos 2) at 1. rewrite <- Pos2Z.inj_pow. apply Pos2Z.pos_le_pos in H. exact H. }
    replace (Zpos (Pos.size p)) with (1 + (Zpos (Pos.size p) - 1)) in H' by lia.
    rewrite Z.pow_add_r in H' by lia. change (2 ^ 1) with 2 in H'. lia.
  - pose proof (Pos.size_gt p) as H.
    change 2 with (Zpos 2). rewrite <- Pos2Z.inj_pow. apply Pos2Z.pos_lt_pos. exact H.
Qed.

Lemma digits2_unique (p : positive) (d : Z) :
  2 ^ (d - 1) <= Zpos p < 2 ^ d -> Zpos (digits2_pos p) = d.
Proof.
  intros [Hl Hu]. pose proof (digits2_bounds p) as [Hl' Hu'].
  set (d' := Zpos (digits2_pos p)) in *.
  assert (0 < d).
  { destruct (Z_lt_le_dec 0 d) as [|Hle]; [assumption|]. exfalso.
    destruct (Z.eq_dec d 0) as [->|Hne].
    - rewrite Z.pow_0_r in Hu. lia.
    - rewrite Z.pow_neg_r in Hu by lia. lia. }
  destruct (Z.lt_trichotomy d' d) as [Hlt|[Heq|Hgt]]; [|exact Heq|].
  - assert (2 ^ d' <= 2 ^ (d - 1)) by (apply Z.pow_le_mono_r; lia). lia.
  - assert (2 ^ d <= 2 ^ (d' - 1)) by (apply Z.pow_le_mono_r; lia). lia.
Qed.

Lemma shr_1_even (n : nat) (mz q : positive) :
  Zpos q = Zpos mz * 2 ^ Z.of_nat n ->
  Nat.iter n shr_1 (Build_shr_record (Zpos q) false false)
  = Build_shr_record (Zpos mz) false false.
Proof.
  revert q. induction n as [|n IH]; intros q Hq.
  - simpl in *. f_equal. lia.
  - rewrite Nat.iter_succ_r.
    rewrite Nat2Z.inj_succ, Z.pow_succ_r in Hq by lia.
    destruct q as [q|q|].
    + exfalso. rewrite Pos2Z.inj_xI in Hq. set (X := 2 ^ Z.of_nat n) in *.
      assert (Zpos mz * (2 * X) = 2 * (Zpos mz * X)) by ring. lia.
    + simpl. apply IH. rewrite Pos2Z.inj_xO in Hq. set (X := 2 ^ Z.of_nat n) in *.
      assert (Zpos mz * (2 * X) = 2 * (Zpos mz * X)) by ring. lia.
    + exfalso. set (X := 2 ^ Z.of_nat n) in *.
      assert (Zpos mz * (2 * X) = 2 * (Zpos mz * X)) by ring. lia.
Qed.

Lemma digits2_shifted (mz q : positive) (t : Z) :
  0 <= t -> Zpos q = Zpos mz * 2 ^ t ->
  Zpos (digits2_pos q) = Zpos (digits2_pos mz) + t.
Proof.
  intros Ht Hq. apply digits2_unique. rewrite Hq.
  pose proof (digits2_bounds mz) as [Hl Hu].
  assert (0 < 2 ^ t) by (apply Z.pow_pos_nonneg; lia).
  replace (Zpos (digits2_pos mz) + t - 1) with ((Zpos (digits2_pos mz) - 1) + t) by lia.
  rewrite !Z.pow_add_r by lia. split.
  - apply Z.mul_le_mono_nonneg_r; lia.
  - apply Z.mul_lt_mono_pos_r; lia.
Qed.

Lemma shr_fexp_exact (q mz : positive) (e t : Z) :
  0 <= t -> Zpos q = Zpos mz * 2 ^ t -> Zpos (digits2_pos mz) = 53 ->
  -1074 <= e + t ->
  shr_fexp prec emax (Zpos q) e loc_Exact
  = (Build_shr_record (Zpos mz) false false, e + t).
Proof.
  intros Ht Hq Hd He. unfold shr_fexp.
  assert (Hn : fexp prec emax (Zdigits2 (Zpos q) + e) - e = t).
  { unfold Zdigits2. rewrite (digits2_shifted mz q t Ht Hq), Hd.
    unfold fexp, SpecFloat.emin, prec, emax. lia. }
  rewrite Hn. unfold shr_record_of_loc, shr.
  destruct t as [|p|p]; [| |lia].
  - f_equal; [|lia]. f_equal. simpl in Hq. lia.
  - f_equal. rewrite iter_pos_nat. apply shr_1_even.
    rewrite positive_nat_Z. exact Hq.
Qed.

Lemma round_aux_exact (s : bool) (q mz : positive) (e t : Z) :
  0 <= t -> Zpos q = Zpos mz * 2 ^ t -> Zpos (digits2_pos mz) = 53 ->
  -1074 <= e + t <= 971 ->
  binary_round_aux prec emax s (Zpos q) e loc_Exact = S754_finite s mz (e + t).
Proof.
  intros Ht Hq Hd He. unfold binary_round_aux.
  rewrite (shr_fexp_exact q mz e t) by (auto; lia).
  cbn [shr_m loc_of_shr_record round_nearest_even].
  rewrite (shr_fexp_exact mz mz (e + t) 0) by (auto; lia).
  cbn [shr_m]. rewrite Z.add_0_r.
  replace (e + t <=? emax - prec) with true; [reflexivity|].
  symmetry. apply Z.leb_le. unfold emax, prec. lia.
Qed.

Lemma shl_align_spec (mx : positive) (ex ex' : Z) :
  snd (shl_align mx ex ex') = Z.min ex ex' /\
  Zpos (fst (shl_align mx ex ex')) = Zpos mx * 2 ^ (ex - Z.min ex ex').
Proof.
  unfold shl_align. destruct (ex' - ex) as [|p|p] eqn:E; cbn [fst snd].
  - replace (Z.min ex ex') with ex by lia. rewrite Z.sub_diag, Z.pow_0_r. lia.
  - replace (Z.min ex ex') with ex by lia. rewrite Z.sub_diag, Z.pow_0_r. lia.
  - replace (Z.min ex ex') with ex' by lia. split; [reflexivity|].
    replace (ex - ex') with (Zpos p) by lia.
    clear E. revert mx.
    induction p as [|p IH] using Pos.peano_ind; intros mx.
    + rewrite Z.pow_1_r. cbn [Pos.iter]. lia.
    + rewrite Pos.iter_succ, Pos2Z.inj_xO, IH, Pos2Z.inj_succ.
      rewrite Z.pow_succ_r by lia. ring.
Qed.

Lemma canon_digits (k : Z) (m : positive) (e : Z) (p : positive) :
  canon_of k m e -> k = Zpos p -> Zpos (digits2_pos p) = 53 + e.
Proof.
  intros (Hd & He & Hm) ->.
  pose proof (digits2_shifted p m (- e)) as H. rewrite Hd in H.
  rewrite Z.mul_comm in Hm. rewrite (Z.mul_comm) in Hm.
  specialize (H ltac:(lia) Hm). lia.
Qed.

Lemma canon_pos (k : Z) (m : positive) (e : Z) : canon_of k m e -> 0 < k.
Proof.
  intros (_ & He & Hm).
  assert (0 < 2 ^ (- e)) by (apply Z.pow_pos_nonneg; lia).
  destruct k; [lia | lia | ].
  exfalso. assert (Z.neg p * 2 ^ (- e) < 0) by (apply Z.mul_neg_pos; lia). lia.
Qed.

(** Rounding a mantissa and exponent that stand for the whole number [k]. *)
Lemma binary_round_exact (s : bool) (q : positive) (ez k : Z) (m : positive) (e : Z) :
  canon_of k m e -> -1074 <= ez <= 0 -> Zpos q = k * 2 ^ (- ez) ->
  binary_round prec emax s q ez = S754_finite s m e.
Proof.
  intros Hc Hez Hq. pose proof (canon_pos k m e Hc) as Hk.
  destruct k as [|p|p]; try lia.
  pose proof (canon_digits _ m e p Hc eq_refl) as Hdp.
  destruct Hc as (Hd & He & Hm).
  unfold binary_round.
  assert (Hdq : Zpos (digits2_pos q) = 53 + e - ez).
  { rewrite (digits2_shifted p q (- ez)); lia. }
  assert (Hf : fexp prec emax (Zpos (digits2_pos q) + ez) = e).
  { rewrite Hdq. unfold fexp, SpecFloat.emin, prec, emax. lia. }
  rewrite Hf.
  destruct (shl_align_spec q ez e) as [H1 H2].
  destruct (shl_align q ez e) as [mz' ez']. cbn [fst snd] in H1, H2. subst ez'.
  rewrite (round_aux_exact s mz' m (Z.min ez e) (e - Z.min ez e)).
  - f_equal. lia.
  - lia.
  - rewrite H2, Hq, Hm.
    rewrite <- !Z.mul_assoc, <- !Z.pow_add_r by lia. f_equal. f_equal. lia.
  - exact Hd.
  - lia.
Qed.

Lemma canon_exists (k : Z) : 0 < k < 2 ^ 53 -> exists m e, canon_of k m e.
Proof.
  intros Hk. destruct k as [|p|p]; try lia.
  pose proof (digits2_bounds p) as [Hl Hu].
  set (d := Zpos (digits2_pos p)) in *.
  assert (Hd : 1 <= d <= 53).
  { split; [unfold d; lia|].
    destruct (Z_le_gt_dec d 53) as [|Hgt]; [assumption|].
    assert (2 ^ 53 <= 2 ^ (d - 1)) by (apply Z.pow_le_mono_r; lia). lia. }
  assert (Hpos : 0 < Zpos p * 2 ^ (53 - d)).
  { apply Z.mul_pos_pos; [lia | apply Z.pow_pos_nonneg; lia]. }
  destruct (Zpos p * 2 ^ (53 - d)) as [|m|m] eqn:Em; try lia.
  exists m, (d - 53). split; [|split].
  - rewrite (digits2_shifted p m (53 - d)); [fold d; lia | lia | congruence].
  - lia.
  - rewrite <- Em. f_equal. f_equal. lia.
Qed.

Lemma canon_unique (k : Z) (m m' : positive) (e e' : Z) :
  canon_of k m e -> canon_of k m' e' -> m = m' /\ e = e'.
Proof.
  intros Hc Hc'. pose proof (canon_pos _ _ _ Hc) as Hk.
  destruct k as [|p|p]; try lia.
  pose proof (canon_digits _ _ _ p Hc eq_refl).
  pose proof (canon_digits _ _ _ p Hc' eq_refl).
  assert (e = e') by lia. subst e'. split; [|reflexivity].
  destruct Hc as (_ & _ & H1), Hc' as (_ & _ & H2). congruence.
Qed.

Lemma Prim2SF_of_Z (k : Z) :
  0 <= k < 2 ^ 53 ->
  Prim2SF (double_of_int k) = binary_normalize prec emax k 0 false.
Proof.
  intros Hk. unfold double_of_int.
  destruct (Z.ltb_spec k 0); [lia|].
  rewrite of_uint63_spec, Uint63.of_Z_spec. f_equal.
  apply Z.mod_small. unfold wB. simpl. 
  assert (2 ^ 53 < 2 ^ 63) by (apply Z.pow_lt_mono_r; lia). 
  change (2 ^ Z.of_nat size) with (2 ^ 63). lia.
Qed.

Lemma Prim2SF_canon (k : Z) (m : positive) (e : Z) :
  canon_of k m e -> k < 2 ^ 53 -> Prim2SF (double_of_int k) = S754_finite false m e.
Proof.
  intros Hc Hk. pose proof (canon_pos _ _ _ Hc) as Hk0.
  rewrite Prim2SF_of_Z by lia.
  destruct k as [|p|p]; try lia. simpl.
  apply (binary_round_exact false p 0 (Zpos p) m e Hc); [lia|].
  simpl. lia.
Qed.

Lemma Prim2SF_zero : Prim2SF (double_of_int 0) = S754_zero false.
Proof. reflexivity. Qed.

Lemma canon_52 (k : Z) (m : positive) (e : Z) :
  canon_of k m e -> 2 ^ 52 <= Zpos m < 2 ^ 53.
Proof.
  intros (Hd & _). pose proof (digits2_bounds m) as H. rewrite Hd in H. exact H.
Qed.

(** Addition of whole numbers is exact below [2^53]. *)
Lemma double_add_exact (a b : Z) :
  0 <= a -> 0 <= b -> a + b < 2 ^ 53 ->
  (double_of_int a + double_of_int b)%float = double_of_int (a + b).
Proof.
  intros Ha Hb Hab. apply Prim2SF_inj. rewrite FloatAxioms.add_spec.
  destruct (Z.eq_dec a 0) as [->|Ha0].
  { rewrite Z.add_0_l, Prim2SF_zero.
    destruct (Z.eq_dec b 0) as [->|Hb0]; [reflexivity|].
    destruct (canon_exists b) as (m & e & Hc); [lia|].
    rewrite (Prim2SF_canon b m e) by (auto; lia). reflexivity. }
  destruct (Z.eq_dec b 0) as [->|Hb0].
  { rewrite Z.add_0_r, Prim2SF_zero.
    destruct (canon_exists a) as (m & e & Hc); [lia|].
    rewrite (Prim2SF_canon a m e) by (auto; lia). reflexivity. }
  destruct (canon_exists a) as (ma & ea & Hca); [lia|].
  destruct (canon_exists b) as (mb & eb & Hcb); [lia|].
  destruct (canon_exists (a + b)) as (m & e & Hc); [lia|].
  rewrite (Prim2SF_canon a ma ea), (Prim2SF_canon b mb eb),
    (Prim2SF_canon (a + b) m e) by (auto; lia).
  unfold SF64add, SFadd, cond_Zopp.
  destruct (shl_align_spec ma ea (Z.min ea eb)) as [_ H1].
  destruct (shl_align_spec mb eb (Z.min ea eb)) as [_ H2].
  destruct Hca as (_ & Hea & Hma), Hcb as (_ & Heb & Hmb).
  rewrite Pos2Z.add_pos_pos. unfold binary_normalize.
  apply (binary_round_exact false _ _ (a + b) m e Hc); [lia|].
  rewrite Pos2Z.inj_add, H1, H2, Hma, Hmb.
  replace (Z.min ea (Z.min ea eb)) with (Z.min ea eb) by lia.
  replace (Z.min eb (Z.min ea eb)) with (Z.min ea eb) by lia.
  rewrite <- !Z.mul_assoc, <- !Z.pow_add_r by lia.
  replace (- ea + (ea - Z.min ea eb)) with (- Z.min ea eb) by lia.
  replace (- eb + (eb - Z.min ea eb)) with (- Z.min ea eb) by lia.
  ring.
Qed.

(** Multiplication of whole numbers is exact below [2^53]. *)
Lemma double_mul_exact (a b : Z) :
  0 <= a < 2 ^ 53 -> 0 <= b < 2 ^ 53 -> a * b < 2 ^ 53 ->
  (double_of_int a * double_of_int b)%float = double_of_int (a * b).
Proof.
  intros Ha Hb Hab. apply Prim2SF_inj. rewrite FloatAxioms.mul_spec.
  destruct (Z.eq_dec a 0) as [->|Ha0].
  { rewrite Z.mul_0_l, Prim2SF_zero.
    destruct (Z.eq_dec b 0) as [->|Hb0]; [reflexivity|].
    destruct (canon_exists b) as (m & e & Hc); [nia|].
    rewrite (Prim2SF_canon b m e) by (auto; nia). reflexivity. }
  destruct (Z.eq_dec b 0) as [->|Hb0].
  { rewrite Z.mul_0_r, Prim2SF_zero.
    destruct (canon_exists a) as (m & e & Hc); [nia|].
    rewrite (Prim2SF_canon a m e) by (auto; nia). reflexivity. }
  assert (0 < a * b) by nia.
  destruct (canon_exists a) as (ma & ea & Hca); [nia|].
  destruct (canon_exists b) as (mb & eb & Hcb); [nia|].
  destruct (canon_exists (a * b)) as (m & e & Hc); [lia|].
  rewrite (Prim2SF_canon a ma ea), (Prim2SF_canon b mb eb),
    (Prim2SF_canon (a * b) m e) by (auto; nia).
  unfold SF64mul, SFmul. cbn [xorb].
  pose proof (canon_52 _ _ _ Hca) as Bma.
  pose proof (canon_52 _ _ _ Hcb) as Bmb.
  pose proof (canon_52 _ _ _ Hc) as Bm.
  destruct Hca as (_ & Hea & Hma), Hcb as (_ & Heb & Hmb).
  destruct Hc as (Hd & He & Hm).
  assert (Hprod : Zpos (ma * mb) = a * b * 2 ^ (- ea - eb)).
  { rewrite Pos2Z.inj_mul, Hma, Hmb.
    replace (- ea - eb) with (- ea + - eb) by lia.
    rewrite Z.pow_add_r by lia. ring. }
  assert (Ht : ea + eb <= e).
  { destruct (Z_le_gt_dec (ea + eb) e) as [|Hgt]; [assumption|]. exfalso.
    assert (2 ^ (- ea - eb + 1) <= 2 ^ (- e)) by (apply Z.pow_le_mono_r; lia).
    rewrite Z.pow_add_r in H0 by lia. change (2 ^ 1) with 2 in H0.
    assert (2 ^ 52 * 2 ^ 52 <= Zpos ma * Zpos mb) by (apply Z.mul_le_mono_nonneg; lia).
    rewrite <- Pos2Z.inj_mul, Hprod in H1.
    assert (a * b * (2 ^ (- ea - eb) * 2) <= a * b * 2 ^ (- e))
      by (apply Z.mul_le_mono_nonneg_l; lia).
    change (2 ^ 52 * 2 ^ 52) with (2 ^ 104) in H1.
    assert (2 ^ 53 < 2 ^ 104) by (apply Z.pow_lt_mono_r; lia).
    lia. }
  rewrite (round_aux_exact false (ma * mb) m (ea + eb) (e - (ea + eb))).
  - f_equal. lia.
  - lia.
  - rewrite Hprod, Hm.
    replace (- ea - eb) with (- e + (e - (ea + eb))) by lia.
    rewrite Z.pow_add_r by lia. ring.
  - exact Hd.
  - lia.
Qed.

Lemma double_finite_or_zero (k : Z) :
  0 <= k < 2 ^ 53 ->
  Prim2SF (double_of_int k) = S754_zero false \/
  exists m e, Prim2SF (double_of_int k) = S754_finite false m e.
Proof.
  intros Hk. destruct (Z.eq_dec k 0) as [->|Hk0]; [left; reflexivity|].
  right. destruct (canon_exists k) as (m & e & Hc); [lia|].
  exists m, e. apply Prim2SF_canon; [exact Hc | lia].
Qed.

Lemma double_sub_diag (k : Z) :
  0 <= k < 2 ^ 53 -> (double_of_int k - double_of_int k)%float = 0%float.
Proof.
  intros Hk. apply Prim2SF_inj. rewrite FloatAxioms.sub_spec.
  destruct (double_finite_or_zero k Hk) as [->|(m & e & ->)]; [reflexivity|].
  unfold SF64sub, SFsub. rewrite Z.sub_diag. reflexivity.
Qed.

Lemma double_eqb_refl (k : Z) :
  0 <= k < 2 ^ 53 -> (double_of_int k =? double_of_int k)%float = true.
Proof.
  intros Hk. rewrite FloatAxioms.eqb_spec.
  destruct (double_finite_or_zero k Hk) as [->|(m & e & ->)]; [reflexivity|].
  unfold SFeqb, SFcompare. rewrite Z.compare_refl.
  change (Pos.compare_cont Eq m m) with (Pos.compare m m).
  rewrite Pos.compare_refl. reflexivity.
Qed.

Lemma double_pos_nonzero (k : Z) :
  0 < k < 2 ^ 53 -> (double_of_int k =? 0)%float = false.
Proof.
  intros Hk. rewrite FloatAxioms.eqb_spec.
  destruct (canon_exists k) as (m & e & Hc); [lia|].
  rewrite (Prim2SF_canon k m e) by (auto; lia). reflexivity.
Qed.

Lemma double_not_missing (k : Z) :
  0 <= k < 2 ^ 53 -> (double_of_int k =? missing)%float = false.
Proof.
  intros Hk. rewrite FloatAxioms.eqb_spec.
  replace (Prim2SF missing) with (S754_finite true 4503599627370496 (-52)) by reflexivity.
  destruct (double_finite_or_zero k Hk) as [->|(m & e & ->)]; reflexivity.
Qed.

(** ** Zeros and NaN *)

Lemma zn_zero : zero_or_nan 0%float.
Proof. right. exists false. reflexivity. Qed.

Lemma zn_mul_l (x y : float) : zero_or_nan x -> zero_or_nan (x * y)%float.
Proof.
  unfold zero_or_nan. rewrite FloatAxioms.mul_spec.
  intros [->|[s ->]]; [left; reflexivity|].
  destruct (Prim2SF y) as [sy|sy| |sy my ey]; simpl; eauto.
Qed.

Lemma zn_mul_r (x y : float) : zero_or_nan y -> zero_or_nan (x * y)%float.
Proof.
  unfold zero_or_nan. rewrite FloatAxioms.mul_spec.
  intros [->|[s ->]].
  - left. destruct (Prim2SF x); reflexivity.
  - destruct (Prim2SF x) as [sx|sx| |sx mx ex]; simpl; eauto.
Qed.

Lemma zn_add (x y : float) :
  zero_or_nan x -> zero_or_nan y -> zero_or_nan (x + y)%float.
Proof.
  unfold zero_or_nan. rewrite FloatAxioms.add_spec.
  intros [->|[s ->]] [->|[s' ->]]; simpl; eauto.
  destruct s, s'; simpl; eauto.
Qed.

Lemma zn_sub (x y : float) :
  zero_or_nan x -> zero_or_nan y -> zero_or_nan (x - y)%float.
Proof.
  unfold zero_or_nan. rewrite FloatAxioms.sub_spec.
  intros [->|[s ->]] [->|[s' ->]]; simpl; eauto.
  destruct s, s'; simpl; eauto.
Qed.

Lemma zn_sqrt (x : float) : zero_or_nan x -> zero_or_nan (PrimFloat.sqrt x).
Proof.
  unfold zero_or_nan. rewrite FloatAxioms.sqrt_spec.
  intros [->|[s ->]]; simpl; eauto.
Qed.

Lemma zn_div_nan (x y : float) :
  zero_or_nan x -> zero_or_nan y -> Prim2SF (x / y)%float = S754_nan.
Proof.
  unfold zero_or_nan. rewrite FloatAxioms.div_spec.
  intros [->|[s ->]] [->|[s' ->]]; reflexivity.
Qed.

Lemma nan_square (x : float) :
  Prim2SF x = S754_nan -> Prim2SF (x * x)%float = S754_nan.
Proof. intros H. rewrite FloatAxioms.mul_spec, H. reflexivity. Qed.

Lemma nan_is_nan (x : float) : Prim2SF x = S754_nan -> PrimFloat.is_nan x = true.
Proof. intros H. unfold PrimFloat.is_nan. rewrite FloatAxioms.eqb_spec, H. reflexivity. Qed.

Lemma nan_not_above (t x : float) : Prim2SF x = S754_nan -> (t <? x)%float = false.
Proof.
  intros H. rewrite FloatAxioms.ltb_spec, H. unfold SFltb, SFcompare.
  destruct (Prim2SF t); reflexivity.
Qed.

Lemma sqrt_negative_nan (x : float) :
  (x <? 0)%float = true -> Prim2SF (PrimFloat.sqrt x) = S754_nan.
Proof.
  rewrite FloatAxioms.ltb_spec, FloatAxioms.sqrt_spec.
  replace (Prim2SF 0) with (S754_zero false) by reflexivity.
  destruct (Prim2SF x) as [s|s| |s m e]; simpl; try discriminate.
  - destruct s; [reflexivity | discriminate].
  - destruct s; [reflexivity | discriminate].
Qed.

Lemma div_nan_r (x y : float) :
  Prim2SF y = S754_nan -> Prim2SF (x / y)%float = S754_nan.
Proof. intros H. rewrite FloatAxioms.div_spec, H. destruct (Prim2SF x); reflexivity. Qed.

(** ** Properties of [estLD] *)

Section EstLD.
Variables (win ind_n : nat) (r2 : float).

Local Abbreviation conflict := (conflict ind_n r2).
Local Abbreviation verdict := (verdict win ind_n r2).

Lemma same_sites_refl l : same_sites l l.
Proof. split; [reflexivity | intros k; split; reflexivity]. Qed.

Lemma same_sites_trans l1 l2 l3 :
  same_sites l1 l2 -> same_sites l2 l3 -> same_sites l1 l3.
Proof.
  intros [H1 H2] [H3 H4]. split; [congruence|].
  intros k. destruct (H2 k), (H4 k). split; congruence.
Qed.

Lemma same_sites_set_ok l i v :
  same_sites l (<[i := set_ok v (l !!! i)]> l).
Proof.
  split; [by rewrite length_insert|].
  intros k. destruct (decide (i = k)) as [->|Hne].
  - destruct (decide (k < length l)%nat) as [Hlt|Hge].
    + rewrite list_lookup_total_insert_eq by exact Hlt. split; reflexivity.
    + rewrite list_insert_ge by lia. split; reflexivity.
  - rewrite list_lookup_total_insert_ne by exact Hne. split; reflexivity.
Qed.

Lemma scan_conflict snps si j fuel :
  scan snps ind_n r2 si j fuel =
  match fuel with
  | O => j
  | S fuel' => if conflict si (snps !!! j) then j
               else scan snps ind_n r2 si (S j) fuel'
  end.
Proof.
  destruct fuel as [|fuel']; [reflexivity|]. simpl. unfold conflict.
  destruct (tomb (snps !!! j)); simpl; [reflexivity|].
  destruct (String.eqb (chr si) (chr (snps !!! j))); reflexivity.
Qed.

Lemma scan_same_sites l l' si si' j fuel :
  same_sites l l' -> chr si = chr si' -> geno si = geno si' ->
  scan l ind_n r2 si j fuel = scan l' ind_n r2 si' j fuel.
Proof.
  intros [_ Hs] Hc Hg. revert j.
  induction fuel as [|fuel IH]; intros j; [reflexivity|].
  simpl. unfold tomb. destruct (Hs j) as [E1 E2].
  rewrite E1, E2, Hc, Hg, !IH. reflexivity.
Qed.

Lemma scan_bounds snps si j fuel :
  (j <= scan snps ind_n r2 si j fuel <= j + fuel)%nat.
Proof.
  revert j. induction fuel as [|fuel IH]; intros j; rewrite scan_conflict.
  - lia.
  - destruct (conflict si (snps !!! j)); [lia|]. specialize (IH (S j)). lia.
Qed.

(** The loop runs to the end exactly when no slot in range conflicts. *)
Lemma scan_end snps si j fuel :
  scan snps ind_n r2 si j fuel = (j + fuel)%nat <->
  forall k, (j <= k < j + fuel)%nat -> conflict si (snps !!! k) = false.
Proof.
  revert j. induction fuel as [|fuel IH]; intros j; rewrite scan_conflict.
  - split; [intros _ k Hk; lia | intros _; lia].
  - destruct (conflict si (snps !!! j)) eqn:Hc.
    + split; [lia|]. intros H. rewrite H in Hc by lia. discriminate.
    + replace (j + S fuel)%nat with (S j + fuel)%nat by lia.
      rewrite IH. split; intros H k Hk.
      * destruct (decide (k = j)) as [->|]; [exact Hc|]. apply H. lia.
      * apply H. lia.
Qed.

(** After a [break] the loop index is the first conflicting slot. *)
Lemma scan_break snps si j fuel :
  (scan snps ind_n r2 si j fuel < j + fuel)%nat ->
  conflict si (snps !!! scan snps ind_n r2 si j fuel) = true /\
  forall k, (j <= k < scan snps ind_n r2 si j fuel)%nat ->
            conflict si (snps !!! k) = false.
Proof.
  revert j. induction fuel as [|fuel IH]; intros j; rewrite scan_conflict.
  - lia.
  - destruct (conflict si (snps !!! j)) eqn:Hc.
    + intros _. split; [exact Hc | intros k Hk; lia].
    + intros Hlt. destruct (IH (S j)) as [H1 H2]; [lia|]. split; [exact H1|].
      intros k Hk. destruct (decide (k = j)) as [->|]; [exact Hc|].
      apply H2. lia.
Qed.

Lemma estLD_step_verdict snps i :
  estLD_step win ind_n r2 snps i = <[i := verdict snps i]> snps.
Proof.
  unfold estLD_step, verdict. destruct (tomb (snps !!! i)).
  - destruct (decide (i < length snps)%nat).
    + symmetry. apply list_insert_id. by apply list_lookup_lookup_total_lt.
    + by rewrite list_insert_ge by lia.
  - destruct (_ && _); reflexivity.
Qed.

Lemma verdict_site snps i :
  chr (verdict snps i) = chr (snps !!! i) /\
  geno (verdict snps i) = geno (snps !!! i).
Proof.
  unfold verdict. destruct (tomb _); [split; reflexivity|].
  destruct (_ && _); split; reflexivity.
Qed.

Lemma same_sites_verdict l i : same_sites l (<[i := verdict l i]> l).
Proof.
  split; [by rewrite length_insert|].
  intros k. destruct (decide (i = k)) as [->|Hne].
  - destruct (decide (k < length l)%nat) as [Hlt|Hge].
    + rewrite list_lookup_total_insert_eq by exact Hlt.
      destruct (verdict_site l k) as [-> ->]. split; reflexivity.
    + rewrite list_insert_ge by lia. split; reflexivity.
  - rewrite list_lookup_total_insert_ne by exact Hne. split; reflexivity.
Qed.

Lemma verdict_same_sites l l' i :
  same_sites l l' -> l !!! i = l' !!! i -> verdict l i = verdict l' i.
Proof.
  intros Hs Hi. unfold verdict. rewrite <- Hi.
  rewrite (scan_same_sites l l' (l !!! i) (l !!! i)); auto.
Qed.

(** The outer loop after its first [k] iterations. *)
Lemma estLD_prefix snps k :
  same_sites snps (fold_left (estLD_step win ind_n r2) (seq 0 k) snps) /\
  forall i, fold_left (estLD_step win ind_n r2) (seq 0 k) snps !!! i =
            if decide (i < k)%nat then verdict snps i else snps !!! i.
Proof.
  induction k as [|k [IHs IHl]].
  - split; [apply same_sites_refl|]. intros i. reflexivity.
  - rewrite seq_S, fold_left_app. cbn [fold_left Nat.add].
    set (l := fold_left _ (seq 0 k) snps) in *. rewrite estLD_step_verdict. split.
    + eapply same_sites_trans; [exact IHs | apply same_sites_verdict].
    + intros i. destruct (decide (i = k)) as [->|Hne].
      * destruct (decide (k < S k)%nat); [|lia].
        assert (Hv : verdict l k = verdict snps k).
        { symmetry. apply verdict_same_sites; [exact IHs|].
          rewrite IHl. destruct (decide (k < k)%nat); [lia | reflexivity]. }
        destruct (decide (k < length l)%nat) as [Hlt|Hge].
        -- rewrite list_lookup_total_insert_eq by exact Hlt. exact Hv.
        -- rewrite list_insert_ge by lia. rewrite IHl.
           destruct (decide (k < k)%nat); [lia|].
           destruct IHs as [Hlen _].
           unfold verdict. rewrite !list_lookup_total_alt.
           rewrite (lookup_ge_None_2 snps k) by lia. reflexivity.
      * rewrite list_lookup_total_insert_ne by congruence. rewrite IHl.
        destruct (decide (i < k)%nat), (decide (i < S k)%nat); try lia; reflexivity.
Qed.

(** Closed form of [estLD]: every slot below [win] gets its verdict, computed
    on the window as it was on entry; the other slots are left alone. *)
Lemma estLD_lookup snps i :
  estLD snps win ind_n r2 !!! i =
  if decide (i < win)%nat then verdict snps i else snps !!! i.
Proof. apply (estLD_prefix snps win). Qed.

Lemma estLD_same_sites snps : same_sites snps (estLD snps win ind_n r2).
Proof. apply (estLD_prefix snps win). Qed.

Lemma estLD_length snps : length (estLD snps win ind_n r2) = length snps.
Proof. symmetry. apply estLD_same_sites. Qed.
End EstLD.

(** ** The window evaluator: claims C2, C3 and C4 *)

(** C2. For every call of [estLD] and every occupied slot [i] below [win]:
    the forward scan over the slots [j > i] stops at the first occupied slot
    of the same chromosome whose [estR2] exceeds the threshold; slot [i] is
    marked Kept exactly when no such slot exists and [ok] was Pending or Kept
    before the call, and is marked Rejected in every other case. *)
Theorem estLD_kept_iff (win ind_n : nat) (r2 : float) (snps : list SNP_s) (i : nat) :
  (i < win)%nat -> tomb (snps !!! i) = false ->
  let si := snps !!! i in
  let j := scan snps ind_n r2 si (S i) (win - S i) in
  let s' := estLD snps win ind_n r2 !!! i in
  ((j < win)%nat ->
     conflict ind_n r2 si (snps !!! j) = true /\
     forall k, (i < k < j)%nat -> conflict ind_n r2 si (snps !!! k) = false) /\
  (ok s' = Kept <->
     (forall k, (i < k < win)%nat -> conflict ind_n r2 si (snps !!! k) = false) /\
     (ok si = Pending \/ ok si = Kept)) /\
  (ok s' = Kept \/ ok s' = Rejected).
Proof.
  intros Hi Ht si j s'.
  assert (Ht' : tomb si = false) by exact Ht.
  assert (Hend : j = win <->
    forall k, (i < k < win)%nat -> conflict ind_n r2 si (snps !!! k) = false).
  { pose proof (scan_end ind_n r2 snps si (S i) (win - S i)) as H. fold j in H.
    replace (S i + (win - S i))%nat with win in H by lia.
    rewrite H. split; intros H' k Hk; apply H'; lia. }
  split; [|split].
  - intros Hlt.
    destruct (scan_break ind_n r2 snps si (S i) (win - S i)) as [H1 H2].
    + fold j. lia.
    + fold j in H1, H2. split; [exact H1|]. intros k Hk. apply H2. lia.
  - subst s'. rewrite estLD_lookup. destruct (decide (i < win)%nat); [|lia].
    unfold verdict. fold si. rewrite Ht'. fold j. rewrite <- Hend.
    unfold Kept, Pending.
    destruct (Nat.eqb_spec j win) as [E|E]; simpl.
    + destruct (Z.eqb_spec (ok si) (-1)); simpl.
      * split; [intros _; split; [exact E | left; assumption] | reflexivity].
      * destruct (Z.eqb_spec (ok si) 1); simpl.
        -- split; [intros _; split; [exact E | right; assumption] | reflexivity].
        -- split; [discriminate | intros [_ [H|H]]; contradiction].
    + split; [discriminate | intros [H _]; contradiction].
  - subst s'. rewrite estLD_lookup. destruct (decide (i < win)%nat); [|lia].
    unfold verdict. fold si. rewrite Ht'.
    destruct (_ && _); [left | right]; reflexivity.
Qed.

Lemma estLD_kept_iff_witness :
  let w := [sample_site 10 (-1) [0;1;2]; sample_site 20 (-1) [2;1;0];
            sample_site 30 (-1) [0;0;0]] in
  ok (estLD w 3 3 r2_01 !!! 1%nat) = Kept \/ ok (estLD w 3 3 r2_01 !!! 1%nat) = Rejected.
Proof.
  intros w.
  refine (proj2 (proj2 (estLD_kept_iff 3 3 r2_01 w 1 _ _))).
  - lia.
  - reflexivity.
Defined.

(** C3, as stated, fails: in the window below the only slot whose correlation
    with slot 0 exceeds the threshold is slot 1, which is already Rejected,
    and the call still rejects slot 0. *)
Lemma estLD_rejected_partner_counterexample :
  let w := [sample_site 10 (-1) [0;1;2]; sample_site 20 0 [2;1;0]] in
  ok (w !!! 0%nat) = Pending /\
  conflict 3 r2_01 (w !!! 0%nat) (w !!! 1%nat) = true /\
  ok (w !!! 1%nat) = Rejected /\
  ok (estLD w 2 3 r2_01 !!! 0%nat) = Rejected.
Proof. vm_compute. repeat split. Qed.

(** C3, amended. For an occupied slot [i] of the evaluated range that is
    Pending or Kept, [estLD] marks it Rejected exactly when some later slot
    of the range is occupied, has the chromosome of slot [i] and exceeds the
    threshold with it, whatever the decision state of that later slot: the
    result for slot [i] is the same in every window that has the same
    chromosome fields and dosages and the same slot [i], so the [ok] fields
    of the other slots are never consulted. *)
Theorem estLD_rejects_iff (win ind_n : nat) (r2 : float) (snps : list SNP_s) (i : nat) :
  (i < win)%nat -> tomb (snps !!! i) = false ->
  ((ok (snps !!! i) = Pending \/ ok (snps !!! i) = Kept) ->
   (ok (estLD snps win ind_n r2 !!! i) = Rejected <->
    exists j, (i < j < win)%nat /\ conflict ind_n r2 (snps !!! i) (snps !!! j) = true)) /\
  (forall snps', same_sites snps snps' -> snps' !!! i = snps !!! i ->
     estLD snps' win ind_n r2 !!! i = estLD snps win ind_n r2 !!! i).
Proof.
  intros Hi Ht. split.
  - intros Hok. rewrite estLD_lookup. destruct (decide (i < win)%nat); [|lia].
    unfold verdict. cbv zeta. rewrite Ht.
    set (j := scan snps ind_n r2 (snps !!! i) (S i) (win - S i)).
    pose proof (scan_bounds ind_n r2 snps (snps !!! i) (S i) (win - S i)) as Hb.
    fold j in Hb.
    assert (Hstate : (ok (snps !!! i) =? -1) || (ok (snps !!! i) =? 1) = true).
    { unfold Pending, Kept in Hok. destruct Hok as [-> | ->]; reflexivity. }
    rewrite Hstate, andb_true_r.
    destruct (Nat.eqb_spec j win) as [E|E]; cbn [ok set_ok]; unfold Rejected.
    + split; [discriminate|]. intros (k & Hk & Hc). exfalso.
      assert (Hnone : forall k, (S i <= k < S i + (win - S i))%nat ->
                conflict ind_n r2 (snps !!! i) (snps !!! k) = false).
      { apply scan_end. fold j. lia. }
      rewrite Hnone in Hc by lia. discriminate.
    + split; [|reflexivity]. intros _. exists j.
      destruct (scan_break ind_n r2 snps (snps !!! i) (S i) (win - S i)) as [Hc _].
      { fold j. lia. }
      fold j in Hc. split; [lia | exact Hc].
  - intros snps' Hs Hsame. rewrite !estLD_lookup.
    destruct (decide (i < win)%nat); [|exact Hsame].
    symmetry. apply verdict_same_sites; [exact Hs | symmetry; exact Hsame].
Qed.

Lemma estLD_rejects_iff_witness :
  let w := [sample_site 10 (-1) [0;1;2]; sample_site 20 0 [2;1;0]] in
  ok (estLD w 2 3 r2_01 !!! 0%nat) = Rejected.
Proof.
  intros w.
  destruct (estLD_rejects_iff 2 3 r2_01 w 0) as [H _].
  - lia.
  - reflexivity.
  - apply H; [left; reflexivity|]. exists 1%nat. split; [lia|]. vm_compute. reflexivity.
Defined.

Lemma insert_keeps_ok (l : list SNP_s) (k i : nat) (s : SNP_s) (v : Z) :
  ok s = ok (l !!! k) \/ ok s = v -> ok (l !!! i) = v -> ok (<[k := s]> l !!! i) = v.
Proof.
  intros Hs H. destruct (decide (k = i)) as [->|Hne].
  - destruct (decide (i < length l)%nat).
    + rewrite list_lookup_total_insert_eq by assumption.
      destruct Hs as [Hs|Hs]; congruence.
    + rewrite list_insert_ge by lia. exact H.
  - rewrite list_lookup_total_insert_ne by exact Hne. exact H.
Qed.

Lemma apply_op_rejected (l : list SNP_s) (o : window_op) (i : nat) :
  ok (l !!! i) = Rejected -> ok (apply_op l o !!! i) = Rejected.
Proof.
  intros H. destruct o as [win ind_n r2|k|k geno_n|k]; simpl.
  - rewrite estLD_lookup. destruct (decide (i < win)%nat); [|exact H].
    unfold verdict. destruct (tomb (l !!! i)); [exact H|].
    rewrite H. unfold Rejected. simpl. rewrite andb_false_r. reflexivity.
  - destruct (ok (l !!! k) =? 1); [|exact H].
    apply insert_keeps_ok; [right; reflexivity | exact H].
  - apply insert_keeps_ok; [left; reflexivity | exact H].
  - apply insert_keeps_ok; [left; reflexivity | exact H].
Qed.

(** C4. Once a slot is Rejected it stays Rejected through any sequence of
    evaluator calls (with any arguments), interleaved with the emission test,
    the clearing of dosages and tombstoning, as long as no new site is
    written into it. *)
Theorem rejected_stays_rejected (ops : list window_op) (snps : list SNP_s) (i : nat) :
  ok (snps !!! i) = Rejected ->
  ok (fold_left apply_op ops snps !!! i) = Rejected.
Proof.
  revert snps. induction ops as [|o ops IH]; intros snps H; simpl.
  - exact H.
  - apply IH. apply apply_op_rejected. exact H.
Qed.

Lemma rejected_stays_rejected_witness :
  let w := [sample_site 10 0 [0;1;2]; sample_site 20 (-1) [0;0;1]] in
  ok (fold_left apply_op [OpEval 2 3 r2_01; OpEmit 1; OpEval 2 3 r2_01] w !!! 0%nat)
  = Rejected.
Proof.
  intros w.
  apply (rejected_stays_rejected [OpEval 2 3 r2_01; OpEmit 1; OpEval 2 3 r2_01] w 0).
  reflexivity.
Defined.

(** ** Dosage extraction: claims C7 and C8 *)

Lemma string_ind2 (P : string -> Prop) :
  P EmptyString ->
  (forall a, P (String a EmptyString)) ->
  (forall a b r, P r -> P (String a (String b r))) ->
  forall s, P s.
Proof.
  intros H0 H1 H2. fix IH 1. intros [|a [|b r]].
  - exact H0.
  - apply H1.
  - apply H2, IH.
Qed.

Lemma is_allele_cases (a : ascii) :
  is_allele a = true <-> a = "0"%char \/ a = "1"%char.
Proof.
  unfold is_allele. rewrite orb_true_iff, !Ascii.eqb_eq. reflexivity.
Qed.

Lemma even_chars_get (hp : string) :
  forallb is_allele (even_chars hp) = true <->
  forall i a, Nat.even i = true -> String.get i hp = Some a -> is_allele a = true.
Proof.
  induction hp as [|a|a b r IH] using string_ind2.
  - split; [intros _ i c _ H; destruct i; discriminate | reflexivity].
  - cbn [even_chars forallb]. rewrite andb_true_r. split.
    + intros Ha [|i] c _ H; [injection H as <-; exact Ha|].
      destruct i; discriminate.
    + intros H. apply (H 0%nat a); reflexivity.
  - cbn [even_chars forallb]. rewrite andb_true_iff, IH. split.
    + intros [Ha Hr] [|[|i]] c Hev H.
      * injection H as <-. exact Ha.
      * discriminate.
      * apply (Hr i c); [exact Hev | exact H].
    + intros H. split.
      * apply (H 0%nat a); reflexivity.
      * intros i c Hev Hc. apply (H (S (S i)) c); [exact Hev | exact Hc].
Qed.

Lemma even_chars_bad (hp : string) :
  forallb is_allele (even_chars hp) = false <->
  exists i a, Nat.even i = true /\ String.get i hp = Some a /\ is_allele a = false.
Proof.
  induction hp as [|a|a b r IH] using string_ind2.
  - split; [discriminate | intros (i & c & _ & H & _); destruct i; discriminate].
  - cbn [even_chars forallb]. rewrite andb_true_r. split.
    + intros Ha. exists 0%nat, a. auto.
    + intros ([|[|i]] & c & _ & H & Hc); try discriminate.
      injection H as <-. exact Hc.
  - cbn [even_chars forallb]. rewrite andb_false_iff, IH. split.
    + intros [Ha|(i & c & Hev & H & Hc)].
      * exists 0%nat, a. auto.
      * exists (S (S i)), c. auto.
    + intros ([|[|i]] & c & Hev & H & Hc).
      * injection H as <-. left. exact Hc.
      * discriminate.
      * right. exists i, c. auto.
Qed.

Lemma allele_loop_shift (a b : ascii) (r : string) (i cnt : nat) (g alt_i : float) :
  allele_loop (String a (String b r)) (S (S i)) cnt g alt_i = allele_loop r i cnt g alt_i.
Proof.
  revert i g alt_i. induction cnt as [|cnt IH]; intros i g alt_i; [reflexivity|].
  cbn [allele_loop String.get]. destruct (String.get i r) as [c|]; [|reflexivity].
  destruct (is_allele c); [|reflexivity]. apply (IH (i + 2)%nat).
Qed.

(** The allele loop fails exactly on a character other than ['0'] and ['1']
    at an even offset. *)
Lemma allele_loop_none (hp : string) (cnt : nat) (g alt_i : float) :
  String.length hp = (2 * cnt - 1)%nat -> (1 <= cnt)%nat ->
  allele_loop hp 0 cnt g alt_i = None <-> forallb is_allele (even_chars hp) = false.
Proof.
  revert cnt g alt_i. induction hp as [|a|a b r IH] using string_ind2;
    intros cnt g alt_i Hlen Hcnt.
  - cbn [String.length] in Hlen. lia.
  - assert (cnt = 1%nat) as -> by (cbn [String.length] in Hlen; lia).
    cbn [allele_loop String.get even_chars forallb]. rewrite andb_true_r.
    destruct (is_allele a); split; congruence.
  - destruct cnt as [|cnt]; [lia|].
    cbn [allele_loop String.get even_chars forallb]. rewrite andb_false_iff.
    destruct (is_allele a).
    + change (0 + 2)%nat with 2%nat. rewrite allele_loop_shift, IH.
      * split; [auto | intros [H|H]; [discriminate | exact H]].
      * cbn [String.length] in Hlen. lia.
      * cbn [String.length] in Hlen. destruct cnt; [cbn [String.length] in Hlen; lia | lia].
    + split; [auto | reflexivity].
Qed.

Lemma ones_step (a b : ascii) (r : string) :
  ones (String a (String b r)) = (if Ascii.eqb "1"%char a then 1 else 0) + ones r.
Proof.
  unfold ones. cbn [even_chars List.filter].
  destruct (Ascii.eqb "1"%char a); cbn [List.length]; lia.
Qed.

Lemma ones_bounds (hp : string) : 0 <= ones hp <= Z.of_nat (String.length hp + 1) / 2.
Proof.
  induction hp as [|a|a b r IH] using string_ind2.
  - split; vm_compute; discriminate.
  - unfold ones. cbn [even_chars List.filter].
    change (Z.of_nat (String.length (String a EmptyString) + 1) / 2) with 1.
    destruct (Ascii.eqb "1"%char a); cbn [List.length]; lia.
  - rewrite ones_step. cbn [String.length].
    replace (Z.of_nat (S (S (String.length r)) + 1)) with (Z.of_nat (String.length r + 1) + 1 * 2) by lia.
    rewrite Z.div_add by lia. destruct (Ascii.eqb "1"%char a); lia.
Qed.

(** With alleles ['0'] and ['1'] only, the loop adds the number of ['1'] to
    the dosage. *)
Lemma allele_loop_some (hp : string) (cnt : nat) (k : Z) (alt_i : float) :
  String.length hp = (2 * cnt - 1)%nat -> (1 <= cnt)%nat ->
  0 <= k -> k + Z.of_nat cnt < 2 ^ 53 ->
  forallb is_allele (even_chars hp) = true ->
  exists alt_i', allele_loop hp 0 cnt (double_of_int k) alt_i
                 = Some (double_of_int (k + ones hp), alt_i').
Proof.
  revert cnt k alt_i. induction hp as [|a|a b r IH] using string_ind2;
    intros cnt k alt_i Hlen Hcnt Hk Hb Hall.
  - cbn [String.length] in Hlen. lia.
  - assert (cnt = 1%nat) as -> by (cbn [String.length] in Hlen; lia).
    cbn [even_chars forallb] in Hall. rewrite andb_true_r in Hall.
    cbn [allele_loop String.get]. rewrite Hall. eexists. f_equal. f_equal.
    apply is_allele_cases in Hall. destruct Hall as [-> | ->].
    + change (allele_value "0") with 0. rewrite double_add_exact by lia.
      reflexivity.
    + change (allele_value "1") with 1. rewrite double_add_exact by lia.
      reflexivity.
  - destruct cnt as [|cnt]; [lia|].
    cbn [even_chars forallb] in Hall. apply andb_true_iff in Hall as [Ha Hr].
    cbn [allele_loop String.get]. rewrite Ha.
    change (0 + 2)%nat with 2%nat. rewrite allele_loop_shift, ones_step.
    assert (Hlen' : String.length r = (2 * cnt - 1)%nat) by (cbn [String.length] in Hlen; lia).
    assert (Hcnt' : (1 <= cnt)%nat).
    { destruct cnt; [|lia]. cbn in Hlen. discriminate. }
    apply is_allele_cases in Ha. destruct Ha as [-> | ->].
    + change (allele_value "0") with 0. rewrite double_add_exact by lia.
      destruct (IH cnt (k + 0) (alt_i + double_of_int 0)%float) as [alt' H]; try lia; auto.
      exists alt'. rewrite H. change (Ascii.eqb "1" "0") with false. cbv iota.
      replace (k + (0 + ones r)) with (k + 0 + ones r) by lia. reflexivity.
    + change (allele_value "1") with 1. rewrite double_add_exact by lia.
      destruct (IH cnt (k + 1) (alt_i + double_of_int 1)%float) as [alt' H]; try lia; auto.
      exists alt'. rewrite H. change (Ascii.eqb "1" "1") with true. cbv iota.
      replace (k + (1 + ones r)) with (k + 1 + ones r) by lia. reflexivity.
Qed.

Lemma ploidy_of_length_some (n : nat) (ploidy : float) (stop : nat) :
  ploidy_of_length n = Some (ploidy, stop) ->
  supported_length n /\ n = (2 * (stop / 2 + 1) - 1)%nat /\
  ploidy = double_of_int (Z.of_nat (n + 1) / 2).
Proof.
  unfold supported_length.
  do 16 (destruct n as [|n]; [simpl; intros H; try discriminate;
                              injection H as <- <-; repeat split; auto |]).
  discriminate.
Qed.

Lemma ploidy_of_length_none (n : nat) :
  ploidy_of_length n = None <-> ~ supported_length n.
Proof.
  unfold supported_length.
  do 16 (destruct n as [|n]; [simpl; split; [try discriminate; intros _; lia | intros H; try reflexivity; exfalso; apply H; auto] |]).
  split; [intros _; lia | reflexivity].
Qed.

Lemma extract_missing (hp : string) (g0 alt_i : float) :
  String.get 0 hp = Some dot -> extract hp g0 alt_i = Missing.
Proof. intros H. unfold extract. rewrite H. reflexivity. Qed.

Lemma extract_present (hp : string) (g0 alt_i : float) :
  String.get 0 hp <> Some dot ->
  extract hp g0 alt_i =
  match ploidy_of_length (String.length hp) with
  | None => BadPloidy
  | Some (ploidy, stop) =>
      match allele_loop hp 0 (stop / 2 + 1) g0 alt_i with
      | None => BadAllele
      | Some (g, alt_i') => Dosage g alt_i' ploidy
      end
  end.
Proof.
  intros H. unfold extract. destruct (String.get 0 hp) as [c|]; [|reflexivity].
  destruct c as [[] [] [] [] [] [] [] []]; try reflexivity.
  exfalso. apply H. reflexivity.
Qed.

(** C7. A token that starts with the missing marker yields Missing whatever
    follows; a token of length 3, 7, 11 or 15 whose characters at even
    offsets are all ['0'] or ['1'] yields as dosage the number of ['1'] at
    even offsets, which lies between 0 and the ploidy (2, 4, 6 or 8, that is
    half the length plus one). *)
Theorem extract_dosage (hp : string) (alt_i : float) :
  (String.get 0 hp = Some dot -> forall g0, extract hp g0 alt_i = Missing) /\
  (supported_length (String.length hp) ->
   (forall i a, Nat.even i = true -> String.get i hp = Some a ->
                a = "0"%char \/ a = "1"%char) ->
   let ploidy := Z.of_nat (String.length hp + 1) / 2 in
   (ploidy = 2 \/ ploidy = 4 \/ ploidy = 6 \/ ploidy = 8) /\
   0 <= ones hp <= ploidy /\
   exists alt_i',
     extract hp 0%float alt_i
     = Dosage (double_of_int (ones hp)) alt_i' (double_of_int ploidy)).
Proof.
  split; [intros H g0; apply extract_missing; exact H|].
  intros Hlen Hall ploidy. split; [|split].
  - unfold ploidy. destruct Hlen as [-> | [-> | [-> | ->]]]; vm_compute; auto.
  - apply ones_bounds.
  - assert (Hb : forallb is_allele (even_chars hp) = true).
    { apply even_chars_get. intros i a Hev Ha. apply is_allele_cases. eauto. }
    assert (Hdot : String.get 0 hp <> Some dot).
    { intros Hd. destruct (Hall 0%nat dot eq_refl Hd); discriminate. }
    rewrite extract_present by exact Hdot.
    destruct (ploidy_of_length (String.length hp)) as [[pl stop]|] eqn:Ep.
    + apply ploidy_of_length_some in Ep as (_ & Hn & ->).
      destruct (allele_loop_some hp (stop / 2 + 1) 0 alt_i) as [alt' H]; auto; try lia.
      { assert ((stop / 2 + 1 <= String.length hp)%nat) by lia.
        assert (Z.of_nat (String.length hp) <= 15)
          by (destruct Hlen as [-> | [-> | [-> | ->]]]; lia).
        assert (2 ^ 4 < 2 ^ 53) by (apply Z.pow_lt_mono_r; lia).
        change (2 ^ 4) with 16 in *. lia. }
      change (double_of_int 0) with 0%float in H. rewrite H. eauto.
    + apply ploidy_of_length_none in Ep. contradiction.
Qed.

Lemma extract_dosage_witness :
  (exists alt_i', extract "0/1/1/1"%string 0%float 0%float
                  = Dosage (double_of_int 3) alt_i' (double_of_int 4))
  /\ extract "./1"%string 0%float 0%float = Missing.
Proof.
  destruct (extract_dosage "0/1/1/1"%string 0%float) as [_ H].
  destruct (extract_dosage "./1"%string 0%float) as [H' _].
  split; [|apply H'; reflexivity].
  destruct H as (_ & _ & alt' & H).
  - right; left; reflexivity.
  - intros i a Hev Ha.
    do 7 (destruct i as [|i]; [first [discriminate Hev | injection Ha as <-; auto]|]).
    destruct i; discriminate Ha.
  - exists alt'. exact H.
Defined.

(** Dosage extraction fails on exactly the tokens of [bad_token]. *)
Lemma extract_fatal_iff (hp : string) (g0 alt_i : float) :
  (extract hp g0 alt_i = BadPloidy <->
     String.get 0 hp <> Some dot /\ ~ supported_length (String.length hp)) /\
  (extract hp g0 alt_i = BadAllele <->
     String.get 0 hp <> Some dot /\ supported_length (String.length hp) /\
     exists i a, Nat.even i = true /\ String.get i hp = Some a /\ is_allele a = false).
Proof.
  assert (Hdec : String.get 0 hp = Some dot \/ String.get 0 hp <> Some dot).
  { destruct (String.get 0 hp) as [c|]; [|right; discriminate].
    destruct (Ascii.ascii_dec c dot) as [->|Hne]; [left; reflexivity|].
    right. intros H. injection H as ->. contradiction. }
  destruct Hdec as [Hd|Hd].
  { rewrite (extract_missing hp g0 alt_i Hd).
    split; (split; [discriminate | intros [H _]; contradiction]). }
  rewrite (extract_present hp g0 alt_i Hd).
  destruct (ploidy_of_length (String.length hp)) as [[pl stop]|] eqn:Ep.
  - pose proof Ep as Ep'. apply ploidy_of_length_some in Ep' as (Hs & Hn & _).
    assert (Hnone := allele_loop_none hp (stop / 2 + 1) g0 alt_i Hn ltac:(lia)).
    rewrite even_chars_bad in Hnone.
    destruct (allele_loop hp 0 (stop / 2 + 1) g0 alt_i) as [[g a']|].
    + split; (split; [discriminate|]).
      * intros [_ H]. contradiction.
      * intros (_ & _ & H). apply Hnone in H. discriminate.
    + split; (split; [try discriminate|]).
      * intros [_ H]. contradiction.
      * intros _. split; [exact Hd|]. split; [exact Hs|]. apply Hnone. reflexivity.
      * reflexivity.
  - apply ploidy_of_length_none in Ep. split; (split; [try discriminate|]).
    + auto.
    + reflexivity.
    + intros (_ & H & _). contradiction.
Qed.

Lemma extract_bad_token (hp : string) (g0 alt_i : float) :
  extract hp g0 alt_i = BadPloidy \/ extract hp g0 alt_i = BadAllele <-> bad_token hp.
Proof.
  destruct (extract_fatal_iff hp g0 alt_i) as [H1 H2]. unfold bad_token. split.
  - intros [H|H]; [apply H1 in H | apply H2 in H]; intuition.
  - intros [Hd [H|H]]; [left; apply H1; auto|].
    destruct (ploidy_of_length (String.length hp)) as [[pl stop]|] eqn:Ep.
    + apply ploidy_of_length_some in Ep as (Hs & _). right. apply H2. auto.
    + apply ploidy_of_length_none in Ep. left. apply H1. auto.
Qed.

Lemma gt_step_fatal (c : string) (p : Z) (a : line_acc) (f : string) :
  ((exists e, gt_step c p a f = inr e) <-> bad_token (gt_token f)) /\
  (forall e, gt_step c p a f = inr e -> e = UnsupportedPloidy \/ e = UnknownAllele c p).
Proof.
  unfold gt_step.
  rewrite <- (extract_bad_token (gt_token f) (nth (la_ind a) (la_geno a) 0%float) (la_alt a)).
  destruct (extract _ _ _); split.
  - split; [intros [e H]; discriminate | intros [H|H]; discriminate].
  - discriminate.
  - split; [intros [e H]; discriminate | intros [H|H]; discriminate].
  - discriminate.
  - split; eauto.
  - intros e H. injection H as <-. auto.
  - split; eauto.
  - intros e H. injection H as <-. auto.
Qed.

Lemma gt_loop_fatal (c : string) (p : Z) (fs : list string) (a : line_acc) :
  ((exists e, gt_loop c p a fs = inr e) <->
   Exists (fun f => bad_token (gt_token f)) fs) /\
  (forall e, gt_loop c p a fs = inr e -> e = UnsupportedPloidy \/ e = UnknownAllele c p).
Proof.
  revert a. induction fs as [|f fs IH]; intros a; cbn [gt_loop].
  - split; [|discriminate].
    split; [intros [e H]; discriminate | intros H; inversion H].
  - destruct (gt_step_fatal c p a f) as [Hs Hk].
    destruct (gt_step c p a f) as [a'|e'].
    + destruct (IH a') as [IH1 IH2]. split; [|exact IH2].
      rewrite IH1. split; [intros H; apply Exists_cons_tl; exact H|].
      intros H. inversion H as [? ? Hb|? ? Hb]; subst; [|exact Hb].
      apply Hs in Hb. destruct Hb as [e Hb]. discriminate.
    + split.
      * split; [intros _; apply Exists_cons_hd, Hs; eauto | eauto].
      * intros e H. injection H as <-. apply Hk. reflexivity.
Qed.

Section DriverFatal.
Variables (win step geno_n : nat) (mis maf r2 : float).

Local Abbreviation site_state' := (site_state win geno_n r2).
Local Abbreviation open_line' := (open_line win geno_n r2).
Local Abbreviation read_line' := (read_line win step geno_n mis maf r2).
Local Abbreviation read_lines' := (read_lines win step geno_n mis maf r2).

Lemma site_state_fatal (st : state) (ln : vcf_line) :
  ((exists st' e, site_state' st ln = inr (st', e)) <->
   Exists (fun f => bad_token (gt_token f)) (l_gts ln)) /\
  (forall st' e, site_state' st ln = inr (st', e) ->
     (e = UnsupportedPloidy \/ e = UnknownAllele (l_chr ln) (l_pos ln)) /\
     log st' = log (open_line' st ln)).
Proof.
  unfold site_state. fold (open_line' st ln).
  set (st1 := open_line' st ln).
  set (s := mkSNP _ _ _ _ _ _ _ _).
  set (a0 := mkLacc _ _ _ _ _ _).
  destruct (gt_loop_fatal (l_chr ln) (l_pos ln) (l_gts ln) a0) as [H1 H2].
  destruct (gt_loop (l_chr ln) (l_pos ln) a0 (l_gts ln)) as [a|e].
  - split; [|discriminate]. rewrite <- H1.
    split; [intros (st' & e & H); discriminate | intros [e H]; discriminate].
  - split.
    + rewrite <- H1. split; eauto.
    + intros st' e' H. injection H as <- <-. split; [apply H2; reflexivity | reflexivity].
Qed.

Lemma read_line_fatal (st : state) (ln : vcf_line) :
  ((exists st' e, read_line' st ln = inr (st', e)) <-> bad_line ln) /\
  (forall st' e, read_line' st ln = inr (st', e) ->
     (e = UnsupportedPloidy \/ e = UnknownAllele (l_chr ln) (l_pos ln)) /\
     log st' = log (open_line' st ln)).
Proof.
  unfold read_line, bad_line.
  destruct (l_listed ln); cbn [negb].
  - destruct (site_state_fatal st ln) as [H1 H2].
    destruct (site_state' st ln) as [[st1 a]|[st1 e]].
    + split.
      * rewrite <- H1. split.
        -- intros (st' & e & H).
           destruct (mis_fails _ _ _); [discriminate|].
           destruct (maf_fails _ _ _); discriminate.
        -- intros [_ (st' & e & H)]. discriminate.
      * intros st' e H. destruct (mis_fails _ _ _); [discriminate|].
        destruct (maf_fails _ _ _); discriminate.
    + split.
      * rewrite <- H1. split; [intros _; split; eauto | eauto].
      * intros st' e' H. injection H as <- <-. apply H2. reflexivity.
  - split; [|discriminate].
    split; [intros (st' & e & H); discriminate | intros [H _]; discriminate].
Qed.

Lemma read_lines_app (st : state) (pre post : list vcf_line) :
  read_lines' st (pre ++ post) =
  match read_lines' st pre with
  | inl st1 => read_lines' st1 post
  | inr e => inr e
  end.
Proof.
  revert st. induction pre as [|ln pre IH]; intros st; [reflexivity|].
  cbn [app read_lines]. destruct (read_line' st ln); [apply IH | reflexivity].
Qed.

Lemma read_lines_fatal (lines : list vcf_line) (st : state) :
  ((exists st' e, read_lines' st lines = inr (st', e)) <-> Exists bad_line lines) /\
  (forall st' e, read_lines' st lines = inr (st', e) -> e <> NoDataLine).
Proof.
  revert st. induction lines as [|ln lines IH]; intros st; cbn [read_lines].
  - split; [|discriminate].
    split; [intros (st' & e & H); discriminate | intros H; inversion H].
  - destruct (read_line_fatal st ln) as [H1 H2].
    destruct (read_line' st ln) as [st1|[st1 e1]].
    + destruct (IH st1) as [IH1 IH2]. split; [|exact IH2].
      rewrite IH1. split; [intros H; apply Exists_cons_tl; exact H|].
      intros H. inversion H as [? ? Hb|? ? Hb]; subst; [|exact Hb].
      apply H1 in Hb. destruct Hb as (st' & e & Hb). discriminate.
    + split.
      * split; [intros _; apply Exists_cons_hd, H1; eauto | eauto].
      * intros st' e H. injection H as <- <-.
        destruct (H2 st1 e1 eq_refl) as [[-> | ->] _]; discriminate.
Qed.

End DriverFatal.


(** ** The stream driver: claims C1 and C6 *)

Section DriverSteps.
Variables (win step geno_n : nat) (mis maf r2 : float).

Local Abbreviation site_state' := (site_state win geno_n r2).
Local Abbreviation open_line' := (open_line win geno_n r2).
Local Abbreviation read_line' := (read_line win step geno_n mis maf r2).
Local Abbreviation read_lines' := (read_lines win step geno_n mis maf r2).

(** A listed line that passes both filters is placed. *)
Lemma read_line_placed (st st1 : state) (ln : vcf_line) (a : line_acc) :
  l_listed ln = true -> site_state' st ln = inl (st1, a) ->
  mis_fails mis (la_mis a) (ind_n st1) = false ->
  maf_fails maf (la_alt a) (la_hapn a) = false ->
  read_line' st ln = inl (placed win step r2 st1).
Proof.
  intros Hl Hs Hmis Hmaf. unfold read_line.
  rewrite Hl, Hs, Hmis, Hmaf. reflexivity.
Qed.
End DriverSteps.

(** Evaluate the placement of a site in a concrete state. *)
Ltac eval_placed :=
  lazymatch goal with
  | |- context [placed ?w ?s ?r ?st] =>
      let x := fresh "st" in
      set (x := placed w s r st); vm_compute in x; subst x
  end.

(** Rewrite the first pending [read_line] of a concrete run, for a line that
    passes the filters by [Hmis] and [Hmaf]. *)
Ltac place_line Hmis Hmaf :=
  lazymatch goal with
  | |- context [read_line ?w ?s ?g ?mi ?ma ?r ?st ?l] =>
      erewrite (read_line_placed w s g mi ma r st _ l _);
      [|reflexivity|vm_compute; reflexivity|exact Hmis|exact Hmaf];
      eval_placed
  end.

(** C1, as stated, fails: the run of the scenario prints site 20, whose
    forward scan only meets site 30 ([estR2] is NaN there).  Here the
    minor-allele filter is disabled ([maf] is NaN, as [-maf nan] gives); with
    the default [maf] of 0.05 site 30 fails that filter and site 20 alone is
    printed. *)
Lemma scenario_keeps_20_counterexample :
  In ("1"%string, 20)
     (printed (final_log (readVcf 3 1 30 mis_06 nan r2_01 (fresh 3 30) scenario))) /\
  printed (final_log (readVcf 3 1 30 mis_06 nan r2_01 (fresh 3 30) scenario))
  <> [("1"%string, 30)] /\
  printed (final_log (readVcf 3 1 30 mis_06 maf_005 r2_01 (fresh 3 30) scenario))
  = [("1"%string, 20)].
Proof.
  split; [|split].
  - vm_compute. auto.
  - vm_compute. discriminate.
  - vm_compute. reflexivity.
Qed.

(** C1, amended. With window 3, step 1 and threshold 0.1, whenever the three
    sites of the scenario pass both pre-filters, the sites printed over the
    whole run, end-of-stream flush included, are exactly 20 and 30, in that
    order: site 10 is rejected, sites 20 and 30 are kept. *)
Theorem scenario_kept_set (mis maf : float) :
  mis_fails mis 0%float 3 = false ->
  maf_fails maf 3%float 6%float = false ->
  maf_fails maf 0%float 6%float = false ->
  printed (final_log (readVcf 3 1 30 mis maf r2_01 (fresh 3 30) scenario))
  = [("1"%string, 20); ("1"%string, 30)].
Proof.
  intros Hmis Hmaf Hmaf0.
  unfold readVcf, scenario. cbn [read_lines].
  place_line Hmis Hmaf. place_line Hmis Hmaf. place_line Hmis Hmaf0.
  vm_compute. reflexivity.
Qed.

Lemma scenario_kept_set_witness :
  printed (final_log (readVcf 3 1 30 mis_06 nan r2_01 (fresh 3 30) scenario))
  = [("1"%string, 20); ("1"%string, 30)].
Proof.
  apply (scenario_kept_set mis_06 nan); vm_compute; reflexivity.
Defined.


(** *** Counters *)

Lemma evals_app (l1 l2 : list event) : evals (l1 ++ l2) = (evals l1 + evals l2)%nat.
Proof. unfold evals. rewrite List.filter_app, List.length_app. reflexivity. Qed.

Lemma emit_counters (st : state) :
  win_n (emit st) = win_n st /\ win_i (emit st) = win_i st /\
  step_i (emit st) = step_i st /\ ind_n (emit st) = ind_n st /\
  evals (log (emit st)) = evals (log st).
Proof.
  unfold emit. destruct (ok _ =? 1); cbn [win_n win_i step_i ind_n log]; repeat split.
  rewrite evals_app. cbn. lia.
Qed.

Lemma placed_counters (win step : nat) (r2 : float) (st : state) :
  let st' := placed win step r2 st in
  win_n st' = (if (win_n st <? win - 1)%nat then S (win_n st) else win_n st) /\
  win_i st' = (if (S (win_i st) =? win)%nat then O else S (win_i st)) /\
  step_i st' = S (if trigger win step st then O else step_i st) /\
  ind_n st' = ind_n st /\
  evals (log st') = (evals (log st) + (if trigger win step st then 1 else 0))%nat.
Proof.
  unfold placed, move_on, evaluate_if_due.
  set (st1 := if trigger win step st then _ else st).
  assert (H1 : win_n st1 = win_n st /\ win_i st1 = win_i st /\
               step_i st1 = (if trigger win step st then O else step_i st) /\
               ind_n st1 = ind_n st /\
               evals (log st1) = (evals (log st) + (if trigger win step st then 1 else 0))%nat).
  { subst st1. unfold call_estLD.
    destruct (trigger win step st); cbn [win_n win_i step_i ind_n log]; repeat split; try lia.
    rewrite evals_app. reflexivity. }
  destruct H1 as (E1 & E2 & E3 & E4 & E5).
  set (st2 := advance win _).
  assert (H2 : win_n st2 = (if (win_n st <? win - 1)%nat then S (win_n st) else win_n st) /\
               win_i st2 = (if (S (win_i st) =? win)%nat then O else S (win_i st)) /\
               step_i st2 = S (if trigger win step st then O else step_i st) /\
               ind_n st2 = ind_n st /\ log st2 = log st1).
  { subst st2. unfold advance. cbn [win_n win_i step_i ind_n log].
    rewrite E1, E2, E3, E4. repeat split. }
  destruct H2 as (F1 & F2 & F3 & F4 & F5).
  cbv zeta. destruct (win_n st2 =? win - 1)%nat.
  - destruct (emit_counters st2) as (G1 & G2 & G3 & G4 & G5).
    rewrite G1, G2, G3, G4, G5, F1, F2, F3, F4, F5, E5. repeat split.
  - rewrite F1, F2, F3, F4, F5, E5. repeat split.
Qed.

Section StepEqualsWindow.
Variables (win geno_n : nat) (mis maf r2 : float).
Hypothesis win_pos : (1 <= win)%nat.

Local Abbreviation site_state' := (site_state win geno_n r2).
Local Abbreviation open_line' := (open_line win geno_n r2).
Local Abbreviation read_line' := (read_line win win geno_n mis maf r2).
Local Abbreviation read_lines' := (read_lines win win geno_n mis maf r2).

Local Abbreviation in_step := (in_step win).

Lemma in_step_open (st : state) (ln : vcf_line) :
  in_step st -> in_step (open_line' st ln).
Proof.
  unfold in_step, open_line. intros H.
  destruct (_ && _); cbn; [lia | exact H].
Qed.

Lemma site_state_counters (st st1 : state) (ln : vcf_line) (a : line_acc) :
  site_state' st ln = inl (st1, a) ->
  win_n st1 = win_n (open_line' st ln) /\ win_i st1 = win_i (open_line' st ln) /\
  step_i st1 = step_i (open_line' st ln) /\ log st1 = log (open_line' st ln).
Proof.
  unfold site_state. fold (open_line' st ln).
  destruct (gt_loop _ _ _ _); [|discriminate].
  intros H. injection H as <- _.
  destruct (ind_n _ =? 0)%nat; cbn; repeat split.
Qed.

Lemma trigger_last_slot (st : state) :
  in_step st -> trigger win win st = true <-> win_i st = (win - 1)%nat.
Proof.
  unfold in_step, trigger. intros [H1 H2].
  rewrite orb_true_iff, !andb_true_iff, !Nat.eqb_eq, Nat.leb_le. lia.
Qed.

Lemma in_step_placed (st : state) : in_step st -> in_step (placed win win r2 st).
Proof.
  intros H. pose proof (trigger_last_slot st H) as Ht.
  destruct (placed_counters win win r2 st) as (_ & E2 & E3 & _).
  destruct H as [H1 H2]. unfold in_step. rewrite E2, E3.
  destruct (Nat.eqb_spec (S (win_i st)) win) as [E|E].
  - destruct (trigger win win st); lia.
  - destruct (trigger win win st) eqn:T; [lia|].
    assert (win_i st <> (win - 1)%nat) by lia. lia.
Qed.

Lemma in_step_read_line (st st' : state) (ln : vcf_line) :
  in_step st -> read_line' st ln = inl st' -> in_step st'.
Proof.
  intros H. unfold read_line. destruct (l_listed ln); cbn [negb].
  - destruct (site_state' st ln) as [[st1 a]|] eqn:E; [|discriminate].
    apply site_state_counters in E as (E1 & E2 & E3 & _).
    assert (H1 : in_step st1).
    { pose proof (in_step_open st ln H) as [? ?]. unfold in_step. lia. }
    destruct (mis_fails _ _ _); [intros [= <-]; exact H1|].
    destruct (maf_fails _ _ _); [intros [= <-]; exact H1|].
    intros [= <-]. apply in_step_placed. exact H1.
  - intros [= <-]. exact H.
Qed.

Lemma in_step_read_lines (lines : list vcf_line) (st st' : state) :
  in_step st -> read_lines' st lines = inl st' -> in_step st'.
Proof.
  revert st. induction lines as [|ln lines IH]; intros st H; cbn [read_lines].
  - intros [= <-]. exact H.
  - destruct (read_line' st ln) as [st1|] eqn:E; [|discriminate].
    apply IH. eapply in_step_read_line; eauto.
Qed.

End StepEqualsWindow.


(** ** The missing-data guard: claim C10 *)

Lemma is_missing_iff (f : string) :
  is_missing f = true <-> String.get 0 (gt_token f) = Some dot.
Proof.
  unfold is_missing. destruct (String.get 0 (gt_token f)) as [c|].
  - rewrite Ascii.eqb_eq. split; [intros ->; reflexivity | intros [= ->]; reflexivity].
  - split; discriminate.
Qed.

Lemma n_missing_cons (f : string) (fs : list string) :
  n_missing (f :: fs) = (if is_missing f then 1 else 0) + n_missing fs.
Proof.
  unfold n_missing. cbn [List.filter]. destruct (is_missing f); cbn [List.length]; lia.
Qed.

Lemma n_missing_bounds (fs : list string) :
  0 <= n_missing fs <= Z.of_nat (length fs).
Proof.
  induction fs as [|f fs IH]; [unfold n_missing; cbn; lia|].
  rewrite n_missing_cons. cbn [List.length]. destruct (is_missing f); lia.
Qed.

Lemma n_missing_all (fs : list string) :
  Forall (fun f => String.get 0 (gt_token f) = Some dot) fs ->
  n_missing fs = Z.of_nat (length fs).
Proof.
  induction 1 as [|f fs Hf _ IH]; [reflexivity|].
  rewrite n_missing_cons, IH. apply is_missing_iff in Hf. rewrite Hf.
  cbn [List.length]. lia.
Qed.

(** What a successful [gt_step] does to the sums. *)
Lemma gt_step_sums (c : string) (p : Z) (a a' : line_acc) (f : string) :
  gt_step c p a f = inl a' ->
  la_ind a' = S (la_ind a) /\
  (if is_missing f
   then la_mis a' = (la_mis a + 1)%float /\ la_hapn a' = la_hapn a
   else la_mis a' = la_mis a /\
        supported_length (String.length (gt_token f)) /\
        la_hapn a' = (la_hapn a
                      + double_of_int (Z.of_nat (String.length (gt_token f) + 1) / 2))%float).
Proof.
  unfold gt_step.
  set (g0 := nth (la_ind a) (la_geno a) 0%float).
  destruct (is_missing f) eqn:Em.
  - apply is_missing_iff in Em. rewrite (extract_missing _ g0 (la_alt a) Em).
    intros [= <-]. cbn. auto.
  - assert (Hd : String.get 0 (gt_token f) <> Some dot).
    { intros H. apply is_missing_iff in H. congruence. }
    rewrite (extract_present _ g0 (la_alt a) Hd).
    destruct (ploidy_of_length _) as [[pl stop]|] eqn:Ep; [|discriminate].
    apply ploidy_of_length_some in Ep as (Hs & _ & ->).
    destruct (allele_loop _ _ _ _ _) as [[g alt']|]; [|discriminate].
    intros [= <-]. cbn. auto.
Qed.

Lemma ploidy_sum_bounds (fs : list string) :
  Forall (fun f => is_missing f = false -> supported_length (String.length (gt_token f))) fs ->
  2 * (Z.of_nat (length fs) - n_missing fs) <= ploidy_sum fs
  <= 8 * (Z.of_nat (length fs) - n_missing fs).
Proof.
  induction 1 as [|f fs Hf _ IH]; [unfold n_missing; cbn; lia|].
  rewrite n_missing_cons. cbn [ploidy_sum List.length].
  destruct (is_missing f); [lia|].
  destruct (Hf eq_refl) as [-> | [-> | [-> | ->]]];
    match goal with |- context [Z.of_nat ?n / 2] =>
      let v := eval vm_compute in (Z.of_nat n / 2) in
      change (Z.of_nat n / 2) with v end; lia.
Qed.

(** The sums of a line that is read without error are the whole numbers
    [n_missing] and [ploidy_sum], held exactly. *)
Lemma gt_loop_sums (c : string) (p : Z) (fs : list string) (a a' : line_acc) (m h : Z) :
  gt_loop c p a fs = inl a' ->
  la_mis a = double_of_int m -> la_hapn a = double_of_int h ->
  0 <= m -> 0 <= h ->
  m + Z.of_nat (length fs) < 2 ^ 53 -> h + 8 * Z.of_nat (length fs) < 2 ^ 53 ->
  la_ind a' = (la_ind a + length fs)%nat /\
  la_mis a' = double_of_int (m + n_missing fs) /\
  la_hapn a' = double_of_int (h + ploidy_sum fs) /\
  Forall (fun f => is_missing f = false -> supported_length (String.length (gt_token f))) fs.
Proof.
  revert a m h. induction fs as [|f fs IH]; intros a m h Hl Hm Hh Hm0 Hh0 Bm Bh.
  - cbn in Hl. injection Hl as <-. unfold n_missing. cbn [ploidy_sum List.filter List.length].
    rewrite Nat.add_0_r, !Z.add_0_r. auto.
  - cbn [gt_loop] in Hl. destruct (gt_step c p a f) as [a1|] eqn:Es; [|discriminate].
    apply gt_step_sums in Es as (Ei & Es). cbn [List.length] in Bm, Bh.
    rewrite n_missing_cons. cbn [ploidy_sum List.length].
    destruct (is_missing f) eqn:Em.
    + destruct Es as [Es1 Es2].
      destruct (IH a1 (m + 1) h Hl) as (I1 & I2 & I3 & I4); try lia.
      { rewrite Es1, Hm. change 1%float with (double_of_int 1).
        apply double_add_exact; lia. }
      { congruence. }
      repeat split.
      * lia.
      * rewrite I2. f_equal. lia.
      * rewrite I3. f_equal.
      * constructor; [congruence | exact I4].
    + destruct Es as (Es1 & Hs & Es2).
      set (P := Z.of_nat (String.length (gt_token f) + 1) / 2) in *.
      assert (HP : 2 <= P <= 8).
      { subst P. destruct Hs as [-> | [-> | [-> | ->]]]; vm_compute; split; discriminate. }
      destruct (IH a1 m (h + P) Hl) as (I1 & I2 & I3 & I4); try lia.
      { congruence. }
      { rewrite Es2, Hh. apply double_add_exact; lia. }
      repeat split.
      * lia.
      * rewrite I2. f_equal.
      * rewrite I3. f_equal. lia.
      * constructor; [intros _; exact Hs | exact I4].
Qed.

Section MissingGuard.
Variables (win step geno_n : nat) (maf r2 : float).

Lemma site_state_sums (st st1 : state) (ln : vcf_line) (a : line_acc) :
  site_state win geno_n r2 st ln = inl (st1, a) ->
  9 * Z.of_nat (length (l_gts ln)) < 2 ^ 53 ->
  la_ind a = length (l_gts ln) /\
  la_mis a = double_of_int (n_missing (l_gts ln)) /\
  la_hapn a = double_of_int (ploidy_sum (l_gts ln)) /\
  Forall (fun f => is_missing f = false -> supported_length (String.length (gt_token f)))
         (l_gts ln).
Proof.
  unfold site_state. intros H B.
  destruct (gt_loop _ _ _ _) as [a'|] eqn:El; [|discriminate].
  injection H as _ <-.
  apply (gt_loop_sums _ _ _ _ _ 0 0) in El; try reflexivity; try lia.
  exact El.
Qed.

(** C10. A line all of whose individuals are missing is tombstoned by the
    missing-data branch whatever the threshold [mis], through the guard
    [mis_i == ind_n]; and whenever a line gets past that branch the
    denominator [hap_i] of the minor-allele test is not zero.  (The line has
    [ind_n] genotype columns, as every data row of a VCF file has.) *)
Theorem all_missing_dropped (mis : float) (st st1 : state) (ln : vcf_line)
    (a : line_acc) :
  l_listed ln = true ->
  site_state win geno_n r2 st ln = inl (st1, a) ->
  ind_n st1 = length (l_gts ln) ->
  9 * Z.of_nat (length (l_gts ln)) < 2 ^ 53 ->
  (Forall (fun f => String.get 0 (gt_token f) = Some dot) (l_gts ln) ->
   (la_mis a =? double_of_int (Z.of_nat (ind_n st1)))%float = true /\
   mis_fails mis (la_mis a) (ind_n st1) = true /\
   read_line win step geno_n mis maf r2 st ln = inl (tombstone st1)) /\
  (mis_fails mis (la_mis a) (ind_n st1) = false ->
   (la_hapn a =? 0)%float = false).
Proof.
  intros Hl Hs Hn B.
  destruct (site_state_sums st st1 ln a Hs B) as (Hi & Hm & Hh & Hsup).
  pose proof (n_missing_bounds (l_gts ln)) as Bm.
  pose proof (ploidy_sum_bounds (l_gts ln) Hsup) as Bp.
  split.
  - intros Hall. apply n_missing_all in Hall.
    assert (E : (la_mis a =? double_of_int (Z.of_nat (ind_n st1)))%float = true).
    { rewrite Hm, Hn, Hall. apply double_eqb_refl. lia. }
    assert (F : mis_fails mis (la_mis a) (ind_n st1) = true).
    { unfold mis_fails. rewrite E. apply orb_true_r. }
    split; [exact E|]. split; [exact F|].
    unfold read_line. rewrite Hl, Hs, F. reflexivity.
  - unfold mis_fails. intros F. apply orb_false_iff in F as [_ F].
    rewrite Hm, Hn in F.
    assert (Hne : n_missing (l_gts ln) <> Z.of_nat (length (l_gts ln))).
    { intros E. rewrite E, double_eqb_refl in F by lia. discriminate. }
    rewrite Hh. apply double_pos_nonzero. lia.
Qed.
End MissingGuard.

Lemma all_missing_dropped_witness :
  exists st1,
    read_line 3 1 30 0%float maf_005 r2_01 (start (fresh 3 30))
              (sample_line "1" 10 ["./."; "./."; "./."]%string)
    = inl (tombstone st1).
Proof.
  destruct (site_state 3 30 r2_01 (start (fresh 3 30))
              (sample_line "1" 10 ["./."; "./."; "./."]%string)) as [[st1 a]|] eqn:E.
  - exists st1.
    refine (proj2 (proj2 (proj1 (all_missing_dropped 3 1 30 maf_005 r2_01 0%float
             (start (fresh 3 30)) st1
             (sample_line "1" 10 ["./."; "./."; "./."]%string) a eq_refl E _ _) _))).
    + vm_compute in E. injection E as <- <-. reflexivity.
    + vm_compute. reflexivity.
    + repeat constructor.
  - vm_compute in E. discriminate E.
Defined.

(** ** The correlation estimator: claim C5 *)

(** *** Sums of whole numbers *)

Lemma zsum_cons (f : Z * Z -> Z) (p : Z * Z) (l : list (Z * Z)) :
  zsum f (p :: l) = f p + zsum f l.
Proof. reflexivity. Qed.

Lemma count_cons (p : Z * Z) (l : list (Z * Z)) : count (p :: l) = 1 + count l.
Proof. unfold count. cbn [List.length]. lia. Qed.

Lemma count_nonneg (l : list (Z * Z)) : 0 <= count l.
Proof. unfold count. lia. Qed.

(** The sum of the squared distances to [c]. *)
Lemma zsum_dist (f : Z * Z -> Z) (c : Z) (l : list (Z * Z)) :
  zsum (fun p => (f p - c) * (f p - c)) l
  = zsum (fun p => f p * f p) l - 2 * c * zsum f l + count l * c * c.
Proof.
  induction l as [|p l IH]; [unfold count; cbn; lia|].
  rewrite !zsum_cons, count_cons, IH. ring.
Qed.

Lemma zsum_dist_nonneg (f : Z * Z -> Z) (c : Z) (l : list (Z * Z)) :
  0 <= zsum (fun p => (f p - c) * (f p - c)) l.
Proof.
  induction l as [|p l IH]; [cbn; lia|].
  rewrite zsum_cons. pose proof (Z.square_nonneg (f p - c)). lia.
Qed.

Lemma zsum_dist_zero (f : Z * Z -> Z) (c : Z) (l : list (Z * Z)) :
  zsum (fun p => (f p - c) * (f p - c)) l = 0 -> Forall (fun p => f p = c) l.
Proof.
  induction l as [|p l IH]; intros H; [constructor|].
  rewrite zsum_cons in H.
  pose proof (Z.square_nonneg (f p - c)).
  pose proof (zsum_dist_nonneg f c l).
  constructor; [nia | apply IH; lia].
Qed.

Lemma zvar_cons (f : Z * Z -> Z) (p : Z * Z) (l : list (Z * Z)) :
  zvar f (p :: l) = zvar f l + zsum (fun q => (f q - f p) * (f q - f p)) l.
Proof.
  unfold zvar. rewrite zsum_dist, !zsum_cons, count_cons. ring.
Qed.

(** Cauchy-Schwarz for whole numbers. *)
Lemma zvar_nonneg (f : Z * Z -> Z) (l : list (Z * Z)) : 0 <= zvar f l.
Proof.
  induction l as [|p l IH]; [unfold zvar, count; cbn; lia|].
  rewrite zvar_cons. pose proof (zsum_dist_nonneg f (f p) l). lia.
Qed.

Lemma zvar_zero_const (f : Z * Z -> Z) (l : list (Z * Z)) :
  zvar f l = 0 -> exists c, Forall (fun p => f p = c) l.
Proof.
  destruct l as [|p l]; [exists 0; constructor|].
  rewrite zvar_cons. intros H.
  pose proof (zvar_nonneg f l). pose proof (zsum_dist_nonneg f (f p) l).
  exists (f p). constructor; [reflexivity|].
  apply zsum_dist_zero. lia.
Qed.

Lemma zsum_const (f g : Z * Z -> Z) (c : Z) (l : list (Z * Z)) :
  Forall (fun p => f p = c) l ->
  zsum f l = count l * c /\
  zsum (fun p => f p * g p) l = c * zsum g l /\
  zsum (fun p => g p * f p) l = c * zsum g l.
Proof.
  induction 1 as [|p l Hp _ IH]; [unfold count; cbn; lia|].
  rewrite !zsum_cons, count_cons. destruct IH as (-> & -> & ->). rewrite Hp.
  repeat split; ring.
Qed.

(** When either coordinate has no variance the numerator vanishes too. *)
Lemma pearson_degenerate (l : list (Z * Z)) :
  pearson_den_sq l <= 0 ->
  (zvar fst l = 0 \/ zvar snd l = 0) /\ pearson_num l = 0.
Proof.
  unfold pearson_den_sq. intros H.
  pose proof (zvar_nonneg fst l). pose proof (zvar_nonneg snd l).
  assert (Hz : zvar fst l = 0 \/ zvar snd l = 0) by nia.
  split; [exact Hz|]. unfold pearson_num.
  destruct Hz as [Hz|Hz]; apply zvar_zero_const in Hz as [c Hc].
  - destruct (zsum_const fst snd c l Hc) as (-> & -> & _). ring.
  - destruct (zsum_const snd fst c l Hc) as (-> & _ & ->). ring.
Qed.

Lemma zsum_bounds (f : Z * Z -> Z) (b : Z) (l : list (Z * Z)) :
  Forall (fun p => 0 <= f p <= b) l -> 0 <= zsum f l <= b * count l.
Proof.
  induction 1 as [|p l Hp _ IH]; [unfold count; cbn; lia|].
  rewrite zsum_cons, count_cons. lia.
Qed.

(** *** The sums of [estR2] on dosage vectors *)

Lemma r2_fold_shift (x y : float) (g1 g2 : list float) (n s : nat) (a : r2_acc) :
  fold_left (r2_step (x :: g1) (y :: g2)) (seq (S s) n) a
  = fold_left (r2_step g1 g2) (seq s n) a.
Proof.
  revert s a. induction n as [|n IH]; intros s a; [reflexivity|].
  cbn [seq fold_left]. rewrite IH. reflexivity.
Qed.

Lemma pow_23_53 : 64 * (2 ^ 23 * 2 ^ 23) < 2 ^ 53.
Proof. reflexivity. Qed.

(** On dosage vectors of at most [2^23] individuals the loop of [estR2]
    holds the whole-number sums over the jointly non-missing individuals,
    exactly. *)
Lemma r2_fold_exact (v1 v2 : list (option Z)) (pad1 pad2 : list float)
    (N S1 S2 S12 Q1 Q2 b : Z) :
  length v1 = length v2 ->
  Forall valid_dosage v1 -> Forall valid_dosage v2 ->
  0 <= b -> b + Z.of_nat (length v1) <= 2 ^ 23 ->
  0 <= S1 <= 8 * b -> 0 <= S2 <= 8 * b -> 0 <= S12 <= 64 * b ->
  0 <= Q1 <= 64 * b -> 0 <= Q2 <= 64 * b ->
  fold_left (r2_step (map encode v1 ++ pad1) (map encode v2 ++ pad2))
            (seq 0 (length v1))
            (mkAcc N (double_of_int S1) (double_of_int S2) (double_of_int S12)
                   (double_of_int Q1) (double_of_int Q2))
  = mkAcc (N - (Z.of_nat (length v1) - count (joint v1 v2)))
          (double_of_int (S1 + zsum fst (joint v1 v2)))
          (double_of_int (S2 + zsum snd (joint v1 v2)))
          (double_of_int (S12 + zsum (fun p => fst p * snd p) (joint v1 v2)))
          (double_of_int (Q1 + zsum (fun p => fst p * fst p) (joint v1 v2)))
          (double_of_int (Q2 + zsum (fun p => snd p * snd p) (joint v1 v2))).
Proof.
  pose proof pow_23_53 as P.
  assert (P' : 2 ^ 23 = 8388608) by reflexivity.
  revert v2 N S1 S2 S12 Q1 Q2 b.
  induction v1 as [|d1 v1 IH]; intros v2 N S1 S2 S12 Q1 Q2 b Hlen Hv1 Hv2 Hb Hn B1 B2 B12 BQ1 BQ2.
  - destruct v2; [|discriminate]. unfold count. cbn.
    rewrite !Z.add_0_r, Z.sub_0_r. reflexivity.
  - destruct v2 as [|d2 v2]; [discriminate|].
    injection Hlen as Hlen. inversion Hv1 as [|? ? Hd1 Hv1']; subst.
    inversion Hv2 as [|? ? Hd2 Hv2']; subst.
    cbn [List.length] in Hn |- *. cbn [seq fold_left map app].
    rewrite r2_fold_shift.
    destruct d1 as [x|], d2 as [y|]; cbn [joint encode valid_dosage] in *.
    + unfold r2_step at 2. cbn [nth acc_n sum1 sum2 sum12 sqsum1 sqsum2].
      rewrite !double_not_missing by lia. cbn [orb].
      rewrite !double_mul_exact by nia.
      rewrite !double_add_exact by nia.
      rewrite (IH v2 N _ _ _ _ _ (b + 1)); try assumption; try nia.
      rewrite !zsum_cons, count_cons. cbn [fst snd]. f_equal; f_equal; lia.
    + unfold r2_step at 2. cbn [nth acc_n sum1 sum2 sum12 sqsum1 sqsum2].
      rewrite double_not_missing by lia.
      replace (missing =? missing)%float with true by reflexivity. cbn [orb].
      rewrite (IH v2 (N - 1) _ _ _ _ _ b); try assumption; try lia.
      f_equal. lia.
    + unfold r2_step at 2. cbn [nth acc_n sum1 sum2 sum12 sqsum1 sqsum2].
      replace (missing =? missing)%float with true by reflexivity. cbn [orb].
      rewrite (IH v2 (N - 1) _ _ _ _ _ b); try assumption; try lia.
      f_equal. lia.
    + unfold r2_step at 2. cbn [nth acc_n sum1 sum2 sum12 sqsum1 sqsum2].
      replace (missing =? missing)%float with true by reflexivity. cbn [orb].
      rewrite (IH v2 (N - 1) _ _ _ _ _ b); try assumption; try lia.
      f_equal. lia.
Qed.

Lemma joint_valid (v1 v2 : list (option Z)) :
  Forall valid_dosage v1 -> Forall valid_dosage v2 ->
  Forall (fun p => 0 <= fst p <= 8 /\ 0 <= snd p <= 8) (joint v1 v2) /\
  count (joint v1 v2) <= Z.of_nat (length v1).
Proof.
  intros H1. revert v2. induction H1 as [|d1 v1 Hd1 _ IH]; intros v2 H2.
  - split; [constructor | unfold count; cbn; lia].
  - destruct H2 as [|d2 v2 Hd2 H2]; [destruct d1; split; try constructor; unfold count; cbn; lia|].
    destruct (IH v2 H2) as [I1 I2]. cbn [List.length].
    destruct d1 as [x|], d2 as [y|]; cbn [joint];
      rewrite ?count_cons; (split; [|lia]); try exact I1.
    constructor; [cbn in *; lia | exact I1].
Qed.

Lemma zsum_mono_bound (f : Z * Z -> Z) (b : Z) (l : list (Z * Z)) :
  Forall (fun p => 0 <= fst p <= 8 /\ 0 <= snd p <= 8) l ->
  (forall p, 0 <= fst p <= 8 /\ 0 <= snd p <= 8 -> 0 <= f p <= b) ->
  0 <= zsum f l <= b * count l.
Proof.
  intros H Hf. apply zsum_bounds. eapply Forall_impl; [exact H|]. exact Hf.
Qed.

(** The value of [estR2] on a degenerate pair of dosage vectors. *)
Lemma estR2_degenerate (v1 v2 : list (option Z)) (pad1 pad2 : list float) :
  length v1 = length v2 -> Z.of_nat (length v1) <= 2 ^ 23 ->
  Forall valid_dosage v1 -> Forall valid_dosage v2 ->
  pearson_den_sq (joint v1 v2) <= 0 ->
  Prim2SF (estR2 (map encode v1 ++ pad1) (map encode v2 ++ pad2) (length v1)) = S754_nan.
Proof.
  intros Hlen Hn Hv1 Hv2 Hden.
  assert (P' : 2 ^ 23 = 8388608) by reflexivity.
  assert (P : 2 ^ 53 = 9007199254740992) by reflexivity.
  unfold estR2, r2_sums, r2_init.
  change 0%float with (double_of_int 0).
  rewrite (r2_fold_exact v1 v2 pad1 pad2 _ 0 0 0 0 0 0) by (auto; lia).
  destruct (joint_valid v1 v2 Hv1 Hv2) as [Hj Hc].
  destruct (pearson_degenerate _ Hden) as [Hz Hnum].
  set (L := joint v1 v2) in *.
  pose proof (count_nonneg L) as Hc0.
  pose proof (zsum_mono_bound fst 8 L Hj ltac:(intros; lia)) as B1.
  pose proof (zsum_mono_bound snd 8 L Hj ltac:(intros; lia)) as B2.
  pose proof (zsum_mono_bound (fun p => fst p * snd p) 64 L Hj ltac:(intros; nia)) as B12.
  pose proof (zsum_mono_bound (fun p => fst p * fst p) 64 L Hj ltac:(intros; nia)) as BQ1.
  pose proof (zsum_mono_bound (fun p => snd p * snd p) 64 L Hj ltac:(intros; nia)) as BQ2.
  unfold pearson_num in Hnum. unfold zvar in Hz.
  set (c := count L) in *. set (s1 := zsum fst L) in *. set (s2 := zsum snd L) in *.
  set (s12 := zsum (fun p => fst p * snd p) L) in *.
  set (q1 := zsum (fun p => fst p * fst p) L) in *.
  set (q2 := zsum (fun p => snd p * snd p) L) in *.
  assert (Hcc : c * c <= 8388608 * 8388608) by (apply Z.mul_le_mono_nonneg; lia).
  assert (M12 : 0 <= c * s12 <= 64 * (c * c)) by nia.
  assert (MQ1 : 0 <= c * q1 <= 64 * (c * c)) by nia.
  assert (MQ2 : 0 <= c * q2 <= 64 * (c * c)) by nia.
  assert (M1 : 0 <= s1 * s1 <= 64 * (c * c)) by nia.
  assert (M2 : 0 <= s2 * s2 <= 64 * (c * c)) by nia.
  assert (M3 : 0 <= s1 * s2 <= 64 * (c * c)) by nia.
  replace (Z.of_nat (length v1) - (Z.of_nat (length v1) - c)) with c by lia.
  rewrite !Z.add_0_l.
  unfold r2_finish. apply nan_square. apply zn_div_nan.
  - unfold r2_num. cbn [acc_n sum1 sum2 sum12].
    rewrite !double_mul_exact by lia.
    replace (c * s12) with (s1 * s2) by lia.
    rewrite double_sub_diag by lia. apply zn_zero.
  - unfold r2_den. apply zn_sqrt.
    unfold r2_var1, r2_var2. cbn [acc_n sum1 sum2 sqsum1 sqsum2].
    rewrite !double_mul_exact by lia.
    destruct Hz as [Hz|Hz].
    + apply zn_mul_l. replace (c * q1) with (s1 * s1) by lia.
      rewrite double_sub_diag by lia. apply zn_zero.
    + apply zn_mul_r. replace (c * q2) with (s2 * s2) by lia.
      rewrite double_sub_diag by lia. apply zn_zero.
Qed.

(** C5. For every pair of dosage vectors (dosages 0 to 8, at most [2^23]
    individuals, so that all sums are exact) whose Pearson denominator over
    the jointly non-missing individuals is zero or negative, [estR2] returns
    NaN; the comparison [estR2 > r2] is then false for every threshold, the
    pair does not stop a forward scan, and a slot whose other pairs do not
    conflict is Kept.  For any vectors at all, a negative argument of [sqrt]
    gives NaN as well. *)
Theorem degenerate_pair_is_nan (v1 v2 : list (option Z)) (pad1 pad2 : list float) :
  length v1 = length v2 -> Z.of_nat (length v1) <= 2 ^ 23 ->
  Forall valid_dosage v1 -> Forall valid_dosage v2 ->
  pearson_den_sq (joint v1 v2) <= 0 ->
  let n := length v1 in
  let g1 := map encode v1 ++ pad1 in
  let g2 := map encode v2 ++ pad2 in
  PrimFloat.is_nan (estR2 g1 g2 n) = true /\
  (forall r2, (r2 <? estR2 g1 g2 n)%float = false) /\
  (forall r2 si sj, geno si = g1 -> geno sj = g2 -> conflict n r2 si sj = false) /\
  (forall win r2 snps i j,
     (i < j < win)%nat -> tomb (snps !!! i) = false ->
     geno (snps !!! i) = g1 -> geno (snps !!! j) = g2 ->
     ok (snps !!! i) = Pending \/ ok (snps !!! i) = Kept ->
     (forall k, (i < k < win)%nat -> k <> j ->
                conflict n r2 (snps !!! i) (snps !!! k) = false) ->
     ok (estLD snps win n r2 !!! i) = Kept) /\
  (forall h1 h2 m,
     (r2_var1 (r2_sums h1 h2 m) * r2_var2 (r2_sums h1 h2 m) <? 0)%float = true ->
     PrimFloat.is_nan (estR2 h1 h2 m) = true).
Proof.
  intros Hlen Hn Hv1 Hv2 Hden n g1 g2.
  pose proof (estR2_degenerate v1 v2 pad1 pad2 Hlen Hn Hv1 Hv2 Hden) as Hnan.
  fold n g1 g2 in Hnan.
  assert (Hc : forall r2 si sj, geno si = g1 -> geno sj = g2 -> conflict n r2 si sj = false).
  { intros r2 si sj E1 E2. unfold conflict. rewrite E1, E2.
    rewrite (nan_not_above r2 _ Hnan). apply andb_false_r. }
  split; [apply nan_is_nan; exact Hnan|].
  split; [intros r2; apply nan_not_above; exact Hnan|].
  split; [exact Hc|]. split.
  - intros win r2 snps i j Hij Ht E1 E2 Hok Hrest.
    destruct (estLD_kept_iff win n r2 snps i) as (_ & Hk & _); [lia | exact Ht|].
    apply Hk. split; [|exact Hok].
    intros k Hk'. destruct (decide (k = j)) as [->|Hne].
    + apply Hc; assumption.
    + apply Hrest; assumption.
  - intros h1 h2 m Hneg. apply nan_is_nan. unfold estR2, r2_finish.
    apply nan_square, div_nan_r. unfold r2_den. apply sqrt_negative_nan. exact Hneg.
Qed.

Lemma degenerate_pair_is_nan_witness :
  PrimFloat.is_nan
    (estR2 (map encode [Some 2; Some 1; None; Some 0] ++ [])
           (map encode [Some 3; Some 3; Some 1; Some 3] ++ []) 4) = true.
Proof.
  refine (proj1 (degenerate_pair_is_nan [Some 2; Some 1; None; Some 0]
                   [Some 3; Some 3; Some 1; Some 3] [] [] eq_refl _ _ _ _)).
  - vm_compute. discriminate.
  - repeat constructor; cbn; lia.
  - repeat constructor; cbn; lia.
  - vm_compute. discriminate.
Defined.


(** ** What the decision for a slot depends on *)

(** The inner loop reads of a later slot only the chromosome field and, when
    the slot is occupied and on the chromosome of [si], the dosages. *)
Lemma scan_reads (l l' : list SNP_s) (m : nat) (r2 : float) (si : SNP_s) (j fuel : nat) :
  (forall k, (j <= k < j + fuel)%nat -> chr (l' !!! k) = chr (l !!! k)) ->
  (forall k, (j <= k < j + fuel)%nat -> tomb (l !!! k) = false ->
             chr (l !!! k) = chr si -> geno (l' !!! k) = geno (l !!! k)) ->
  scan l' m r2 si j fuel = scan l m r2 si j fuel.
Proof.
  revert j. induction fuel as [|fuel IH]; intros j Hc Hg; [reflexivity|].
  cbn [scan]. cbv zeta.
  assert (Hrec : scan l' m r2 si (S j) fuel = scan l m r2 si (S j) fuel).
  { apply IH; intros k Hk; [apply Hc | apply Hg]; lia. }
  unfold tomb. rewrite (Hc j) by lia. fold (tomb (l !!! j)).
  destruct (tomb (l !!! j)) eqn:Et; [exact Hrec|].
  destruct (String.eqb_spec (chr si) (chr (l !!! j))) as [E|E]; cbn [negb]; [|exact Hrec].
  rewrite (Hg j) by (lia || auto). rewrite Hrec. reflexivity.
Qed.

(** The decision [estLD] takes for slot [i] depends on the rest of the
    window only through the chromosome fields of the slots [i < k < win] and
    the dosages of those among them that are occupied and on the chromosome
    of slot [i].  Earlier slots, slots from [win] on, the dosages of empty
    slots and of slots on another chromosome, and every other field of the
    other slots can be changed without changing the result for slot [i]. *)
Theorem estLD_ignores_other_chromosomes (win ind_n : nat) (r2 : float)
    (snps snps' : list SNP_s) (i : nat) :
  snps' !!! i = snps !!! i ->
  (forall k, (i < k < win)%nat -> chr (snps' !!! k) = chr (snps !!! k)) ->
  (forall k, (i < k < win)%nat -> tomb (snps !!! k) = false ->
             chr (snps !!! k) = chr (snps !!! i) -> geno (snps' !!! k) = geno (snps !!! k)) ->
  estLD snps' win ind_n r2 !!! i = estLD snps win ind_n r2 !!! i.
Proof.
  intros Hi Hc Hg. rewrite !estLD_lookup.
  destruct (decide (i < win)%nat) as [Hlt|Hge]; [|exact Hi].
  unfold verdict. cbv zeta. rewrite Hi.
  rewrite (scan_reads snps snps' ind_n r2 (snps !!! i) (S i) (win - S i)); [reflexivity| |].
  - intros k Hk. apply Hc. lia.
  - intros k Hk. apply Hg. lia.
Qed.

Lemma estLD_ignores_other_chromosomes_witness :
  let w := [sample_site 10 (-1) [0; 1; 2];
            set_chr "2" (sample_site 20 (-1) [2; 1; 0]);
            sample_site 30 (-1) [0; 0; 1]] in
  let w' := [sample_site 10 (-1) [0; 1; 2];
             set_chr "2" (sample_site 25 1 [0; 1; 2]);
             sample_site 30 0 [0; 0; 1]] in
  estLD w' 3 3 r2_01 !!! 0%nat = estLD w 3 3 r2_01 !!! 0%nat.
Proof.
  intros w w'. apply (estLD_ignores_other_chromosomes 3 3 r2_01 w w' 0).
  - reflexivity.
  - intros k Hk. assert (Hk' : k = 1%nat \/ k = 2%nat) by lia.
    destruct Hk' as [-> | ->]; reflexivity.
  - intros k Hk _. assert (Hk' : k = 1%nat \/ k = 2%nat) by lia.
    destruct Hk' as [-> | ->]; [discriminate | reflexivity].
Defined.
(** ** Windows without conflicts *)

(** *** [estR2] against zeroed dosages *)

Lemma nth_replicate_zero (g i : nat) : nth i (replicate g 0%float) 0%float = 0%float.
Proof.
  revert i. induction g as [|g IH]; intros [|i]; cbn; auto.
Qed.

Lemma zero_not_missing : (0 =? missing)%float = false.
Proof. reflexivity. Qed.

Lemma r2_fold_zero_r (h : list float) (g : nat) (l : list nat) (a : r2_acc) :
  zero_or_nan (sum2 a) -> zero_or_nan (sqsum2 a) -> zero_or_nan (sum12 a) ->
  let a' := fold_left (r2_step h (replicate g 0%float)) l a in
  zero_or_nan (sum2 a') /\ zero_or_nan (sqsum2 a') /\ zero_or_nan (sum12 a').
Proof.
  revert a. induction l as [|i l IH]; intros a H2 HQ H12; [cbn; auto|].
  cbn [fold_left]. apply IH; unfold r2_step; rewrite nth_replicate_zero;
    destruct (_ || _); cbn [sum2 sqsum2 sum12]; auto.
  - apply zn_add; [exact H2 | apply zn_zero].
  - apply zn_add; [exact HQ | apply zn_mul_l, zn_zero].
  - apply zn_add; [exact H12 | apply zn_mul_r, zn_zero].
Qed.

Lemma r2_fold_zero_l (h : list float) (g : nat) (l : list nat) (a : r2_acc) :
  zero_or_nan (sum1 a) -> zero_or_nan (sqsum1 a) -> zero_or_nan (sum12 a) ->
  let a' := fold_left (r2_step (replicate g 0%float) h) l a in
  zero_or_nan (sum1 a') /\ zero_or_nan (sqsum1 a') /\ zero_or_nan (sum12 a').
Proof.
  revert a. induction l as [|i l IH]; intros a H1 HQ H12; [cbn; auto|].
  cbn [fold_left]. apply IH; unfold r2_step; rewrite nth_replicate_zero;
    destruct (_ || _); cbn [sum1 sqsum1 sum12]; auto.
  - apply zn_add; [exact H1 | apply zn_zero].
  - apply zn_add; [exact HQ | apply zn_mul_l, zn_zero].
  - apply zn_add; [exact H12 | apply zn_mul_l, zn_zero].
Qed.

(** Against zeroed dosages [estR2] is NaN, whatever the other vector. *)
Lemma estR2_zero_r (h : list float) (g n : nat) :
  Prim2SF (estR2 h (replicate g 0%float) n) = S754_nan.
Proof.
  unfold estR2, r2_sums.
  destruct (r2_fold_zero_r h g (seq 0 n) (r2_init n)) as (H2 & HQ & H12);
    try apply zn_zero.
  set (a := fold_left _ _ _) in *.
  unfold r2_finish. apply nan_square, zn_div_nan.
  - unfold r2_num. apply zn_sub; apply zn_mul_r; assumption.
  - unfold r2_den, r2_var2. apply zn_sqrt, zn_mul_r, zn_sub; apply zn_mul_r; assumption.
Qed.

Lemma estR2_zero_l (h : list float) (g n : nat) :
  Prim2SF (estR2 (replicate g 0%float) h n) = S754_nan.
Proof.
  unfold estR2, r2_sums.
  destruct (r2_fold_zero_l h g (seq 0 n) (r2_init n)) as (H1 & HQ & H12);
    try apply zn_zero.
  set (a := fold_left _ _ _) in *.
  unfold r2_finish. apply nan_square, zn_div_nan.
  - unfold r2_num. apply zn_sub; [apply zn_mul_r | apply zn_mul_l]; assumption.
  - unfold r2_den, r2_var1. apply zn_sqrt, zn_mul_l, zn_sub;
      [apply zn_mul_r | apply zn_mul_l]; assumption.
Qed.

Lemma estR2_no_individuals (g1 g2 : list float) : Prim2SF (estR2 g1 g2 0) = S754_nan.
Proof. reflexivity. Qed.

Section Benign.
Variables (geno_n : nat) (mis maf r2 : float) (n : nat).

Local Abbreviation benign' := (benign geno_n mis maf n).

Lemma conflict_none (s s' : SNP_s) : conflict 0 r2 s s' = false.
Proof.
  unfold conflict. rewrite (nan_not_above _ _ (estR2_no_individuals _ _)).
  apply andb_false_r.
Qed.

(** A quiet slot conflicts with nothing, in either order. *)
Lemma quiet_conflict (m : nat) (y s : SNP_s) :
  quiet geno_n y -> conflict m r2 y s = false /\ conflict m r2 s y = false.
Proof.
  unfold conflict. intros [Ht|Hz].
  - split; [|rewrite Ht; reflexivity].
    unfold tomb in *. destruct (chr y); [|discriminate].
    destruct (chr s); reflexivity.
  - rewrite Hz.
    rewrite (nan_not_above _ _ (estR2_zero_l _ _ _)),
            (nan_not_above _ _ (estR2_zero_r _ _ _)).
    split; apply andb_false_r.
Qed.

(** The site of a new line conflicts with no slot that holds an earlier
    one. *)
Lemma candidate_conflict (lines done rest : list vcf_line) (ln : vcf_line) (x s : SNP_s) :
  below_threshold geno_n mis maf r2 n lines -> lines = done ++ ln :: rest ->
  passes geno_n mis maf n ln = true -> chr x = l_chr ln -> geno x = dosages geno_n ln ->
  benign' done s ->
  conflict n r2 x s = false /\ conflict n r2 s x = false.
Proof.
  intros below El Hp Hc Hg [Hq | (l & Hin & Hpl & Hcl & Hgl)].
  - apply and_comm. apply quiet_conflict. exact Hq.
  - apply list_elem_of_In, list_elem_of_lookup in Hin as [i Hi].
    pose proof (lookup_lt_Some _ _ _ Hi) as Hlt.
    assert (H1 : lines !! i = Some l) by (rewrite El; apply lookup_app_l_Some; exact Hi).
    assert (H2 : lines !! length done = Some ln) by (rewrite El; apply list_lookup_middle; reflexivity).
    unfold conflict. rewrite Hg, Hgl. split.
    + destruct (String.eqb (chr x) (chr s)) eqn:E;
        [|rewrite andb_false_r; reflexivity].
      apply String.eqb_eq in E.
      rewrite (below (length done) i ln l); auto; [apply andb_false_r | lia | congruence].
    + destruct (String.eqb (chr s) (chr x)) eqn:E;
        [|rewrite andb_false_r; reflexivity].
      apply String.eqb_eq in E.
      rewrite (below i (length done) l ln); auto; [apply andb_false_r | lia | congruence].
Qed.

Lemma benign_blank (done : list vcf_line) : benign' done blank_SNP.
Proof. left. left. reflexivity. Qed.

Lemma benign_lookup (done : list vcf_line) (w : list SNP_s) (i : nat) :
  Forall (benign' done) w -> benign' done (w !!! i).
Proof.
  intros H. destruct (w !! i) as [s|] eqn:E.
  - rewrite (list_lookup_total_correct _ _ _ E).
    eapply Forall_lookup_1; eauto.
  - rewrite list_lookup_total_alt, E. apply benign_blank.
Qed.

Lemma benign_set_ok (done : list vcf_line) (v : Z) (s : SNP_s) :
  benign' done s -> benign' done (set_ok v s).
Proof. intros H. exact H. Qed.

Lemma benign_settle (done : list vcf_line) (s : SNP_s) :
  benign' done s -> benign' done (settle s).
Proof. unfold settle. destruct (tomb s); auto. Qed.

Lemma benign_kill (done : list vcf_line) (s : SNP_s) :
  benign' done s -> benign' done (kill s).
Proof. unfold kill. destruct (ok s =? 1); auto. Qed.

Lemma benign_more (done more : list vcf_line) (s : SNP_s) :
  benign' done s -> benign' (done ++ more) s.
Proof.
  intros [Hq | (l & Hin & H)]; [left; exact Hq | right].
  exists l. split; [apply in_or_app; left; exact Hin | exact H].
Qed.

Lemma calm_same_sites (m : nat) (w w' : list SNP_s) :
  same_sites w w' -> calm m r2 w -> calm m r2 w'.
Proof.
  intros [_ Hs] Hw i j Hij. specialize (Hw i j Hij). unfold conflict, tomb in *.
  destruct (Hs i) as [<- <-], (Hs j) as [<- <-]. exact Hw.
Qed.

Lemma calm_insert (m : nat) (w : list SNP_s) (c : nat) (y : SNP_s) :
  calm m r2 w ->
  (forall j, j <> c -> conflict m r2 y (w !!! j) = false /\
                       conflict m r2 (w !!! j) y = false) ->
  calm m r2 (<[c := y]> w).
Proof.
  intros Hw Hy i j Hij.
  destruct (decide (c < length w)%nat) as [Hc|Hc];
    [|rewrite list_insert_ge by lia; apply Hw; exact Hij].
  destruct (decide (i = c)) as [->|Hi].
  - rewrite list_lookup_total_insert_eq by exact Hc.
    rewrite list_lookup_total_insert_ne by auto. apply Hy. auto.
  - rewrite (list_lookup_total_insert_ne w c i) by auto.
    destruct (decide (j = c)) as [->|Hj].
    + rewrite list_lookup_total_insert_eq by exact Hc. apply Hy. exact Hi.
    + rewrite list_lookup_total_insert_ne by auto. apply Hw. exact Hij.
Qed.

Lemma calm_quiet (m : nat) (w : list SNP_s) : Forall (quiet geno_n) w -> calm m r2 w.
Proof.
  intros H i j _. refine (proj1 (quiet_conflict m (w !!! i) (w !!! j) _)).
  destruct (w !! i) as [s|] eqn:E.
  - rewrite (list_lookup_total_correct _ _ _ E). eapply Forall_lookup_1; eauto.
  - rewrite list_lookup_total_alt, E. left. reflexivity.
Qed.
End Benign.

(** *** [estLD] on a window without conflicts *)

Lemma set_ok_same (s : SNP_s) : set_ok (ok s) s = s.
Proof. destruct s. reflexivity. Qed.

Lemma settle_dead (s : SNP_s) : dead s -> settle s = s.
Proof.
  intros [H1 [H2|H2]]; unfold settle; [rewrite H2; reflexivity|].
  destruct (tomb s); [reflexivity|]. rewrite H2. cbn. rewrite <- H2. apply set_ok_same.
Qed.

Lemma settle_kept (s : SNP_s) : kept s -> settle s = s.
Proof.
  intros [H1 H2]. unfold settle. rewrite H2, H1. cbn. rewrite <- H1. apply set_ok_same.
Qed.

Lemma settle_pending (s : SNP_s) : pending s -> settle s = set_ok 1 s /\ kept (settle s).
Proof.
  intros [H1 H2]. unfold settle. rewrite H2, H1. cbn. split; [reflexivity|].
  split; [reflexivity | exact H2].
Qed.

Lemma estLD_settles (w : list SNP_s) (W m : nat) (r2 : float) :
  (forall i j, i <> j -> conflict m r2 (w !!! i) (w !!! j) = false) ->
  (forall i, (W <= i)%nat -> settle (w !!! i) = w !!! i) ->
  estLD w W m r2 = map settle w.
Proof.
  intros Hcalm Hrest. apply list_eq. intros i.
  destruct (decide (i < length w)%nat) as [Hi|Hi].
  - rewrite (list_lookup_lookup_total_lt (estLD w W m r2) i)
      by (rewrite estLD_length; exact Hi).
    rewrite estLD_lookup.
    assert (Hm : map settle w !! i = Some (settle (w !!! i))).
    { change (map settle w) with (settle <$> w).
      rewrite list_lookup_fmap, (list_lookup_lookup_total_lt w i Hi). reflexivity. }
    rewrite Hm. f_equal.
    destruct (decide (i < W)%nat) as [HW|HW]; [|symmetry; apply Hrest; lia].
    unfold verdict, settle. destruct (tomb (w !!! i)); [reflexivity|].
    assert (Hs : scan w m r2 (w !!! i) (S i) (W - S i) = W).
    { replace W with (S i + (W - S i))%nat at 2 by lia.
      apply scan_end. intros k Hk. apply Hcalm. lia. }
    rewrite Hs, Nat.eqb_refl. cbn [andb].
    destruct (_ || _); reflexivity.
  - rewrite !lookup_ge_None_2; [reflexivity | rewrite length_map; lia | rewrite estLD_length; lia].
Qed.

(** *** The window seen from the cursor *)

Lemma rot_cursor (c : nat) (w : list SNP_s) :
  (c < length w)%nat -> rot c w = w !!! c :: (drop (S c) w ++ take c w).
Proof.
  intros Hc. unfold rot.
  rewrite (drop_S w (w !!! c) c) by (apply list_lookup_lookup_total_lt; exact Hc).
  reflexivity.
Qed.

Lemma rot_insert (c : nat) (w : list SNP_s) (y : SNP_s) :
  (c < length w)%nat -> rot c (<[c := y]> w) = y :: (drop (S c) w ++ take c w).
Proof.
  intros Hc. rewrite rot_cursor by (rewrite length_insert; exact Hc).
  rewrite list_lookup_total_insert_eq by exact Hc.
  rewrite drop_insert_lt by lia. rewrite take_insert_ge by lia. reflexivity.
Qed.

Lemma rot_next (c : nat) (w : list SNP_s) :
  (c < length w)%nat ->
  rot (if (S c =? length w)%nat then O else S c) w
  = (drop (S c) w ++ take c w) ++ [w !!! c].
Proof.
  intros Hc. unfold rot.
  assert (Ht : take (S c) w = take c w ++ [w !!! c]).
  { apply take_S_r, list_lookup_lookup_total_lt. exact Hc. }
  destruct (Nat.eqb_spec (S c) (length w)) as [E|E].
  - rewrite (drop_ge w (S c)) by lia. cbn [app].
    rewrite <- Ht, (take_ge w (S c)) by lia. cbn. apply app_nil_r.
  - rewrite Ht, app_assoc. reflexivity.
Qed.

Lemma rot_map (f : SNP_s -> SNP_s) (c : nat) (w : list SNP_s) :
  rot c (map f w) = map f (rot c w).
Proof. unfold rot. rewrite map_app, skipn_map, firstn_map. reflexivity. Qed.

Lemma rot_length (c : nat) (w : list SNP_s) : length (rot c w) = length w.
Proof.
  unfold rot. rewrite length_app, length_drop, length_take. lia.
Qed.

Lemma rot_Forall (P : SNP_s -> Prop) (c : nat) (w : list SNP_s) :
  Forall P (rot c w) <-> Forall P w.
Proof.
  unfold rot. rewrite Forall_app. rewrite <- (take_drop c w) at 3.
  rewrite Forall_app. tauto.
Qed.

Lemma rot_0 (w : list SNP_s) : rot 0 w = w.
Proof. unfold rot. cbn. apply app_nil_r. Qed.

Lemma view_emit (st : state) (x : SNP_s) (t : list SNP_s) :
  (win_i st < length (snps st))%nat -> view st = x :: t ->
  view (emit st) = kill x :: t /\
  log (emit st) = log st ++ (if is_kept x then [Print x (ind_n st)] else []) /\
  length (snps (emit st)) = length (snps st) /\
  win_i (emit st) = win_i st /\ win_n (emit st) = win_n st /\
  step_i (emit st) = step_i st /\ ind_n (emit st) = ind_n st.
Proof.
  intros Hc Hv. unfold view in Hv. rewrite rot_cursor in Hv by exact Hc.
  injection Hv as Hx Ht. unfold emit, kill, is_kept. rewrite Hx.
  destruct (ok x =? 1); cbn [snps win_i win_n step_i ind_n log].
  - unfold view. cbn [snps win_i]. rewrite rot_insert by exact Hc.
    rewrite Ht, length_insert. auto 10.
  - unfold view. rewrite rot_cursor by exact Hc. rewrite Hx, Ht, app_nil_r. auto 10.
Qed.

Lemma view_advance (win : nat) (st : state) (x : SNP_s) (t : list SNP_s) :
  length (snps st) = win -> (win_i st < win)%nat -> view st = x :: t ->
  view (advance win st) = t ++ [x] /\
  (win_i (advance win st) < win)%nat /\
  snps (advance win st) = snps st /\ log (advance win st) = log st /\
  win_n (advance win st) = win_n st /\
  step_i (advance win st) = step_i st /\ ind_n (advance win st) = ind_n st.
Proof.
  intros Hl Hc Hv. unfold view in Hv. rewrite rot_cursor in Hv by lia.
  injection Hv as Hx Ht. unfold advance, view. cbn [snps win_i win_n step_i ind_n log].
  rewrite <- Hl at 1. rewrite rot_next by lia. rewrite Hx, Ht.
  split; [reflexivity|]. split; [|auto 10].
  destruct (Nat.eqb_spec (S (win_i st)) win); lia.
Qed.

Lemma prints_app (l1 l2 : list SNP_s) (n : nat) :
  prints (l1 ++ l2) n = prints l1 n ++ prints l2 n.
Proof. unfold prints. rewrite List.filter_app, map_app. reflexivity. Qed.

Lemma flush_steps (win k : nat) (st : state) :
  length (snps st) = win -> (win_i st < win)%nat -> (k <= win)%nat ->
  let st' := Nat.iter k (fun s => advance win (emit s)) st in
  view st' = drop k (view st) ++ map kill (take k (view st)) /\
  log st' = log st ++ prints (take k (view st)) (ind_n st) /\
  length (snps st') = win /\ (win_i st' < win)%nat /\ ind_n st' = ind_n st.
Proof.
  intros Hl Hc. cbv zeta. induction k as [|k IH]; intros Hk.
  - cbn [Nat.iter drop take map]. unfold prints. cbn. rewrite !app_nil_r. auto.
  - destruct IH as (Iv & Il & Ilen & Ic & In); [lia|].
    rewrite !Nat.iter_succ. set (sk := Nat.iter k _ st) in *.
    assert (HV : length (view st) = win) by (unfold view; rewrite rot_length; exact Hl).
    assert (Hx : view st !! k = Some (view st !!! k))
      by (apply list_lookup_lookup_total_lt; lia).
    rewrite (drop_S _ _ _ Hx) in Iv. cbn [app] in Iv.
    destruct (view_emit sk _ _ ltac:(lia) Iv) as (Ev & El & Elen & Ec & _ & _ & Ei).
    destruct (view_advance win (emit sk) _ _ ltac:(lia) ltac:(lia) Ev)
      as (Av & Ac & As & Al & _ & _ & Ai).
    rewrite Av, Al, El, Il, As, Elen, Ai, Ei, In.
    rewrite (take_S_r _ _ _ Hx), map_app, prints_app. cbn [map].
    rewrite <- !app_assoc. repeat split; auto.
    f_equal. f_equal. unfold prints. cbn [List.filter].
    destruct (is_kept (view st !!! k)); reflexivity.
Qed.

(** The flush loop tests every slot once, from the cursor on. *)
Lemma flush_view (win : nat) (st : state) :
  length (snps st) = win -> (win_i st < win)%nat ->
  view (flush win st) = map kill (view st) /\
  log (flush win st) = log st ++ prints (view st) (ind_n st) /\
  length (snps (flush win st)) = win /\ (win_i (flush win st) < win)%nat /\
  ind_n (flush win st) = ind_n st.
Proof.
  intros Hl Hc. destruct (flush_steps win win st Hl Hc) as (Hv & Hlog & H); [lia|].
  assert (HV : length (view st) = win) by (unfold view; rewrite rot_length; exact Hl).
  rewrite drop_ge, take_ge in Hv by lia. rewrite take_ge in Hlog by lia.
  unfold flush. auto.
Qed.

(** *** Printed sites *)

Lemma printed_app (l1 l2 : list event) : printed (l1 ++ l2) = printed l1 ++ printed l2.
Proof. unfold printed. apply flat_map_app. Qed.

Lemma printed_prints (l : list SNP_s) (n : nat) :
  printed (prints l n) = map locus (List.filter is_kept l).
Proof.
  unfold prints. induction (List.filter is_kept l) as [|s k IH]; [reflexivity|].
  cbn [map]. change (printed (Print s n :: map (fun s => Print s n) k))
    with (locus s :: printed (map (fun s => Print s n) k)).
  rewrite IH. reflexivity.
Qed.

Lemma filter_is_kept_dead (l : list SNP_s) : Forall dead l -> List.filter is_kept l = [].
Proof.
  induction 1 as [|s l [Hs _] _ IH]; [reflexivity|].
  cbn [List.filter]. replace (is_kept s) with false; [exact IH|].
  unfold is_kept. symmetry. apply Z.eqb_neq. exact Hs.
Qed.

Lemma filter_is_kept_kept (l : list SNP_s) : Forall kept l -> List.filter is_kept l = l.
Proof.
  induction 1 as [|s l [Hs _] _ IH]; [reflexivity|].
  cbn [List.filter]. replace (is_kept s) with true by (unfold is_kept; rewrite Hs; reflexivity).
  rewrite IH. reflexivity.
Qed.

Lemma map_settle_dead (l : list SNP_s) : Forall dead l -> map settle l = l.
Proof.
  induction 1 as [|s l Hs _ IH]; [reflexivity|].
  cbn [map]. rewrite IH, (settle_dead s Hs). reflexivity.
Qed.

Lemma map_settle_kept (l : list SNP_s) : Forall kept l -> map settle l = l.
Proof.
  induction 1 as [|s l Hs _ IH]; [reflexivity|].
  cbn [map]. rewrite IH, (settle_kept s Hs). reflexivity.
Qed.

Lemma map_settle_pending (l : list SNP_s) :
  Forall pending l -> Forall kept (map settle l) /\ map locus (map settle l) = map locus l.
Proof.
  induction 1 as [|s l Hs _ [IH1 IH2]]; [split; [constructor | reflexivity]|].
  cbn [map]. destruct (settle_pending s Hs) as [E Hk]. split.
  - constructor; assumption.
  - rewrite IH2, E. reflexivity.
Qed.

Lemma kill_dead (s : SNP_s) : dead s -> kill s = s.
Proof.
  intros [H _]. unfold kill. destruct (Z.eqb_spec (ok s) 1); [contradiction | reflexivity].
Qed.

Lemma kill_kept (s : SNP_s) : kept s -> dead (kill s) /\ locus (kill s) = locus s.
Proof.
  intros [H _]. unfold kill. rewrite H. cbn. split; [|reflexivity].
  split; [discriminate | right; reflexivity].
Qed.

Lemma map_kill_dead (l : list SNP_s) : Forall dead l -> map kill l = l.
Proof.
  induction 1 as [|s l Hs _ IH]; [reflexivity|].
  cbn [map]. rewrite IH, (kill_dead s Hs). reflexivity.
Qed.

Lemma map_kill_kept (l : list SNP_s) : Forall kept l -> Forall dead (map kill l).
Proof.
  induction 1 as [|s l Hs _ IH]; [constructor|].
  cbn [map]. constructor; [apply kill_kept; exact Hs | exact IH].
Qed.

Lemma rot_split (c : nat) (w A B : list SNP_s) :
  rot c w = A ++ B -> length B = c -> (c <= length w)%nat -> w = B ++ A.
Proof.
  unfold rot. intros H HB Hc.
  apply app_inj_2 in H as [H1 H2]; [|rewrite length_take; lia].
  rewrite <- (take_drop c w). congruence.
Qed.

(** *** The invariant of the driver *)

Lemma dead_blank : dead blank_SNP.
Proof. split; [discriminate | left; reflexivity]. Qed.

Lemma dead_lookup (l : list SNP_s) (i : nat) : Forall dead l -> dead (l !!! i).
Proof.
  intros H. destruct (l !! i) as [s|] eqn:E.
  - rewrite (list_lookup_total_correct _ _ _ E). eapply Forall_lookup_1; eauto.
  - rewrite list_lookup_total_alt, E. apply dead_blank.
Qed.

(** The emission test, the flush and a placement leave the sites of the
    window as they are. *)
Lemma emit_same_sites (st : state) : same_sites (snps st) (snps (emit st)).
Proof.
  unfold emit. destruct (ok _ =? 1); [apply same_sites_set_ok | apply same_sites_refl].
Qed.

Lemma flush_same_sites (win : nat) (st : state) : same_sites (snps st) (snps (flush win st)).
Proof.
  unfold flush. generalize win at 1. intros k.
  induction k as [|k IH]; [apply same_sites_refl|].
  rewrite Nat.iter_succ. eapply same_sites_trans; [exact IH|].
  unfold advance. cbn [snps]. apply emit_same_sites.
Qed.

Lemma call_estLD_same_sites (r2 : float) (st : state) :
  same_sites (snps st) (snps (call_estLD r2 st)).
Proof. unfold call_estLD. cbn [snps]. apply estLD_same_sites. Qed.

Lemma move_on_same_sites (win : nat) (st : state) :
  same_sites (snps st) (snps (move_on win st)).
Proof.
  unfold move_on. cbv zeta. set (sB := advance win _).
  change (snps st) with (snps sB).
  destruct (_ =? _)%nat; [apply emit_same_sites | apply same_sites_refl].
Qed.

Section Orderly.
Variables (win step geno_n : nat) (mis maf r2 : float) (n : nat).
Variable lines : list vcf_line.
Hypothesis step_range : (1 <= step <= win)%nat.
Hypothesis n_pos : n <> 0%nat.
Hypothesis below : below_threshold geno_n mis maf r2 n lines.
Hypothesis well_formed :
  Forall (fun l => l_chr l <> EmptyString /\ length (l_gts l) = n /\ ~ bad_line l) lines.

Local Abbreviation benign' := (benign geno_n mis maf n).
Local Abbreviation orderly' := (orderly win step geno_n mis maf r2 n).
Local Abbreviation passes' := (passes geno_n mis maf n).

Lemma orderly_calm (st : state) (done : list vcf_line) (i j : nat) :
  orderly' st done -> i <> j ->
  conflict (ind_n st) r2 (snps st !!! i) (snps st !!! j) = false.
Proof.
  intros (_ & _ & [-> | ->] & [_ Hcalm] & _) Hij;
    [apply Hcalm; exact Hij | apply conflict_none].
Qed.

Lemma orderly_clear_geno (st : state) (done : list vcf_line) :
  orderly' st done ->
  orderly' (clear_geno geno_n st) done /\
  geno (snps (clear_geno geno_n st) !!! win_i st) = replicate geno_n 0%float.
Proof.
  intros (Hl & Hc & Hn & Hb & D & K & Pn & Hv & HD & HK & HP & HD0 & Hacc & Hph).
  unfold clear_geno, with_snps. cbn [snps win_i].
  split; [|rewrite list_lookup_total_insert_eq by lia; reflexivity].
  set (y := set_geno _ _).
  assert (Hy : quiet geno_n y) by (right; reflexivity).
  unfold orderly. cbn [snps win_i win_n step_i ind_n log].
  rewrite length_insert. repeat (split; [assumption|]).
  split; [split; [apply Forall_insert; [apply Hb | left; exact Hy] |
                  apply calm_insert; [apply Hb | intros j _; apply (quiet_conflict geno_n), Hy]]|].
  destruct D as [|d0 D']; [contradiction|].
  unfold view in Hv. rewrite rot_cursor in Hv by lia. injection Hv as Hd0 Ht.
  exists (y :: D'), K, Pn. unfold view. cbn [snps win_i].
  rewrite rot_insert by lia. rewrite Ht.
  split; [reflexivity|]. split.
  { inversion HD as [|? ? Hd HD']; subst. constructor; [exact Hd | exact HD']. }
  repeat (split; [assumption|]). split; [discriminate|]. split; [exact Hacc|].
  destruct Hph as [Hf|Hs]; [left; exact Hf | right].
  destruct Hs as (H1 & H2). split; [cbn [length] in *; lia | exact H2].
Qed.

(** The forced evaluation followed by the flush prints every site still in
    the window and leaves only dead slots. *)
Lemma evaluate_flush (st : state) (done : list vcf_line) :
  orderly' st done ->
  let st' := flush win (call_estLD r2 st) in
  printed (log st') = map line_locus (List.filter passes' done) /\
  Forall dead (snps st') /\
  (Forall (benign' done) (snps st') /\ calm n r2 (snps st')) /\
  length (snps st') = win /\ ind_n st' = ind_n st.
Proof.
  intros Hord. pose proof Hord as (Hl & Hc & Hn & Hb & D & K & Pn & Hv & HD & HK & HP & HD0 & Hacc & Hph).
  assert (HE : estLD (snps st) (S (win_n st)) (ind_n st) r2 = map settle (snps st)).
  { apply estLD_settles; [intros i j; apply (orderly_calm st done i j Hord)|].
    intros i Hi. apply settle_dead.
    destruct Hph as [(-> & F1 & F2 & F3)|(S1 & S2 & _)].
    - unfold view in Hv. cbn [app] in Hv.
      apply rot_split in Hv; [|lia|lia]. rewrite Hv.
      rewrite lookup_total_app_r by lia. apply dead_lookup. exact HD.
    - rewrite list_lookup_total_alt, lookup_ge_None_2 by lia. apply dead_blank. }
  set (sa := call_estLD r2 st).
  assert (Hva : view sa = D ++ K ++ map settle Pn).
  { unfold sa, call_estLD, view. cbn [snps win_i]. rewrite HE, rot_map.
    fold (view st). rewrite Hv, !map_app, (map_settle_dead D HD), (map_settle_kept K HK).
    reflexivity. }
  destruct (map_settle_pending Pn HP) as [HP' HPl].
  destruct (flush_view win sa) as (Fv & Fl & Flen & Fc & Fi).
  { unfold sa, call_estLD. cbn [snps]. rewrite estLD_length. exact Hl. }
  { exact Hc. }
  cbv zeta. split; [|split; [|split; [|split]]].
  - rewrite Fl, Hva, printed_app. unfold sa at 1, call_estLD. cbn [log].
    rewrite printed_app, printed_prints. cbn [printed flat_map app]. rewrite app_nil_r.
    rewrite !List.filter_app, (filter_is_kept_dead D HD), (filter_is_kept_kept K HK),
      (filter_is_kept_kept _ HP'). cbn [app].
    rewrite <- Hacc, !map_app, HPl. reflexivity.
  - apply (rot_Forall dead (win_i (flush win sa))). fold (view (flush win sa)).
    rewrite Fv, Hva, !map_app, (map_kill_dead D HD).
    rewrite !Forall_app. auto using map_kill_kept.
  - split.
    + apply (rot_Forall (benign' done) (win_i (flush win sa))). fold (view (flush win sa)).
      rewrite Fv. unfold view, sa, call_estLD. cbn [snps win_i]. rewrite HE.
      apply Forall_map. apply rot_Forall. apply Forall_map.
      eapply Forall_impl; [exact (proj1 Hb)|]. intros s Hs.
      apply benign_kill, benign_settle. exact Hs.
    + apply (calm_same_sites r2 n (snps st)); [|exact (proj2 Hb)].
      eapply same_sites_trans; [apply (call_estLD_same_sites r2) | apply flush_same_sites].
  - exact Flen.
  - rewrite Fi. reflexivity.
Qed.

Lemma orderly_chr_change (st : state) (done : list vcf_line) :
  orderly' st done -> orderly' (chr_change win geno_n r2 st) done.
Proof.
  intros Hord. pose proof Hord as (_ & _ & Hn & _).
  destruct (evaluate_flush st done Hord) as (Hp & Hd & Hb & Hl & Hi).
  unfold chr_change. set (st' := flush win (call_estLD r2 st)) in *.
  apply orderly_clear_geno.
  unfold orderly. cbn [snps win_i win_n step_i ind_n log].
  split; [exact Hl|]. split; [lia|]. split; [rewrite Hi; exact Hn|]. split; [exact Hb|].
  exists (snps st'), [], []. unfold view. cbn [snps win_i]. rewrite rot_0, !app_nil_r.
  split; [reflexivity|]. split; [exact Hd|]. split; [constructor|]. split; [constructor|].
  split; [intros E; rewrite E in Hl; cbn in Hl; lia|].
  split; [cbn [map app]; rewrite ?app_nil_r; exact Hp|].
  left. unfold filling. cbn. auto.
Qed.

Lemma orderly_open_line (st : state) (ln : vcf_line) (done : list vcf_line) :
  orderly' st done ->
  orderly' (open_line win geno_n r2 st ln) done /\
  geno (snps (open_line win geno_n r2 st ln) !!! win_i (open_line win geno_n r2 st ln))
  = replicate geno_n 0%float.
Proof.
  intros Hord. unfold open_line.
  destruct (orderly_clear_geno st done Hord) as [H1 H2].
  destruct (_ && _).
  - pose proof (orderly_chr_change _ done H1) as H3. split; [exact H3|].
    unfold chr_change. set (st' := flush win _).
    destruct (orderly_clear_geno (mkState (snps st') 0 0 0 (ind_n st') (snp_i st') (log st')) done)
      as [_ H4]; [|exact H4].
    destruct (evaluate_flush _ done H1) as (Hp & Hd & Hb & Hl & Hi).
    fold st' in Hp, Hd, Hb, Hl, Hi. destruct H1 as (_ & _ & Hn & _).
    unfold orderly. cbn [snps win_i win_n step_i ind_n log].
    split; [exact Hl|]. split; [lia|]. split; [rewrite Hi; exact Hn|]. split; [exact Hb|].
    exists (snps st'), [], []. unfold view. cbn [snps win_i]. rewrite rot_0, !app_nil_r.
    split; [reflexivity|]. split; [exact Hd|]. split; [constructor|]. split; [constructor|].
    split; [intros E; rewrite E in Hl; cbn in Hl; lia|].
    split; [cbn [map app]; rewrite ?app_nil_r; exact Hp|].
    left. unfold filling. cbn. auto.
  - split; [exact H1 | exact H2].
Qed.

Lemma gt_step_same_sums (c : string) (p : Z) (a a' : line_acc) (f : string) :
  same_sums a a' ->
  match gt_step c p a f, gt_step c p a' f with
  | inl b, inl b' => same_sums b b'
  | inr e, inr e' => e = e'
  | _, _ => False
  end.
Proof.
  intros (Hg & Hi & Hm & Ha & Hh). unfold gt_step. rewrite Hg, Hi, Hm, Ha, Hh.
  destruct (extract _ _ _); unfold same_sums; cbn [la_geno la_ind la_mis la_alt la_hapn];
    auto.
Qed.

Lemma gt_loop_same_sums (c : string) (p : Z) (fs : list string) (a a' : line_acc) :
  same_sums a a' ->
  match gt_loop c p a fs, gt_loop c p a' fs with
  | inl b, inl b' => same_sums b b'
  | inr e, inr e' => e = e'
  | _, _ => False
  end.
Proof.
  revert a a'. induction fs as [|f fs IH]; intros a a' Hs; cbn [gt_loop]; [exact Hs|].
  pose proof (gt_step_same_sums c p a a' f Hs) as H.
  destruct (gt_step c p a f) as [b|e], (gt_step c p a' f) as [b'|e'];
    try contradiction; [apply IH; exact H | exact H].
Qed.

Lemma gt_loop_ind (c : string) (p : Z) (fs : list string) (a a' : line_acc) :
  gt_loop c p a fs = inl a' -> la_ind a' = (la_ind a + length fs)%nat.
Proof.
  revert a. induction fs as [|f fs IH]; intros a H; cbn [gt_loop] in H.
  - injection H as <-. cbn. lia.
  - destruct (gt_step c p a f) as [a1|] eqn:E; [|discriminate].
    apply gt_step_sums in E as [E _]. rewrite (IH a1 H), E. cbn [length]. lia.
Qed.

Lemma orderly_skip (st : state) (ln : vcf_line) (done : list vcf_line) :
  orderly' st done -> passes' ln = false -> orderly' st (done ++ [ln]).
Proof.
  intros (Hl & Hc & Hn & Hb & D & K & Pn & Hv & HD & HK & HP & HD0 & Hacc & Hph) Hp.
  unfold orderly. split; [assumption|]. split; [assumption|]. split; [assumption|].
  split; [split; [|exact (proj2 Hb)];
          eapply Forall_impl; [exact (proj1 Hb) | intros s; apply benign_more]|].
  exists D, K, Pn. repeat (split; [assumption|]). split; [|exact Hph].
  rewrite List.filter_app. cbn [List.filter]. rewrite Hp, app_nil_r. exact Hacc.
Qed.

(** The state in which the filters are tested, for a line of the input that
    is read. *)
Lemma site_state_orderly (st : state) (ln : vcf_line) (done : list vcf_line) :
  orderly' st done -> In ln lines -> l_listed ln = true ->
  let st0 := open_line win geno_n r2 st ln in
  exists a x,
    site_state win geno_n r2 st ln
    = inl (mkState (<[win_i st0 := x]> (snps st0)) (win_n st0) (win_i st0) (step_i st0)
                   n (snp_i st0) (log st0), a) /\
    chr x = l_chr ln /\ pos x = l_pos ln /\ ok x = -1 /\ geno x = dosages geno_n ln /\
    passes' ln = negb (mis_fails mis (la_mis a) n)
                 && negb (maf_fails maf (la_alt a) (la_hapn a)).
Proof.
  intros Hord Hin Hlist st0.
  destruct (orderly_open_line st ln done Hord) as [Hord0 Hz]. fold st0 in Hord0, Hz.
  destruct Hord0 as (Hl0 & Hc0 & Hn0 & _).
  destruct (proj1 (List.Forall_forall _ _) well_formed ln Hin) as (Hchr & Hcols & Hbad).
  unfold site_state. fold st0.
  set (s := mkSNP (l_pos ln) (-1) _ _ _ _ _ _).
  set (a0 := mkLacc (geno s) (hap s) 0 0%float 0%float 0%float).
  assert (Hss : same_sums a0 (mkLacc (replicate geno_n 0%float) [] 0 0%float 0%float 0%float)).
  { unfold same_sums, a0, s. cbn. rewrite Hz. auto. }
  pose proof (gt_loop_same_sums (l_chr ln) (l_pos ln) (l_gts ln) _ _ Hss) as Hsim.
  fold (line_sums geno_n ln) in Hsim.
  destruct (gt_loop (l_chr ln) (l_pos ln) a0 (l_gts ln)) as [a|e] eqn:El.
  - destruct (line_sums geno_n ln) as [a1|] eqn:E1; [|contradiction].
    destruct Hsim as (Sg & Si & Sm & Sa & Sh).
    exists a, (mkSNP (l_pos ln) (-1) (la_geno a) (l_ref ln) (l_alt ln) (l_id ln)
                     (l_chr ln) (la_hap a)).
    split; [|split; [reflexivity|split; [reflexivity|split; [reflexivity|split]]]].
    + f_equal. f_equal. unfold with_snps, with_ind_n.
      cbn [snps win_n win_i step_i ind_n snp_i log pos ok ref alt id chr s].
      apply gt_loop_ind in El. cbn [la_ind a0] in El.
      destruct Hn0 as [Hn0|Hn0]; rewrite Hn0.
      * destruct (Nat.eqb_spec n 0); [contradiction | reflexivity].
      * cbn. rewrite El, Hcols. reflexivity.
    + cbn [geno]. unfold dosages. rewrite E1. exact Sg.
    + unfold passes. rewrite Hlist, E1, Sm, Sa, Sh. reflexivity.
  - exfalso. apply Hbad. split; [exact Hlist|].
    apply (gt_loop_fatal (l_chr ln) (l_pos ln) (l_gts ln) a0). eauto.
Qed.

(** Writing a dead slot under the cursor. *)
Lemma orderly_cursor_dead (st : state) (done : list vcf_line) (y : SNP_s) :
  orderly' st done -> dead y -> quiet geno_n y ->
  orderly' (mkState (<[win_i st := y]> (snps st)) (win_n st) (win_i st) (step_i st)
                    n (snp_i st) (log st)) done.
Proof.
  intros (Hl & Hc & Hn & Hb & D & K & Pn & Hv & HD & HK & HP & HD0 & Hacc & Hph) Hy Hby.
  unfold orderly. cbn [snps win_i win_n step_i ind_n log].
  rewrite length_insert. split; [assumption|]. split; [assumption|]. split; [auto|].
  split; [split; [apply Forall_insert; [apply Hb | left; exact Hby] |
                  apply calm_insert; [apply Hb | intros j _; apply (quiet_conflict geno_n), Hby]]|].
  destruct D as [|d0 D']; [contradiction|].
  unfold view in Hv. rewrite rot_cursor in Hv by lia. injection Hv as Hd0 Ht.
  exists (y :: D'), K, Pn. unfold view. cbn [snps win_i].
  rewrite rot_insert by lia. rewrite Ht.
  split; [reflexivity|]. split.
  { inversion HD as [|? ? Hd HD']; subst. constructor; [exact Hy | exact HD']. }
  repeat (split; [assumption|]). split; [discriminate|]. split; [exact Hacc|].
  destruct Hph as [Hf|Hs]; [left; exact Hf | right].
  destruct Hs as (H1 & H2). split; [cbn [length] in *; lia | exact H2].
Qed.

(** The counters, the cursor and the emission test after a placement. *)
Lemma move_on_view (s : state) (h h' : SNP_s) (t t' : list SNP_s) :
  length (snps s) = win -> (win_i s < win)%nat ->
  view s = h :: t -> t ++ [h] = h' :: t' ->
  let wn := if (win_n s <? win - 1)%nat then S (win_n s) else win_n s in
  let s' := move_on win s in
  win_n s' = wn /\ step_i s' = S (step_i s) /\ ind_n s' = ind_n s /\
  win_i s' = (if (S (win_i s) =? win)%nat then O else S (win_i s)) /\
  length (snps s') = win /\
  view s' = (if (wn =? win - 1)%nat then kill h' else h') :: t' /\
  log s' = log s ++ (if (wn =? win - 1)%nat && is_kept h'
                     then [Print h' (ind_n s)] else []).
Proof.
  intros Hl Hc Hv Ht wn s'. subst s'. unfold move_on.
  set (sB := mkState (snps s) _ (win_i s) (S (step_i s)) (ind_n s) (snp_i s) (log s)).
  assert (HvB : view sB = h :: t) by exact Hv.
  destruct (view_advance win sB h t Hl Hc HvB) as (Av & Ac & As & Al & An & Ast & Ai).
  rewrite Ht in Av. cbv zeta. rewrite An. change (win_n sB) with wn.
  assert (Hwi : win_i (advance win sB)
                = (if (S (win_i s) =? win)%nat then O else S (win_i s))) by reflexivity.
  destruct (wn =? win - 1)%nat; cbn [andb].
  - destruct (view_emit (advance win sB) h' t') as (Ev & El & Elen & Ec & En & Est & Ei).
    { rewrite As. change (snps sB) with (snps s). lia. }
    { exact Av. }
    rewrite En, Est, Ei, Ec, Elen, Ev, El, An, Ast, Ai, Al, As, Hwi.
    repeat split; auto.
  - rewrite An, Ast, Ai, Al, As, Av, Hwi, app_nil_r. repeat split; auto.
Qed.

Lemma trigger_filling (st : state) (p : nat) :
  win_n st = p -> win_i st = p -> step_i st = p -> (p < win)%nat ->
  trigger win step st = (p =? win - 1)%nat.
Proof.
  intros E1 E2 E3 Hp. unfold trigger. rewrite E1, E2, E3.
  destruct (Nat.eqb_spec p (win - 1)) as [E|E]; cbn [andb orb].
  - destruct (Nat.leb_spec step p); [reflexivity|].
    assert (Hw : win = step) by lia. rewrite Hw, Nat.eqb_refl. reflexivity.
  - apply andb_false_r.
Qed.

Lemma trigger_steady (st : state) :
  win_n st = (win - 1)%nat -> (step_i st <= step)%nat ->
  (win = step -> step_i st = S (win_i st)) ->
  trigger win step st = (step_i st =? step)%nat.
Proof.
  intros E1 Hk Hw. unfold trigger. rewrite E1, Nat.eqb_refl. cbn [andb].
  destruct (Nat.eqb_spec (step_i st) step) as [E|E].
  - destruct (Nat.leb_spec step (step_i st)); [reflexivity | lia].
  - destruct (Nat.leb_spec step (step_i st)); [lia|]. cbn [orb].
    destruct (Nat.eqb_spec win step) as [Ew|Ew]; [|reflexivity]. cbn [andb].
    specialize (Hw Ew). apply Nat.eqb_neq. lia.
Qed.

Lemma filter_passes_snoc (done : list vcf_line) (ln : vcf_line) :
  passes' ln = true ->
  map line_locus (List.filter passes' (done ++ [ln]))
  = map line_locus (List.filter passes' done) ++ [line_locus ln].
Proof.
  intros Hp. rewrite List.filter_app, map_app. cbn [List.filter]. rewrite Hp. reflexivity.
Qed.

Lemma benign_view (st : state) (done : list vcf_line) :
  Forall (benign' done) (snps st) <-> Forall (benign' done) (view st).
Proof. unfold view. symmetry. apply rot_Forall. Qed.

(** A placement with the window full and the evaluation due: every site in
    the window becomes Kept and the oldest one is printed. *)
Lemma orderly_evaluated (st1 : state) (x : SNP_s) (K Pn : list SNP_s)
    (ln : vcf_line) (done : list vcf_line) :
  length (snps st1) = win -> (win_i st1 < win)%nat -> ind_n st1 = n ->
  Forall (benign' (done ++ [ln])) (snps st1) /\ calm n r2 (snps st1) ->
  view st1 = x :: K ++ Pn ->
  pending x -> Forall kept K -> Forall pending Pn ->
  printed (log st1) ++ map locus (K ++ Pn) = map line_locus (List.filter passes' done) ->
  locus x = line_locus ln -> passes' ln = true ->
  win_n st1 = (win - 1)%nat -> trigger win step st1 = true ->
  (win = step -> S (win_i st1) = win) ->
  orderly' (placed win step r2 st1) (done ++ [ln]).
Proof.
  intros Hl Hc Hn Hb Hv Hx HK HP Hacc Hloc Hpass Hwn Htr Hws.
  unfold placed, evaluate_if_due. rewrite Htr. cbv zeta.
  unfold call_estLD. cbn [snps win_n win_i step_i ind_n snp_i log].
  assert (HE : estLD (snps st1) (S (win_n st1)) (ind_n st1) r2 = map settle (snps st1)).
  { apply estLD_settles.
    - intros i j Hij. rewrite Hn. apply (proj2 Hb). exact Hij.
    - intros i Hi. apply settle_dead.
      rewrite list_lookup_total_alt, lookup_ge_None_2 by lia. apply dead_blank. }
  rewrite HE.
  set (sE := mkState (map settle (snps st1)) (win_n st1) (win_i st1) 0 (ind_n st1)
                     (snp_i st1) (log st1 ++ [Eval (snps st1) (S (win_n st1)) (ind_n st1)])).
  destruct (settle_pending x Hx) as [Ex Hkx].
  destruct (map_settle_pending Pn HP) as [HP' HPl].
  assert (HvE : view sE = settle x :: K ++ map settle Pn).
  { unfold view, sE. cbn [snps win_i]. rewrite rot_map. fold (view st1).
    rewrite Hv. cbn [map]. rewrite map_app, (map_settle_kept K HK). reflexivity. }
  assert (Hall : Forall kept ((K ++ map settle Pn) ++ [settle x])).
  { rewrite !Forall_app. repeat split; auto. }
  destruct ((K ++ map settle Pn) ++ [settle x]) as [|h' t'] eqn:EL.
  { destruct (K ++ map settle Pn); discriminate. }
  destruct (move_on_view sE (settle x) h' (K ++ map settle Pn) t')
    as (Mn & Ms & Mi & Mc & Ml & Mv & Mlog).
  { unfold sE. cbn [snps]. rewrite length_map. exact Hl. }
  { exact Hc. }
  { exact HvE. }
  { exact EL. }
  change (win_n sE) with (win_n st1) in Mn, Mv, Mlog. rewrite Hwn in Mn, Mv, Mlog.
  change (win_i sE) with (win_i st1) in Mc. change (step_i sE) with 0%nat in Ms.
  change (ind_n sE) with (ind_n st1) in Mi, Mlog.
  change (log sE) with (log st1 ++ [Eval (snps st1) (S (win_n st1)) (ind_n st1)]) in Mlog.
  replace (win - 1 <? win - 1)%nat with false in Mn, Mv, Mlog
    by (symmetry; apply Nat.ltb_irrefl).
  rewrite Nat.eqb_refl in Mv, Mlog. cbn [andb] in Mlog.
  pose proof (List.Forall_inv Hall) as Hh'.
  pose proof (List.Forall_inv_tail Hall) as Ht'.
  assert (Hkh : is_kept h' = true) by (unfold is_kept; destruct Hh' as [-> _]; reflexivity).
  rewrite Hkh in Mlog.
  assert (HbE : Forall (benign' (done ++ [ln])) (h' :: t')).
  { rewrite <- EL. pose proof (proj1 (benign_view st1 _) (proj1 Hb)) as Hbv.
    rewrite Hv in Hbv.
    pose proof (List.Forall_inv Hbv) as Hbx.
    pose proof (List.Forall_inv_tail Hbv) as Hbr. apply Forall_app in Hbr as [HbK HbP].
    rewrite !Forall_app. repeat split.
    - exact HbK.
    - apply Forall_map. eapply Forall_impl; [exact HbP|]. intros s; apply benign_settle.
    - constructor; [apply benign_settle; exact Hbx | constructor]. }
  unfold orderly. rewrite Ml, Mc, Mi.
  split; [reflexivity|]. split; [destruct (Nat.eqb_spec (S (win_i st1)) win); cbn; lia|].
  split; [left; exact Hn|]. split.
  { split.
    - apply benign_view. rewrite Mv.
      constructor; [apply benign_kill; exact (List.Forall_inv HbE) |
                    exact (List.Forall_inv_tail HbE)].
    - apply (calm_same_sites r2 n (snps st1)); [|exact (proj2 Hb)].
      eapply same_sites_trans; [|apply move_on_same_sites].
      unfold sE. cbn [snps]. rewrite <- HE. apply estLD_same_sites. }
  exists [kill h'], t', []. rewrite Mv, app_nil_r.
  split; [reflexivity|]. split; [constructor; [apply kill_kept; exact Hh' | constructor]|].
  split; [exact Ht'|]. split; [constructor|]. split; [discriminate|]. split.
  - rewrite Mlog. rewrite !printed_app.
    cbn [printed flat_map app]. rewrite app_nil_r, <- !app_assoc. cbn [app].
    change (chr h', pos h') with (locus h').
    change (locus h' :: map locus t') with (map locus (h' :: t')).
    rewrite <- EL, filter_passes_snoc by exact Hpass.
    rewrite <- Hacc, !map_app, HPl, Ex. cbn [map].
    change (locus (set_ok 1 x)) with (locus x). rewrite Hloc, <- !app_assoc. reflexivity.
  - right. unfold steady. rewrite Mn, Ms, Mc. cbn [length].
    split; [reflexivity|]. split; [reflexivity|]. split; [reflexivity|].
    split; [lia|]. intros Hw. specialize (Hws Hw).
    destruct (Nat.eqb_spec (S (win_i st1)) win); [reflexivity | contradiction].
Qed.

(** A placement of a candidate site keeps the invariant: either the window
    is evaluated, or the cursor moves on to a dead slot or to the oldest Kept
    site, which is printed. *)
Lemma orderly_placed (st1 : state) (x : SNP_s) (D' K Pn : list SNP_s)
    (ln : vcf_line) (done : list vcf_line) :
  length (snps st1) = win -> (win_i st1 < win)%nat -> ind_n st1 = n ->
  Forall (benign' (done ++ [ln])) (snps st1) /\ calm n r2 (snps st1) ->
  view st1 = x :: D' ++ K ++ Pn ->
  pending x -> Forall dead D' -> Forall kept K -> Forall pending Pn ->
  printed (log st1) ++ map locus (K ++ Pn) = map line_locus (List.filter passes' done) ->
  locus x = line_locus ln -> passes' ln = true ->
  (filling st1 K Pn \/
   (D' = [] /\ win_n st1 = (win - 1)%nat /\ step_i st1 = S (length Pn) /\
    (step_i st1 <= step)%nat /\ (win = step -> step_i st1 = S (win_i st1)))) ->
  orderly' (placed win step r2 st1) (done ++ [ln]).
Proof.
  intros Hl Hc Hn Hb Hv Hx HD HK HP Hacc Hloc Hpass Hphase.
  assert (HlenV : length (x :: D' ++ K ++ Pn) = win).
  { rewrite <- Hv. unfold view. rewrite rot_length. exact Hl. }
  cbn [length] in HlenV. rewrite !length_app in HlenV.
  assert (Hbv : Forall (benign' (done ++ [ln])) (x :: D' ++ K ++ Pn)).
  { rewrite <- Hv. apply benign_view. exact (proj1 Hb). }
  assert (Hcalm' : calm n r2 (snps (move_on win st1))).
  { apply (calm_same_sites r2 n (snps st1)); [apply move_on_same_sites | exact (proj2 Hb)]. }
  destruct Hphase as [(HK0 & F1 & F2 & F3) | (HD0 & S1 & S2 & S3 & S4)].
  - (* the window is filling *)
    subst K. cbn [length app] in HlenV, Hv, Hacc, Hbv.
    assert (Htr : trigger win step st1 = (length Pn =? win - 1)%nat)
      by (apply trigger_filling; auto; lia).
    destruct (Nat.eqb_spec (length Pn) (win - 1)) as [Efull | Nfull].
    + assert (D' = []) by (destruct D'; [reflexivity | cbn [length] in HlenV; lia]).
      subst D'.
      apply (orderly_evaluated st1 x [] Pn ln done); auto;
        first [lia | intros _; lia | constructor].
    + destruct D' as [|d1 D'']; [cbn [length] in HlenV; lia|].
      unfold placed, evaluate_if_due. rewrite Htr.
      destruct (move_on_view st1 x d1 ((d1 :: D'') ++ Pn) (D'' ++ Pn ++ [x]))
        as (Mn & Ms & Mi & Mc & Ml & Mv & Mlog); auto.
      { cbn [app]. rewrite <- app_assoc. reflexivity. }
      rewrite F1 in Mn, Mv, Mlog. rewrite F2 in Mc. rewrite F3 in Ms.
      replace (length Pn <? win - 1)%nat with true in Mn, Mv, Mlog
        by (symmetry; apply Nat.ltb_lt; lia).
      pose proof (List.Forall_inv HD) as Hd1.
      assert (Hk1 : is_kept d1 = false).
      { unfold is_kept. destruct Hd1 as [Hok _]. apply Z.eqb_neq. exact Hok. }
      rewrite Hk1, andb_false_r in Mlog.
      rewrite (kill_dead d1 Hd1) in Mv.
      replace (if (S (length Pn) =? win - 1)%nat then d1 else d1) with d1 in Mv
        by (destruct (S (length Pn) =? win - 1)%nat; reflexivity).
      replace (S (length Pn) =? win)%nat with false in Mc
        by (symmetry; apply Nat.eqb_neq; cbn [length] in HlenV; lia).
      unfold orderly. rewrite Ml, Mc, Mi.
      split; [reflexivity|]. split; [cbn [length] in HlenV; lia|].
      split; [left; exact Hn|]. split.
      { split; [|exact Hcalm']. apply benign_view. rewrite Mv.
        pose proof (List.Forall_inv Hbv) as Hbx.
        pose proof (List.Forall_inv_tail Hbv) as Hbr.
        change (d1 :: D'' ++ Pn ++ [x]) with ((d1 :: D'') ++ Pn ++ [x]).
        apply Forall_app in Hbr as [HbD HbP].
        rewrite !Forall_app. repeat split; auto. }
      exists (d1 :: D''), [], (Pn ++ [x]). rewrite Mv. cbn [app].
      split; [reflexivity|]. split; [exact HD|]. split; [constructor|].
      split; [rewrite Forall_app; split; [exact HP | constructor; [exact Hx | constructor]]|].
      split; [discriminate|]. split.
      * rewrite Mlog, app_nil_r, filter_passes_snoc by exact Hpass.
        rewrite <- Hacc, map_app. cbn [map]. rewrite Hloc, <- app_assoc. reflexivity.
      * left. unfold filling. rewrite Mn, Ms, Mc, length_app. cbn [length].
        repeat split; lia.
  - (* the window is full *)
    subst D'. cbn [length app] in HlenV, Hv, Hbv.
    assert (Htr : trigger win step st1 = (step_i st1 =? step)%nat)
      by (apply trigger_steady; auto).
    destruct (Nat.eqb_spec (step_i st1) step) as [Edue | Ndue].
    + apply (orderly_evaluated st1 x K Pn ln done); auto.
      intros Hw. rewrite <- (S4 Hw). lia.
    + destruct K as [|k1 K']; [cbn [length] in HlenV; lia|].
      unfold placed, evaluate_if_due. rewrite Htr.
      destruct (move_on_view st1 x k1 ((k1 :: K') ++ Pn) (K' ++ Pn ++ [x]))
        as (Mn & Ms & Mi & Mc & Ml & Mv & Mlog); auto.
      { cbn [app]. rewrite <- app_assoc. reflexivity. }
      rewrite S1 in Mn, Mv, Mlog.
      replace (win - 1 <? win - 1)%nat with false in Mn, Mv, Mlog
        by (symmetry; apply Nat.ltb_irrefl).
      rewrite Nat.eqb_refl in Mv, Mlog. cbn [andb] in Mlog.
      pose proof (List.Forall_inv HK) as Hk1.
      pose proof (List.Forall_inv_tail HK) as HK'.
      assert (Hkk : is_kept k1 = true) by (unfold is_kept; destruct Hk1 as [-> _]; reflexivity).
      rewrite Hkk in Mlog.
      unfold orderly. rewrite Ml, Mc, Mi.
      split; [reflexivity|].
      split; [destruct (Nat.eqb_spec (S (win_i st1)) win); lia|].
      split; [left; exact Hn|]. split.
      { split; [|exact Hcalm']. apply benign_view. rewrite Mv.
        pose proof (List.Forall_inv Hbv) as Hbx.
        pose proof (List.Forall_inv_tail Hbv) as Hbr.
        change (k1 :: K' ++ Pn) with ((k1 :: K') ++ Pn) in Hbr.
        apply Forall_app in Hbr as [HbK HbP].
        constructor; [apply benign_kill; exact (List.Forall_inv HbK)|].
        rewrite !Forall_app. repeat split; auto.
        exact (List.Forall_inv_tail HbK). }
      exists [kill k1], K', (Pn ++ [x]). rewrite Mv.
      split; [reflexivity|].
      split; [constructor; [apply kill_kept; exact Hk1 | constructor]|].
      split; [exact HK'|].
      split; [rewrite Forall_app; split; [exact HP | constructor; [exact Hx | constructor]]|].
      split; [discriminate|]. split.
      * rewrite Mlog, Hn, printed_app, filter_passes_snoc by exact Hpass.
        rewrite <- Hacc. cbn [printed flat_map app map].
        rewrite !map_app. cbn [map]. rewrite Hloc, <- !app_assoc.
        cbn [app]. rewrite <- !app_assoc. reflexivity.
      * right. unfold steady. rewrite Mn, Ms, Mc, length_app. cbn [length].
        split; [reflexivity|]. split; [reflexivity|]. split; [lia|]. split; [lia|].
        intros Hw. specialize (S4 Hw).
        destruct (Nat.eqb_spec (S (win_i st1)) win); lia.
Qed.

(** One line of the file keeps the invariant, and is never fatal. *)
Lemma orderly_read_line (st : state) (ln : vcf_line) (done rest : list vcf_line) :
  orderly' st done -> lines = done ++ ln :: rest ->
  exists st', read_line win step geno_n mis maf r2 st ln = inl st' /\
              orderly' st' (done ++ [ln]).
Proof.
  intros Ho Elines.
  assert (Hin : In ln lines) by (rewrite Elines; apply in_elt).
  unfold read_line. destruct (l_listed ln) eqn:EL; cbn [negb].
  2:{ exists (clear_geno geno_n st). split; [reflexivity|].
      apply orderly_skip; [apply orderly_clear_geno; exact Ho|].
      unfold passes. rewrite EL. reflexivity. }
  destruct (site_state_orderly st ln done Ho Hin EL)
    as (a & x & Hs & Hchr & Hpos & Hok & Hg & Hp).
  cbv zeta in Hs. rewrite Hs. cbn [ind_n].
  destruct (orderly_open_line st ln done Ho) as [Ho0 _].
  set (st0 := open_line win geno_n r2 st ln) in *.
  pose proof Ho0 as (Hl & Hc & Hn & Hb & D & K & Pn & Hv & HD & HK & HP & HD0 & Hacc & Hph).
  assert (Hfail : passes' ln = false ->
            orderly' (tombstone (mkState (<[win_i st0 := x]> (snps st0)) (win_n st0)
                        (win_i st0) (step_i st0) n (snp_i st0) (log st0))) (done ++ [ln])).
  { intros Hf. apply orderly_skip; [|exact Hf].
    unfold tombstone, with_snps. cbn [snps win_n win_i step_i ind_n snp_i log].
    rewrite list_insert_insert_eq, list_lookup_total_insert_eq by lia.
    apply orderly_cursor_dead; [exact Ho0 | |].
    - split; [cbn; rewrite Hok; discriminate | left; reflexivity].
    - left. reflexivity. }
  destruct (mis_fails mis (la_mis a) n) eqn:Em.
  { eexists. split; [reflexivity|]. apply Hfail. rewrite Hp. reflexivity. }
  destruct (maf_fails maf (la_alt a) (la_hapn a)) eqn:Ef.
  { eexists. split; [reflexivity|]. apply Hfail. rewrite Hp. reflexivity. }
  cbn [negb andb] in Hp. eexists. split; [reflexivity|].
  destruct D as [|d0 D']; [contradiction|].
  unfold view in Hv. rewrite rot_cursor in Hv by lia. injection Hv as Hd0 Ht.
  pose proof (proj1 (List.Forall_forall _ _) well_formed ln Hin) as (Hne & _ & _).
  assert (Hbx : benign' (done ++ [ln]) x).
  { right. exists ln. split; [apply in_elt|]. repeat split; assumption. }
  apply (orderly_placed _ x D' K Pn ln done); cbn [snps win_n win_i step_i ind_n log].
  - rewrite length_insert. exact Hl.
  - exact Hc.
  - reflexivity.
  - split.
    + apply Forall_insert; [|exact Hbx].
      eapply Forall_impl; [exact (proj1 Hb) | intros s; apply benign_more].
    + apply calm_insert; [exact (proj2 Hb)|]. intros j _.
      apply (candidate_conflict geno_n mis maf r2 n lines done rest ln); auto.
      apply benign_lookup. exact (proj1 Hb).
  - unfold view. cbn [snps win_i]. rewrite rot_insert by lia. rewrite Ht. reflexivity.
  - split; [exact Hok|]. unfold tomb. rewrite Hchr.
    destruct (l_chr ln); [contradiction | reflexivity].
  - exact (List.Forall_inv_tail HD).
  - exact HK.
  - exact HP.
  - exact Hacc.
  - unfold locus, line_locus. rewrite Hchr, Hpos. reflexivity.
  - exact Hp.
  - destruct Hph as [Hf | (S0 & S1 & S2 & S3 & S4)]; [left; exact Hf | right].
    split; [destruct D'; [reflexivity | cbn [length] in S0; lia]|].
    repeat split; assumption.
Qed.

Lemma orderly_read_lines (ls : list vcf_line) (st : state) (done : list vcf_line) :
  orderly' st done -> lines = done ++ ls ->
  exists st', read_lines win step geno_n mis maf r2 st ls = inl st' /\
              orderly' st' (done ++ ls).
Proof.
  revert st done. induction ls as [|ln ls IH]; intros st done Ho El.
  - exists st. rewrite app_nil_r. split; [reflexivity | exact Ho].
  - cbn [read_lines].
    destruct (orderly_read_line st ln done ls Ho El) as (st1 & E1 & Ho1).
    rewrite E1.
    destruct (IH st1 (done ++ [ln]) Ho1) as (st' & E' & Ho').
    { rewrite <- app_assoc. exact El. }
    exists st'. split; [exact E'|]. rewrite <- app_assoc in Ho'. exact Ho'.
Qed.

(** The state before the first line, over a window whose slots have an empty
    chromosome field and are not Kept. *)
Lemma orderly_start (snps0 : list SNP_s) :
  length snps0 = win -> Forall (fun s => tomb s = true /\ ok s <> 1) snps0 ->
  orderly' (start snps0) [].
Proof.
  intros Hl H0. unfold orderly, start. cbn [snps win_n win_i step_i ind_n log].
  split; [exact Hl|]. split; [lia|]. split; [right; reflexivity|]. split.
  { split; [eapply Forall_impl; [exact H0|]; intros s [Ht _]; left; left; exact Ht|].
    apply (calm_quiet geno_n). eapply Forall_impl; [exact H0|].
    intros s [Ht _]. left. exact Ht. }
  exists snps0, [], []. unfold view. cbn [snps win_i]. rewrite rot_0, !app_nil_r.
  split; [reflexivity|]. split.
  { eapply Forall_impl; [exact H0|]. intros s [Ht Hk]. split; [exact Hk | left; exact Ht]. }
  split; [constructor|]. split; [constructor|].
  split; [intros E; rewrite E in Hl; cbn in Hl; lia|].
  split; [reflexivity|]. left. unfold filling. cbn. auto.
Qed.

(** The whole run prints the candidate sites, all of them, in file order. *)
Lemma readVcf_keeps_all (snps0 : list SNP_s) :
  lines <> [] ->
  length snps0 = win -> Forall (fun s => tomb s = true /\ ok s <> 1) snps0 ->
  exists st, readVcf win step geno_n mis maf r2 snps0 lines = inl st /\
             printed (log st) = map line_locus (List.filter passes' lines).
Proof.
  intros Hne Hl H0.
  destruct (orderly_read_lines lines (start snps0) [] (orderly_start snps0 Hl H0)
              eq_refl) as (st' & E & Ho).
  cbn [app] in Ho.
  destruct (evaluate_flush st' lines Ho) as (Hp & _).
  exists (flush win (call_estLD r2 st')). split; [|exact Hp].
  unfold readVcf. fold (start snps0). rewrite E.
  destruct lines; [contradiction | reflexivity].
Qed.
End Orderly.

(** ** The change of chromosome *)

Lemma kill_not_kept (s : SNP_s) : ok (kill s) <> 1.
Proof.
  unfold kill. destruct (Z.eqb_spec (ok s) 1); [cbn; discriminate | assumption].
Qed.

(** The branch of a chromosome change: the window is evaluated, every Kept
    site is printed and cleared, and the counters and the cursor are reset. *)
Lemma open_line_change (win geno_n : nat) (r2 : float) (st : state) (ln : vcf_line) :
  length (snps st) = win -> (win_i st < win)%nat ->
  (0 < win_n st)%nat -> chr (snps st !!! 0%nat) <> l_chr ln ->
  let st' := open_line win geno_n r2 st ln in
  let w := snps (clear_geno geno_n st) in
  win_n st' = 0%nat /\ win_i st' = 0%nat /\ step_i st' = 0%nat /\
  Forall (fun s => ok s <> 1) (snps st') /\
  log st' = log st ++ Eval w (S (win_n st)) (ind_n st)
                   :: prints (rot (win_i st) (estLD w (S (win_n st)) (ind_n st) r2))
                             (ind_n st).
Proof.
  intros Hl Hc Hn Hchr. cbv zeta. unfold open_line.
  set (s1 := clear_geno geno_n st).
  assert (E0 : chr (snps s1 !!! 0%nat) = chr (snps st !!! 0%nat)).
  { unfold s1, clear_geno, with_snps. cbn [snps].
    destruct (Nat.eq_dec (win_i st) 0) as [E|E].
    - rewrite E, list_lookup_total_insert_eq by lia. reflexivity.
    - rewrite list_lookup_total_insert_ne by exact E. reflexivity. }
  assert (Hl1 : length (snps s1) = win).
  { unfold s1, clear_geno, with_snps. cbn [snps]. rewrite length_insert. exact Hl. }
  change (win_n s1) with (win_n st). rewrite E0.
  replace (0 <? win_n st)%nat with true by (symmetry; apply Nat.ltb_lt; exact Hn).
  replace (String.eqb (chr (snps st !!! 0%nat)) (l_chr ln)) with false
    by (symmetry; apply String.eqb_neq; exact Hchr).
  cbn [negb andb]. unfold chr_change.
  destruct (flush_view win (call_estLD r2 s1)) as (Fv & Fl & Fn & Fc & Fi).
  { unfold call_estLD. cbn [snps]. rewrite estLD_length. exact Hl1. }
  { exact Hc. }
  set (f := flush win (call_estLD r2 s1)) in *.
  unfold clear_geno, with_snps. cbn [snps win_n win_i step_i ind_n log].
  split; [reflexivity|]. split; [reflexivity|]. split; [reflexivity|]. split.
  - assert (Hk : Forall (fun s => ok s <> 1) (snps f)).
    { apply (rot_Forall _ (win_i f)). fold (view f). rewrite Fv.
      apply Forall_map. apply Forall_forall. intros s _. apply kill_not_kept. }
    apply Forall_insert; [exact Hk|]. cbn [ok set_geno].
    destruct (snps f !! 0%nat) as [s|] eqn:Es.
    + rewrite (list_lookup_total_correct _ _ _ Es).
      exact (proj1 (Forall_lookup _ _) Hk _ _ Es).
    + rewrite list_lookup_total_alt, Es. cbn. discriminate.
  - rewrite Fl. unfold call_estLD, view. cbn [snps win_n win_i ind_n log].
    rewrite <- app_assoc. reflexivity.
Qed.

(** ** The whole run on inputs without conflicts *)

(** A line that is read without a fatal error has no bad token. *)
Lemma line_sums_not_bad (geno_n : nat) (ln : vcf_line) (a : line_acc) :
  line_sums geno_n ln = inl a -> ~ bad_line ln.
Proof.
  intros E [_ Hex].
  apply (gt_loop_fatal (l_chr ln) (l_pos ln) (l_gts ln)
           (mkLacc (replicate geno_n 0%float) [] 0 0%float 0%float 0%float))
    in Hex as [e He].
  unfold line_sums in E. rewrite E in He. discriminate.
Qed.

Lemma open_line_change_witness :
  let st := mkState [sample_site 10 (-1) [0; 1; 0; 1]; blank_SNP; blank_SNP]
                    1 1 1 4 0 [] in
  let st' := open_line 3 30 r2_01 st (sample_line "2" 5 ["0/0"; "0/1"; "0/0"; "0/1"]%string) in
  win_n st' = 0%nat /\ win_i st' = 0%nat /\ step_i st' = 0%nat /\
  Forall (fun s => ok s <> 1) (snps st').
Proof.
  cbv zeta.
  destruct (open_line_change 3 30 r2_01
              (mkState [sample_site 10 (-1) [0; 1; 0; 1]; blank_SNP; blank_SNP]
                       1 1 1 4 0 [])
              (sample_line "2" 5 ["0/0"; "0/1"; "0/0"; "0/1"]%string))
    as (H1 & H2 & H3 & H4 & _).
  - reflexivity.
  - cbn. lia.
  - cbn. lia.
  - vm_compute. discriminate.
  - repeat split; assumption.
Defined.

Lemma two_chromosomes_below : below_threshold 30 mis_06 maf_005 r2_01 4 two_chromosomes.
Proof.
  intros i j l1 l2 Hij H1 H2 _ _ Hc.
  destruct i as [|[|[|[|i]]]]; cbn in H1; try discriminate H1;
    destruct j as [|[|[|[|j]]]]; cbn in H2; try discriminate H2;
    try (exfalso; apply Hij; reflexivity);
    injection H1 as <-; injection H2 as <-;
    first [vm_compute; reflexivity | discriminate Hc].
Qed.

Lemma two_chromosomes_well_formed :
  Forall (fun l => l_chr l <> EmptyString /\ length (l_gts l) = 4%nat /\ ~ bad_line l)
         two_chromosomes.
Proof.
  repeat constructor; try discriminate;
    (eapply (line_sums_not_bad 30); vm_compute; reflexivity).
Qed.

(** With a step size between 1 and the window size, a run over lines without
    a bad token, all with the [n] genotype columns that the dosage arrays
    have room for, no two candidate sites of which exceed the threshold on
    one chromosome, and from a window whose slots have an empty chromosome
    field and are not Kept, ends without a fatal error and prints the
    candidate sites (the lines that are listed and pass both filters), all of
    them, once each and in file order, whatever the chromosomes and their
    order.  The bound on the step size is needed: see
    [step_above_window_drops]. *)
Theorem readVcf_keeps_candidates (win step geno_n : nat) (mis maf r2 : float) (n : nat)
    (lines : list vcf_line) (snps0 : list SNP_s) :
  (1 <= step <= win)%nat -> (0 < n <= geno_n)%nat -> lines <> [] ->
  Forall (fun l => l_chr l <> EmptyString /\ length (l_gts l) = n /\ ~ bad_line l) lines ->
  below_threshold geno_n mis maf r2 n lines ->
  length snps0 = win -> Forall (fun s => tomb s = true /\ ok s <> 1) snps0 ->
  exists st, readVcf win step geno_n mis maf r2 snps0 lines = inl st /\
             printed (log st)
             = map line_locus (List.filter (passes geno_n mis maf n) lines).
Proof.
  intros Hstep Hn Hne Hwf Hbelow Hl H0.
  apply (readVcf_keeps_all win step geno_n mis maf r2 n lines); auto. lia.
Qed.

Lemma readVcf_keeps_candidates_witness :
  exists st, readVcf 3 1 30 mis_06 maf_005 r2_01 (fresh 3 30) two_chromosomes = inl st /\
             printed (log st)
             = [("1", 10); ("1", 20); ("2", 5); ("2", 15)]%string.
Proof.
  destruct (readVcf_keeps_candidates 3 1 30 mis_06 maf_005 r2_01 4 two_chromosomes
              (fresh 3 30)) as (st & E & Hp).
  - lia.
  - lia.
  - discriminate.
  - exact two_chromosomes_well_formed.
  - exact two_chromosomes_below.
  - reflexivity.
  - repeat constructor; discriminate.
  - exists st. split; [exact E|]. rewrite Hp. vm_compute. reflexivity.
Defined.

(** With a step size above the window size, sites are overwritten before any
    evaluation has seen them: of the four candidate sites of
    [two_chromosomes], no two of which exceed the threshold on one
    chromosome, a window of one slot with step size 5 prints the last one
    only. *)
Lemma step_above_window_drops :
  below_threshold 30 mis_06 maf_005 r2_01 4 two_chromosomes /\
  map line_locus (List.filter (passes 30 mis_06 maf_005 4) two_chromosomes)
  = [("1", 10); ("1", 20); ("2", 5); ("2", 15)]%string /\
  printed (final_log (readVcf 1 5 30 mis_06 maf_005 r2_01 (fresh 1 30) two_chromosomes))
  = [("2", 15)]%string.
Proof.
  split; [exact two_chromosomes_below|]. split; vm_compute; reflexivity.
Qed.

(** ** The site list: [readSites] and the lookup in [readVcf] *)

Lemma ascii_compare_refl (a : ascii) : Ascii.compare a a = Eq.
Proof. unfold Ascii.compare. apply N.compare_refl. Qed.

Lemma ascii_compare_lt_trans (a b c : ascii) :
  Ascii.compare a b = Lt -> Ascii.compare b c = Lt -> Ascii.compare a c = Lt.
Proof.
  unfold Ascii.compare. rewrite !N.compare_lt_iff. lia.
Qed.

Lemma strcmp_refl (a : string) : strcmp a a = Eq.
Proof.
  unfold strcmp. induction a as [|c a IH]; [reflexivity|].
  cbn. rewrite ascii_compare_refl. exact IH.
Qed.

Lemma strcmp_eq (a b : string) : strcmp a b = Eq <-> a = b.
Proof.
  split; [apply String.compare_eq_iff | intros ->; apply strcmp_refl].
Qed.

Lemma strcmp_gt (a b : string) : strcmp a b = Gt <-> strcmp b a = Lt.
Proof.
  unfold strcmp. rewrite (String.compare_antisym b a).
  destruct (String.compare a b); cbn; split; congruence.
Qed.

Lemma strcmp_lt_trans (a b c : string) :
  strcmp a b = Lt -> strcmp b c = Lt -> strcmp a c = Lt.
Proof.
  unfold strcmp. revert b c.
  induction a as [|x a IH]; intros [|y b] [|z c]; cbn; try congruence.
  destruct (Ascii.compare x y) eqn:Exy; try discriminate;
    destruct (Ascii.compare y z) eqn:Eyz; try discriminate; intros H1 H2.
  - apply Ascii.compare_eq_iff in Exy, Eyz. subst.
    rewrite ascii_compare_refl. exact (IH _ _ H1 H2).
  - apply Ascii.compare_eq_iff in Exy. subst. rewrite Eyz. reflexivity.
  - apply Ascii.compare_eq_iff in Eyz. subst. rewrite Exy. reflexivity.
  - rewrite (ascii_compare_lt_trans x y z Exy Eyz). reflexivity.
Qed.

Lemma site_lt_le (a b : Site_s) : site_lt a b -> site_le a b.
Proof. intros [H | [H1 H2]]; [left; exact H | right; split; [exact H1 | lia]]. Qed.

Lemma site_lt_irrefl (a : Site_s) : ~ site_lt a a.
Proof.
  intros [H | [_ H]]; [rewrite strcmp_refl in H; discriminate | lia].
Qed.

Lemma site_le_trans (a b c : Site_s) : site_le a b -> site_le b c -> site_le a c.
Proof.
  intros [H1 | [E1 P1]] [H2 | [E2 P2]].
  - left. exact (strcmp_lt_trans _ _ _ H1 H2).
  - left. rewrite <- E2. exact H1.
  - left. rewrite E1. exact H2.
  - right. split; [congruence | lia].
Qed.

Lemma site_lt_le_trans (a b c : Site_s) : site_lt a b -> site_le b c -> site_lt a c.
Proof.
  intros [H1 | [E1 P1]] [H2 | [E2 P2]].
  - left. exact (strcmp_lt_trans _ _ _ H1 H2).
  - left. rewrite <- E2. exact H1.
  - left. rewrite E1. exact H2.
  - right. split; [congruence | lia].
Qed.

Lemma site_le_lt_trans (a b c : Site_s) : site_le a b -> site_lt b c -> site_lt a c.
Proof.
  intros [H1 | [E1 P1]] [H2 | [E2 P2]].
  - left. exact (strcmp_lt_trans _ _ _ H1 H2).
  - left. rewrite <- E2. exact H1.
  - left. rewrite E1. exact H2.
  - right. split; [congruence | lia].
Qed.

Lemma site_eq (a b : Site_s) : s_chr a = s_chr b -> s_pos a = s_pos b -> a = b.
Proof. destruct a, b. cbn. intros -> ->. reflexivity. Qed.

(** The test of [readSites] fails exactly on a pair in order. *)
Lemma out_of_order_false (prev s : Site_s) :
  out_of_order prev s = false <-> site_le prev s.
Proof.
  unfold out_of_order, site_le.
  destruct (strcmp (s_chr s) (s_chr prev)) eqn:E.
  - apply strcmp_eq in E. rewrite Z.ltb_ge. split.
    + intros H. right. split; [congruence | exact H].
    + intros [H | [_ H]]; [|exact H].
      rewrite E, strcmp_refl in H. discriminate.
  - split; [discriminate|]. intros [H | [H _]].
    + pose proof (strcmp_lt_trans _ _ _ E H) as H'.
      rewrite strcmp_refl in H'. discriminate.
    + rewrite H, strcmp_refl in E. discriminate.
  - apply strcmp_gt in E. split; [intros _; left; exact E | reflexivity].
Qed.

Lemma Sorted_snoc (l : list Site_s) (prev s : Site_s) :
  last l = Some prev -> Sorted site_le l -> site_le prev s -> Sorted site_le (l ++ [s]).
Proof.
  induction l as [|a l IH]; [discriminate|]. intros Hlast Hs Hle.
  apply Sorted_inv in Hs as [Hs Hhd].
  destruct l as [|b l].
  - injection Hlast as ->. cbn.
    constructor; [constructor; constructor | constructor; exact Hle].
  - cbn [app]. constructor.
    + apply IH; assumption.
    + constructor. inversion Hhd. assumption.
Qed.

Lemma Sorted_snoc_inv (l : list Site_s) (prev s : Site_s) :
  last l = Some prev -> Sorted site_le (l ++ [s]) -> site_le prev s.
Proof.
  induction l as [|a l IH]; [discriminate|]. intros Hlast Hs.
  cbn [app] in Hs. apply Sorted_inv in Hs as [Hs Hhd].
  destruct l as [|b l].
  - injection Hlast as ->. inversion Hhd. assumption.
  - apply IH; assumption.
Qed.

Lemma Sorted_app_l (l1 l2 : list Site_s) : Sorted site_le (l1 ++ l2) -> Sorted site_le l1.
Proof.
  induction l1 as [|a l1 IH]; [constructor|]. cbn [app]. intros H.
  apply Sorted_inv in H as [H Hhd]. constructor; [apply IH; exact H|].
  destruct l1; [constructor|]. inversion Hhd. constructor. assumption.
Qed.

Lemma readSites_from_spec (rows : list (option Site_s)) (lst l : list Site_s) :
  Sorted site_le lst ->
  (readSites_from lst rows = Some l <->
   l = lst ++ site_rows rows /\ Sorted site_le (lst ++ site_rows rows)).
Proof.
  unfold site_rows. revert lst.
  induction rows as [|[s|] rows IH]; intros lst Hs; cbn [readSites_from omap list_omap].
  - rewrite app_nil_r. split; [intros [= <-]; auto | intros [-> _]; reflexivity].
  - change (omap (fun r => r) (Some s :: rows)) with (s :: omap (fun r => r) rows).
    replace (lst ++ s :: omap (fun r => r) rows)
      with ((lst ++ [s]) ++ omap (fun r => r) rows) by (rewrite <- app_assoc; reflexivity).
    destruct (last lst) as [prev|] eqn:El.
    + destruct (out_of_order prev s) eqn:Eo.
      * split; [discriminate|]. intros [_ H]. exfalso.
        apply Sorted_app_l in H. apply (Sorted_snoc_inv _ _ _ El) in H.
        apply out_of_order_false in H. congruence.
      * apply IH. apply (Sorted_snoc lst prev s El Hs).
        apply out_of_order_false. exact Eo.
    + apply last_None in El. subst lst. apply IH.
      constructor; constructor.
  - change (omap (fun r => r) (None :: rows)) with (omap (fun r => r) rows).
    apply IH. exact Hs.
Qed.

Lemma readSites_spec (rows : list (option Site_s)) (l : list Site_s) :
  readSites rows = Some l <-> l = site_rows rows /\ StronglySorted site_le (site_rows rows).
Proof.
  unfold readSites. rewrite (readSites_from_spec rows [] l) by constructor.
  cbn [app]. split; intros [E H]; (split; [exact E|]).
  - apply Sorted_StronglySorted; [|exact H]. intros a b c. apply site_le_trans.
  - apply StronglySorted_Sorted. exact H.
Qed.

(** [readSites] returns normally exactly on a file whose entries are in
    order, each entry no later than every entry after it, and then returns
    the entries of the file, in the order of the file; on any other file it
    exits. *)
Theorem readSites_sorted (rows : list (option Site_s)) :
  (StronglySorted site_le (site_rows rows) -> readSites rows = Some (site_rows rows)) /\
  (~ StronglySorted site_le (site_rows rows) -> readSites rows = None) /\
  (forall l, readSites rows = Some l ->
             l = site_rows rows /\ StronglySorted site_le l).
Proof.
  split; [|split].
  - intros H. apply readSites_spec. auto.
  - intros H. destruct (readSites rows) as [l|] eqn:E; [|reflexivity].
    apply readSites_spec in E as [_ E]. contradiction.
  - intros l E. apply readSites_spec in E as [-> E]. auto.
Qed.

Lemma StronglySorted_lookup (l : list Site_s) (i j : nat) (a b : Site_s) :
  StronglySorted site_le l -> (i < j)%nat -> l !! i = Some a -> l !! j = Some b ->
  site_le a b.
Proof.
  intros Hs. revert i j. induction Hs as [|x l Hs IH Hx]; intros i j Hij Hi Hj.
  - discriminate.
  - destruct j as [|j]; [lia|]. destruct i as [|i].
    + injection Hi as <-. cbn in Hj.
      exact (proj1 (Forall_lookup _ _) Hx _ _ Hj).
    + cbn in Hi, Hj. apply (IH i j); [lia | assumption | assumption].
Qed.

(** What one lookup does to the cursor, and what its answer means, when the
    list is in order and every entry before the cursor is before the line. *)
Lemma site_scan_spec (sites : list Site_s) (c : string) (p : Z) (fuel i : nat) :
  StronglySorted site_le sites ->
  (length sites - i <= fuel)%nat ->
  (forall k s, (k < i)%nat -> sites !! k = Some s -> site_lt s (mkSite c p)) ->
  let r := site_scan sites c p i fuel in
  (i <= snd r)%nat /\
  (forall k s, (k < snd r)%nat -> sites !! k = Some s -> site_lt s (mkSite c p)) /\
  (fst r = true <-> In (mkSite c p) sites).
Proof.
  intros Hs. revert i. induction fuel as [|fuel IH]; intros i Hfuel Hinv.
  - cbn. split; [lia|]. split; [exact Hinv|]. split; [discriminate|].
    intros Hin. apply list_elem_of_In, list_elem_of_lookup in Hin as [k Hk].
    pose proof (lookup_lt_Some _ _ _ Hk) as Hlt.
    exfalso. apply (site_lt_irrefl (mkSite c p)). apply (Hinv k); [lia | exact Hk].
  - cbn [site_scan]. destruct (sites !! i) as [s|] eqn:Ei.
    2:{ cbn. split; [lia|]. split; [exact Hinv|]. split; [discriminate|].
        intros Hin. apply list_elem_of_In, list_elem_of_lookup in Hin as [k Hk].
        pose proof (lookup_lt_Some _ _ _ Hk) as Hlt.
        apply lookup_ge_None_1 in Ei.
        exfalso. apply (site_lt_irrefl (mkSite c p)). apply (Hinv k); [lia | exact Hk]. }
    assert (Hpast : site_lt (mkSite c p) s -> ~ In (mkSite c p) sites).
    { intros Hlt Hin. apply list_elem_of_In, list_elem_of_lookup in Hin as [k Hk].
      apply (site_lt_irrefl (mkSite c p)).
      destruct (Nat.lt_trichotomy k i) as [Hki | [-> | Hki]].
      - apply (Hinv k); assumption.
      - rewrite Hk in Ei. injection Ei as <-. exact Hlt.
      - apply (site_lt_le_trans _ s); [exact Hlt|].
        apply (StronglySorted_lookup sites i k); assumption. }
    assert (Hnext : site_lt s (mkSite c p) ->
              forall k s', (k < S i)%nat -> sites !! k = Some s' -> site_lt s' (mkSite c p)).
    { intros Hlt k s' Hk Hs'. destruct (decide (k = i)) as [->|Hne].
      - rewrite Hs' in Ei. injection Ei as ->. exact Hlt.
      - apply (Hinv k); [lia | exact Hs']. }
    destruct (strcmp c (s_chr s)) eqn:Ec.
    + apply strcmp_eq in Ec. destruct (Z.eqb_spec p (s_pos s)) as [Ep|Ep].
      * cbn. split; [lia|]. split; [exact Hinv|]. split; [|reflexivity].
        intros _. apply list_elem_of_In, list_elem_of_lookup. exists i.
        rewrite Ei. f_equal. apply site_eq; cbn; congruence.
      * destruct (Z.ltb_spec p (s_pos s)) as [Hp|Hp].
        -- cbn. split; [lia|]. split; [exact Hinv|]. split; [discriminate|].
           intros Hin. exfalso. apply Hpast; [|exact Hin].
           right. cbn. split; [exact Ec | exact Hp].
        -- assert (Hlt : site_lt s (mkSite c p)) by (right; cbn; split; [congruence | lia]).
           destruct (IH (S i)) as (H1 & H2 & H3); [lia | exact (Hnext Hlt) |].
           split; [lia|]. split; [exact H2 | exact H3].
    + cbn. split; [lia|]. split; [exact Hinv|]. split; [discriminate|].
      intros Hin. exfalso. apply Hpast; [|exact Hin]. left. exact Ec.
    + assert (Hlt : site_lt s (mkSite c p)) by (left; cbn; apply strcmp_gt; exact Ec).
      destruct (IH (S i)) as (H1 & H2 & H3); [lia | exact (Hnext Hlt) |].
      split; [lia|]. split; [exact H2 | exact H3].
Qed.

Lemma list_lines_spec (sites : list Site_s) (lines : list vcf_line) (i : nat) :
  StronglySorted site_le sites -> sites <> [] ->
  StronglySorted site_le (map line_site lines) ->
  (forall k s ln, (k < i)%nat -> sites !! k = Some s -> In ln lines ->
                  site_lt s (line_site ln)) ->
  Forall2 (fun ln ln' => exists b, ln' = set_listed b ln /\
                                   (b = true <-> In (line_site ln) sites))
          lines (list_lines sites i lines).
Proof.
  intros Hs Hne. revert i. induction lines as [|ln lines IH]; intros i Hl Hinv.
  - constructor.
  - cbn [list_lines].
    replace (0 <? length sites)%nat with true
      by (symmetry; apply Nat.ltb_lt; destruct sites; [contradiction | cbn; lia]).
    cbn [map] in Hl. apply StronglySorted_inv in Hl as [Hl Hhd].
    destruct (site_scan_spec sites (l_chr ln) (l_pos ln) (length sites - i) i Hs)
      as (H1 & H2 & H3); [lia | |].
    { intros k s Hk Hsk. apply (Hinv k s ln Hk Hsk). left. reflexivity. }
    fold (lookup_site sites (l_chr ln) (l_pos ln) i) in H1, H2, H3.
    constructor.
    + exists (fst (lookup_site sites (l_chr ln) (l_pos ln) i)).
      split; [reflexivity | exact H3].
    + apply IH; [exact Hl|]. intros k s ln' Hk Hsk Hin.
      apply (site_lt_le_trans _ (line_site ln)); [apply (H2 k); assumption|].
      rewrite Forall_forall in Hhd. apply Hhd.
      apply list_elem_of_In. apply in_map. exact Hin.
Qed.

(** With a site list that [readSites] accepted, not empty, and a VCF file in
    the same order, a line is read exactly when its chromosome and position
    are in the list. *)
Theorem listed_iff_in_site_list (rows : list (option Site_s)) (sites : list Site_s)
    (lines : list vcf_line) :
  readSites rows = Some sites -> sites <> [] ->
  StronglySorted site_le (map line_site lines) ->
  Forall2 (fun ln ln' => exists b, ln' = set_listed b ln /\
                                   (b = true <-> In (line_site ln) sites))
          lines (list_lines sites 0 lines).
Proof.
  intros Hr Hne Hl. apply readSites_spec in Hr as [-> Hs].
  apply list_lines_spec; [exact Hs | exact Hne | exact Hl|].
  intros k s ln Hk. lia.
Qed.

Lemma listed_iff_in_site_list_witness :
  Forall2 (fun ln ln' => exists b, ln' = set_listed b ln /\
             (b = true <-> In (line_site ln)
                              [mkSite "1" 10; mkSite "1" 30; mkSite "2" 5]))
          two_chromosomes
          (list_lines [mkSite "1" 10; mkSite "1" 30; mkSite "2" 5] 0 two_chromosomes).
Proof.
  apply (listed_iff_in_site_list
           [Some (mkSite "1" 10); None; Some (mkSite "1" 30); Some (mkSite "2" 5)]).
  - reflexivity.
  - discriminate.
  - repeat match goal with
           | |- StronglySorted _ _ => constructor
           | |- List.Forall _ _ => constructor
           | |- site_le _ _ =>
               first [left; reflexivity | right; split; [reflexivity | cbn; lia]]
           end.
Defined.

Lemma site_scan_sound (sites : list Site_s) (c : string) (p : Z) (fuel i : nat) :
  let r := site_scan sites c p i fuel in
  (i <= snd r <= i + fuel)%nat /\
  (fst r = true -> sites !! snd r = Some (mkSite c p)).
Proof.
  revert i. induction fuel as [|fuel IH]; intros i; cbn [site_scan].
  - cbn. split; [lia | discriminate].
  - destruct (sites !! i) as [s|] eqn:Ei; [|cbn; split; [lia | discriminate]].
    destruct (strcmp c (s_chr s)) eqn:Ec.
    + apply strcmp_eq in Ec. destruct (Z.eqb_spec p (s_pos s)) as [Ep|Ep].
      * cbn. split; [lia|]. intros _. rewrite Ei. f_equal.
        apply site_eq; cbn; congruence.
      * destruct (p <? s_pos s); [cbn; split; [lia | discriminate]|].
        destruct (IH (S i)) as [H1 H2]. split; [lia | exact H2].
    + cbn. split; [lia | discriminate].
    + destruct (IH (S i)) as [H1 H2]. split; [lia | exact H2].
Qed.

(** Whatever the order of the list and of the file: the cursor into the
    site list only moves forward and never passes the end of the list, and a
    line is reported as listed only if the entry under the cursor on exit is
    its chromosome and position. *)
Lemma lookup_site_sound (sites : list Site_s) (c : string) (p : Z) (i : nat) :
  let r := lookup_site sites c p i in
  (i <= snd r)%nat /\ (snd r <= Nat.max i (length sites))%nat /\
  (fst r = true -> sites !! snd r = Some (mkSite c p)).
Proof.
  cbv zeta. unfold lookup_site.
  destruct (site_scan_sound sites c p (length sites - i) i) as [H1 H2].
  split; [lia|]. split; [lia | exact H2].
Qed.

(** Without a site list, or with one that has no entry, every line is
    read; with a list, whatever its order, a line is read only if its
    chromosome and position are in the list. *)
Theorem list_lines_sound (sites : list Site_s) (lines : list vcf_line) (i : nat) :
  Forall2 (fun ln ln' => exists b, ln' = set_listed b ln /\
             (sites = [] -> b = true) /\
             (sites <> [] -> b = true -> In (line_site ln) sites))
          lines (list_lines sites i lines).
Proof.
  revert i. induction lines as [|ln lines IH]; intros i; cbn [list_lines];
    [constructor|].
  destruct sites as [|s0 sites'] eqn:Es.
  - cbn. constructor; [|apply IH].
    exists true. split; [reflexivity|]. split; [reflexivity | contradiction].
  - rewrite <- Es in *.
    replace (0 <? length sites)%nat with true by (rewrite Es; reflexivity).
    constructor; [|apply IH].
    exists (fst (lookup_site sites (l_chr ln) (l_pos ln) i)).
    split; [reflexivity|]. split; [intros E; rewrite E in Es; discriminate|].
    intros _ Hb.
    destruct (lookup_site_sound sites (l_chr ln) (l_pos ln) i) as (_ & _ & H).
    apply list_elem_of_In. eapply list_elem_of_lookup_2. exact (H Hb).
Qed.

(** ** [estR2] does not depend on the order of its two vectors *)

Lemma SFmul_comm (x y : SpecFloat.spec_float) :
  SpecFloat.SFmul prec emax x y = SpecFloat.SFmul prec emax y x.
Proof.
  destruct x as [sx| sx | |sx mx ex], y as [sy| sy | |sy my ey]; cbn;
    rewrite ?(xorb_comm sx sy); try reflexivity.
  rewrite (Pos.mul_comm mx my), (Z.add_comm ex ey). reflexivity.
Qed.

Lemma double_mul_comm (x y : float) : (x * y = y * x)%float.
Proof.
  apply FloatAxioms.Prim2SF_inj. rewrite !FloatAxioms.mul_spec. apply SFmul_comm.
Qed.

(** The sums with the roles of the two vectors exchanged. *)
Lemma r2_step_swap (g1 g2 : list float) (a : r2_acc) (i : nat) :
  r2_step g2 g1 (mkAcc (acc_n a) (sum2 a) (sum1 a) (sum12 a) (sqsum2 a) (sqsum1 a)) i
  = let b := r2_step g1 g2 a i in
    mkAcc (acc_n b) (sum2 b) (sum1 b) (sum12 b) (sqsum2 b) (sqsum1 b).
Proof.
  unfold r2_step. cbv zeta. rewrite orb_comm.
  destruct (_ || _); cbn [acc_n sum1 sum2 sum12 sqsum1 sqsum2]; [reflexivity|].
  rewrite (double_mul_comm (nth i g2 0%float) (nth i g1 0%float)). reflexivity.
Qed.

Lemma r2_fold_swap (g1 g2 : list float) (l : list nat) (a : r2_acc) :
  fold_left (r2_step g2 g1) l
            (mkAcc (acc_n a) (sum2 a) (sum1 a) (sum12 a) (sqsum2 a) (sqsum1 a))
  = let b := fold_left (r2_step g1 g2) l a in
    mkAcc (acc_n b) (sum2 b) (sum1 b) (sum12 b) (sqsum2 b) (sqsum1 b).
Proof.
  revert a. induction l as [|i l IH]; intros a; [reflexivity|].
  cbn [fold_left]. rewrite r2_step_swap. cbv zeta. apply IH.
Qed.

(** [estR2 (a, b, n)] and [estR2 (b, a, n)] are the same binary64 value:
    the forward-only scan of [estLD] misses nothing by testing each pair
    once. *)
Theorem estR2_symmetric (geno1 geno2 : list float) (n : nat) :
  estR2 geno1 geno2 n = estR2 geno2 geno1 n.
Proof.
  unfold estR2, r2_sums.
  change (r2_init n) with
    (mkAcc (acc_n (r2_init n)) (sum2 (r2_init n)) (sum1 (r2_init n))
           (sum12 (r2_init n)) (sqsum2 (r2_init n)) (sqsum1 (r2_init n))) at 2.
  rewrite r2_fold_swap. cbv zeta.
  set (b := fold_left (r2_step geno1 geno2) (seq 0 n) (r2_init n)).
  unfold r2_finish, r2_num, r2_den, r2_var1, r2_var2.
  cbn [acc_n sum1 sum2 sum12 sqsum1 sqsum2].
  rewrite (double_mul_comm (sum2 b) (sum1 b)).
  rewrite (double_mul_comm (double_of_int (acc_n b) * sqsum2 b - sum2 b * sum2 b)%float).
  reflexivity.
Qed.

(** ** The population file: [readPops] *)

Lemma find_pop_some (pops : list string) (name : string) (fuel i j : nat) :
  find_pop pops name i fuel = Some j ->
  (i <= j < i + fuel)%nat /\ nth j pops EmptyString = name /\
  forall k, (i <= k < j)%nat -> nth k pops EmptyString <> name.
Proof.
  revert i. induction fuel as [|fuel IH]; intros i H; cbn [find_pop] in H; [discriminate|].
  destruct (String.eqb_spec (nth i pops EmptyString) name) as [E|E].
  - injection H as <-. split; [lia|]. split; [exact E|]. intros k Hk. lia.
  - destruct (IH _ H) as (H1 & H2 & H3). split; [lia|]. split; [exact H2|].
    intros k Hk. destruct (decide (k = i)) as [->|Hne]; [exact E | apply H3; lia].
Qed.

Lemma find_pop_none (pops : list string) (name : string) (fuel i : nat) :
  find_pop pops name i fuel = None ->
  forall k, (i <= k < i + fuel)%nat -> nth k pops EmptyString <> name.
Proof.
  revert i. induction fuel as [|fuel IH]; intros i H k Hk; [lia|].
  cbn [find_pop] in H.
  destruct (String.eqb_spec (nth i pops EmptyString) name) as [E|E]; [discriminate|].
  destruct (decide (k = i)) as [->|Hne]; [exact E | apply (IH _ H); lia].
Qed.

Lemma nth_lookup_string (pops : list string) (j : nat) (name : string) :
  name <> EmptyString -> nth j pops EmptyString = name -> pops !! j = Some name.
Proof.
  intros Hne H. destruct (pops !! j) as [x|] eqn:E.
  - rewrite (nth_lookup_Some _ _ EmptyString _ E) in H. congruence.
  - rewrite nth_overflow in H by (apply lookup_ge_None_1; exact E). congruence.
Qed.

Lemma pops_step_inv (st : list Pop_s * list string) (row : string * string) :
  snd row <> EmptyString -> pops_inv st ->
  pops_inv (pops_step st row) /\
  map p_ind (fst (pops_step st row)) = map p_ind (fst st) ++ [fst row] /\
  map p_pop (fst (pops_step st row)) = map p_pop (fst st) ++ [snd row].
Proof.
  destruct st as [lst pops], row as [ind pop]. cbn [fst snd].
  intros Hne (Hnd & Hidx & Hmem & Hused).
  cbn [fst snd] in Hnd, Hidx, Hmem, Hused.
  unfold pops_step, pops_inv. cbn [fst snd].
  destruct lst as [|e0 lst'] eqn:El.
  - (* the first entry: the table gets its first name *)
    assert (pops = []) as ->.
    { destruct pops as [|x pops']; [reflexivity|]. exfalso.
      assert (H : x ∈ map p_pop []) by (apply Hmem; left). inversion H. }
    cbn [find_pop nth List.length]. rewrite String.eqb_refl. cbn [fst snd app map].
    split; [|split; reflexivity]. split; [|split; [|split]].
    + apply NoDup_singleton.
    + constructor; [reflexivity | constructor].
    + intros name. reflexivity.
    + intros k Hk. cbn in Hk. exists (mkPop 0 ind pop).
      split; [left | cbn; lia].
  - rewrite <- El in *. clear El e0 lst'.
    destruct (find_pop pops pop 0 (S (List.length pops))) as [j|] eqn:Ef; cbn [fst snd].
    + apply find_pop_some in Ef as (_ & Ej & _).
      apply (nth_lookup_string _ _ _ Hne) in Ej.
      rewrite !map_app. cbn [map p_ind p_pop].
      split; [|split; reflexivity]. split; [exact Hnd|]. split; [|split].
      * apply Forall_app. split; [exact Hidx|]. constructor; [exact Ej | constructor].
      * intros name. rewrite elem_of_app, list_elem_of_singleton, <- Hmem.
        split; [auto|]. intros [H | ->]; [exact H|].
        eapply list_elem_of_lookup_2. exact Ej.
      * intros k Hk. destruct (Hused k Hk) as (e & He & Hek).
        exists e. split; [apply elem_of_app; left; exact He | exact Hek].
    + pose proof (find_pop_none _ _ _ _ Ef) as Hnone.
      assert (Hnot : pop ∉ pops).
      { intros Hin. apply list_elem_of_lookup in Hin as [j Hj].
        pose proof (lookup_lt_Some _ _ _ Hj) as Hlt.
        apply (Hnone j); [lia|]. exact (nth_lookup_Some _ _ EmptyString _ Hj). }
      rewrite !map_app. cbn [map p_ind p_pop].
      split; [|split; reflexivity]. split; [|split; [|split]].
      * apply NoDup_app. split; [exact Hnd|]. split; [|apply NoDup_singleton].
        intros x Hx Hx'. apply list_elem_of_singleton in Hx'. subst x. contradiction.
      * apply Forall_app. split.
        -- eapply Forall_impl; [exact Hidx|]. intros e He.
           apply lookup_app_l_Some. exact He.
        -- constructor; [|constructor]. cbn [p_idx p_pop].
           apply list_lookup_middle. reflexivity.
      * intros name. rewrite !elem_of_app, Hmem, !list_elem_of_singleton. reflexivity.
      * intros k Hk. rewrite List.length_app in Hk. cbn [List.length] in Hk.
        destruct (decide (k < List.length pops)%nat) as [Hlt|Hge].
        -- destruct (Hused k Hlt) as (e & He & Hek).
           exists e. split; [apply elem_of_app; left; exact He | exact Hek].
        -- exists (mkPop (List.length pops) ind pop).
           split; [apply elem_of_app; right; left | cbn; lia].
Qed.

Lemma pops_fold_inv (rows : list (string * string)) (st : list Pop_s * list string) :
  Forall (fun r => snd r <> EmptyString) rows -> pops_inv st ->
  let st' := fold_left pops_step rows st in
  pops_inv st' /\
  map p_ind (fst st') = map p_ind (fst st) ++ map fst rows /\
  map p_pop (fst st') = map p_pop (fst st) ++ map snd rows.
Proof.
  revert st. induction rows as [|row rows IH]; intros st Hrows Hinv; cbn [fold_left map].
  - rewrite !app_nil_r. auto.
  - pose proof (List.Forall_inv Hrows) as Hrow.
    pose proof (List.Forall_inv_tail Hrows) as Hrest.
    destruct (pops_step_inv st row Hrow Hinv) as (H1 & H2 & H3).
    destruct (IH _ Hrest H1) as (I1 & I2 & I3).
    split; [exact I1|]. rewrite I2, I3, H2, H3, <- !app_assoc. auto.
Qed.

(** On a population file with at least one entry [readPops] returns the
    entries in the order of the file, each with an index into the table of
    population names under which its own population is found; the table has
    every population of the file once and no other name, and every index
    below its length is in use. *)
Theorem readPops_table (rows : list (string * string)) :
  rows <> [] -> Forall (fun r => snd r <> EmptyString) rows ->
  exists lst pops,
    readPops rows = Some (lst, pops) /\
    map p_ind lst = map fst rows /\ map p_pop lst = map snd rows /\
    NoDup pops /\
    Forall (fun e => pops !! p_idx e = Some (p_pop e)) lst /\
    (forall name, name ∈ pops <-> name ∈ map snd rows) /\
    (forall k, (k < List.length pops)%nat -> exists e, e ∈ lst /\ p_idx e = k).
Proof.
  intros Hne Hrows.
  destruct (pops_fold_inv rows ([], []) Hrows) as ((H1 & H2 & H3 & H4) & H5 & H6).
  { split; [constructor|]. split; [constructor|]. split; [reflexivity|].
    intros k Hk. cbn in Hk. lia. }
  exists (fst (fold_left pops_step rows ([], []))), (snd (fold_left pops_step rows ([], []))).
  split; [destruct rows; [contradiction|]; unfold readPops; rewrite <- surjective_pairing;
          reflexivity|].
  cbn [map app] in H5, H6. rewrite H6 in H3. auto 10.
Qed.

Lemma readPops_table_witness :
  exists lst pops,
    readPops [("a1", "north"); ("b1", "south"); ("a2", "north")]%string = Some (lst, pops) /\
    map p_ind lst = ["a1"; "b1"; "a2"]%string /\
    map p_pop lst = ["north"; "south"; "north"]%string /\
    NoDup pops /\
    Forall (fun e => pops !! p_idx e = Some (p_pop e)) lst.
Proof.
  destruct (readPops_table [("a1", "north"); ("b1", "south"); ("a2", "north")]%string)
    as (lst & pops & H1 & H2 & H3 & H4 & H5 & _).
  - discriminate.
  - repeat constructor; discriminate.
  - exists lst, pops. auto.
Defined.

(** ** Allele counts per population *)

(** With alleles ['0'] and ['1'] only, the allele loop adds the number of
    ['1'] to both of its sums. *)
Lemma allele_loop_exact (hp : string) (cnt : nat) (k k' : Z) :
  String.length hp = (2 * cnt - 1)%nat -> (1 <= cnt)%nat ->
  0 <= k -> k + Z.of_nat cnt < 2 ^ 53 -> 0 <= k' -> k' + Z.of_nat cnt < 2 ^ 53 ->
  forallb is_allele (even_chars hp) = true ->
  allele_loop hp 0 cnt (double_of_int k) (double_of_int k')
  = Some (double_of_int (k + ones hp), double_of_int (k' + ones hp)).
Proof.
  revert cnt k k'. induction hp as [|a|a b r IH] using string_ind2;
    intros cnt k k' Hlen Hcnt Hk Hb Hk' Hb' Hall.
  - cbn [String.length] in Hlen. lia.
  - assert (cnt = 1%nat) as -> by (cbn [String.length] in Hlen; lia).
    cbn [even_chars forallb] in Hall. rewrite andb_true_r in Hall.
    cbn [allele_loop String.get]. rewrite Hall.
    apply is_allele_cases in Hall. destruct Hall as [-> | ->].
    + change (allele_value "0") with 0. rewrite !double_add_exact by lia. reflexivity.
    + change (allele_value "1") with 1. rewrite !double_add_exact by lia. reflexivity.
  - destruct cnt as [|cnt]; [lia|].
    cbn [even_chars forallb] in Hall. apply andb_true_iff in Hall as [Ha Hr].
    cbn [allele_loop String.get]. rewrite Ha.
    change (0 + 2)%nat with 2%nat. rewrite allele_loop_shift, ones_step.
    assert (Hlen' : String.length r = (2 * cnt - 1)%nat) by (cbn [String.length] in Hlen; lia).
    assert (Hcnt' : (1 <= cnt)%nat).
    { destruct cnt; [|lia]. cbn in Hlen. discriminate. }
    apply is_allele_cases in Ha. destruct Ha as [-> | ->].
    + change (allele_value "0") with 0. rewrite !double_add_exact by lia.
      rewrite (IH cnt (k + 0) (k' + 0)) by (auto; lia).
      change (Ascii.eqb "1" "0") with false. cbv iota.
      replace (k + (0 + ones r)) with (k + 0 + ones r) by lia.
      replace (k' + (0 + ones r)) with (k' + 0 + ones r) by lia. reflexivity.
    + change (allele_value "1") with 1. rewrite !double_add_exact by lia.
      rewrite (IH cnt (k + 1) (k' + 1)) by (auto; lia).
      change (Ascii.eqb "1" "1") with true. cbv iota.
      replace (k + (1 + ones r)) with (k + 1 + ones r) by lia.
      replace (k' + (1 + ones r)) with (k' + 1 + ones r) by lia. reflexivity.
Qed.

(** The outcome of the dosage extraction on whole-number sums. *)
Lemma extract_exact (hp : string) (k k' : Z) :
  0 <= k -> k + 8 < 2 ^ 53 -> 0 <= k' -> k' + 8 < 2 ^ 53 ->
  match extract hp (double_of_int k) (double_of_int k') with
  | Missing => String.get 0 hp = Some dot
  | Dosage c1 alt_i ploidy =>
      String.get 0 hp <> Some dot /\ supported_length (String.length hp) /\
      c1 = double_of_int (k + ones hp) /\ alt_i = double_of_int (k' + ones hp) /\
      ploidy = double_of_int (Z.of_nat (String.length hp + 1) / 2)
  | BadPloidy | BadAllele => True
  end.
Proof.
  intros Hk Hb Hk' Hb'.
  assert (Hdec : String.get 0 hp = Some dot \/ String.get 0 hp <> Some dot).
  { destruct (String.get 0 hp) as [c|]; [|right; discriminate].
    destruct (Ascii.ascii_dec c dot) as [->|Hne]; [left; reflexivity|].
    right. intros [= E]. contradiction. }
  destruct Hdec as [Hd|Hd].
  - rewrite (extract_missing _ _ _ Hd). exact Hd.
  - rewrite (extract_present _ _ _ Hd).
    destruct (ploidy_of_length (String.length hp)) as [[pl stop]|] eqn:Ep; [|exact I].
    apply ploidy_of_length_some in Ep as (Hs & Hlen & ->).
    destruct (forallb is_allele (even_chars hp)) eqn:Hall.
    + assert (Hc : (stop / 2 + 1 <= 8)%nat).
      { destruct Hs as [E | [E | [E | E]]]; rewrite E in Hlen; lia. }
      rewrite (allele_loop_exact hp (stop / 2 + 1) k k') by (auto; lia).
      auto.
    + apply (allele_loop_none hp (stop / 2 + 1) (double_of_int k) (double_of_int k'))
        in Hall; [|exact Hlen | lia].
      rewrite Hall. exact I.
Qed.

Lemma cols_of_cons (q : nat) (col : option nat * string) (cols : list (option nat * string)) :
  cols_of q (col :: cols)
  = match fst col with
    | Some q' => if (q' =? q)%nat then snd col :: cols_of q cols else cols_of q cols
    | None => cols_of q cols
    end.
Proof.
  unfold cols_of. cbn [List.filter]. destruct (fst col) as [q'|]; [|reflexivity].
  destruct (q' =? q)%nat; reflexivity.
Qed.

Lemma cols_mapped_cons (col : option nat * string) (cols : list (option nat * string)) :
  cols_mapped (col :: cols)
  = match fst col with
    | Some _ => snd col :: cols_mapped cols
    | None => cols_mapped cols
    end.
Proof.
  unfold cols_mapped. cbn [List.filter]. destruct (fst col); reflexivity.
Qed.

Section FreqLoop.
Variables (pop_n : nat) (c : string) (p : Z).

Lemma freq_loop_sums (cols : list (option nat * string)) (a a' : freq_acc)
    (T A : nat -> Z) (M AL H : Z) :
  freq_loop c p a cols = inl a' ->
  exact_acc pop_n T A M AL H a ->
  (forall q, 0 <= T q /\ 0 <= A q) -> 0 <= M -> 0 <= AL -> 0 <= H ->
  (forall q, T q + 8 * Z.of_nat (List.length cols) < 2 ^ 53 /\
             A q + 8 * Z.of_nat (List.length cols) < 2 ^ 53) ->
  M + Z.of_nat (List.length cols) < 2 ^ 53 ->
  AL + 8 * Z.of_nat (List.length cols) < 2 ^ 53 ->
  H + 8 * Z.of_nat (List.length cols) < 2 ^ 53 ->
  Forall (fun col => forall q, fst col = Some q -> (q < pop_n)%nat) cols ->
  exact_acc pop_n (fun q => T q + ploidy_sum (cols_of q cols))
            (fun q => A q + ones_sum (cols_of q cols))
            (M + n_missing (cols_mapped cols)) (AL + ones_sum (cols_mapped cols))
            (H + ploidy_sum (cols_mapped cols)) a'.
Proof.
  revert a T A M AL H.
  induction cols as [|col cols IH]; intros a T A M AL H Hl Hex HTA HM HAL HH BTA BM BAL BH Hq.
  - cbn in Hl. injection Hl as <-. destruct Hex as (E1 & E2 & E3 & E4 & E5).
    unfold exact_acc, cols_of, cols_mapped, n_missing.
    cbn [List.filter map ploidy_sum ones_sum List.length].
    rewrite !Z.add_0_r. split; [exact E1|]. split; [|auto].
    intros q Hqn. rewrite !Z.add_0_r. apply E2. exact Hqn.
  - cbn [freq_loop] in Hl. cbn [List.length] in BTA, BM, BAL, BH.
    pose proof (List.Forall_inv Hq) as Hq0.
    pose proof (List.Forall_inv_tail Hq) as Hqr.
    destruct Hex as (E1 & E2 & E3 & E4 & E5).
    unfold freq_step in Hl. destruct col as [[q0|] f]; cbn [fst snd] in Hl, Hq0.
    2:{ (* a column of no population *)
        assert (Hgoal : exact_acc pop_n (fun q => T q + ploidy_sum (cols_of q cols))
                  (fun q => A q + ones_sum (cols_of q cols))
                  (M + n_missing (cols_mapped cols)) (AL + ones_sum (cols_mapped cols))
                  (H + ploidy_sum (cols_mapped cols)) a').
        { apply (IH a T A M AL H); auto; try lia.
          - unfold exact_acc. auto.
          - intros q. destruct (BTA q). lia. }
        destruct Hgoal as (G1 & G2 & G3 & G4 & G5).
        unfold exact_acc. rewrite cols_mapped_cons. cbn [fst].
        split; [exact G1|]. split; [|auto].
        intros q Hqn. rewrite cols_of_cons. cbn [fst]. apply G2. exact Hqn. }
    specialize (Hq0 q0 eq_refl).
    rewrite (E2 q0 Hq0), E4 in Hl. cbn [fst snd] in Hl.
    destruct (HTA q0) as [HT0 HA0]. destruct (BTA q0) as [BT0 BA0].
    pose proof (extract_exact (gt_token f) (A q0) AL HA0 ltac:(lia) HAL ltac:(lia)) as Hx.
    destruct (extract (gt_token f) (double_of_int (A q0)) (double_of_int AL))
      as [|c1 alt' pl| |] eqn:Ex; try discriminate.
    + (* a missing genotype *)
      apply is_missing_iff in Hx.
      assert (Hgoal : exact_acc pop_n (fun q => T q + ploidy_sum (cols_of q cols))
                (fun q => A q + ones_sum (cols_of q cols))
                (M + 1 + n_missing (cols_mapped cols)) (AL + ones_sum (cols_mapped cols))
                (H + ploidy_sum (cols_mapped cols)) a').
      { apply (IH _ T A (M + 1) AL H Hl); auto; try lia.
        - unfold exact_acc. cbn [fa_counts fa_mis fa_alt fa_hapn].
          split; [exact E1|]. split; [exact E2|]. split; [|auto].
          rewrite E3. change 1%float with (double_of_int 1).
          apply double_add_exact; lia.
        - intros q. destruct (BTA q). lia. }
      destruct Hgoal as (G1 & G2 & G3 & G4 & G5).
      unfold exact_acc. rewrite cols_mapped_cons. cbn [fst snd].
      rewrite n_missing_cons. cbn [ploidy_sum ones_sum]. rewrite Hx.
      split; [exact G1|]. split; [|split; [rewrite G3; f_equal; lia | auto]].
      intros q Hqn. rewrite cols_of_cons. cbn [fst snd].
      destruct (q0 =? q)%nat; [|apply G2; exact Hqn].
      cbn [ploidy_sum ones_sum]. rewrite Hx. apply G2. exact Hqn.
    + (* a called genotype *)
      destruct Hx as (Hd & Hs & -> & -> & ->).
      set (P := Z.of_nat (String.length (gt_token f) + 1) / 2) in *.
      set (O := ones (gt_token f)) in *.
      assert (HP : 2 <= P <= 8).
      { subst P. destruct Hs as [-> | [-> | [-> | ->]]]; vm_compute; split; discriminate. }
      assert (HO : 0 <= O <= P) by (apply ones_bounds).
      assert (Hm : is_missing f = false).
      { destruct (is_missing f) eqn:Em; [|reflexivity].
        apply is_missing_iff in Em. contradiction. }
      assert (Hgoal : exact_acc pop_n
                (fun q => (if (q0 =? q)%nat then T q + P else T q) + ploidy_sum (cols_of q cols))
                (fun q => (if (q0 =? q)%nat then A q + O else A q) + ones_sum (cols_of q cols))
                (M + n_missing (cols_mapped cols)) (AL + O + ones_sum (cols_mapped cols))
                (H + P + ploidy_sum (cols_mapped cols)) a').
      { apply (IH _ _ _ M (AL + O) (H + P) Hl); auto; try lia.
        - unfold exact_acc. cbn [fa_counts fa_mis fa_alt fa_hapn].
          rewrite length_insert. split; [exact E1|]. split; [|split; [exact E3|split]].
          + intros q Hqn. destruct (Nat.eqb_spec q0 q) as [<-|Hne].
            * rewrite (nth_lookup_Some _ _ _ (double_of_int (T q0) + double_of_int P,
                                            double_of_int (A q0 + O))%float).
              -- rewrite double_add_exact by lia. reflexivity.
              -- apply list_lookup_insert_eq. lia.
            * rewrite nth_lookup, list_lookup_insert_ne by exact Hne.
              rewrite <- nth_lookup. apply E2. exact Hqn.
          + reflexivity.
          + rewrite E5. apply double_add_exact; lia.
        - intros q. destruct (HTA q). destruct (q0 =? q)%nat; lia.
        - intros q. destruct (BTA q). destruct (q0 =? q)%nat; lia. }
      destruct Hgoal as (G1 & G2 & G3 & G4 & G5).
      unfold exact_acc. rewrite cols_mapped_cons. cbn [fst snd].
      rewrite n_missing_cons. cbn [ploidy_sum ones_sum]. rewrite Hm.
      fold P O.
      split; [exact G1|]. split; [|split; [rewrite G3; f_equal; lia|split]].
      * intros q Hqn. rewrite cols_of_cons. cbn [fst snd]. rewrite (G2 q Hqn).
        destruct (q0 =? q)%nat; [|reflexivity].
        cbn [ploidy_sum ones_sum]. rewrite Hm. fold P O. f_equal; f_equal; lia.
      * rewrite G4. f_equal. lia.
      * rewrite G5. f_equal. lia.
Qed.
End FreqLoop.

Lemma ploidy_sum_nonneg (fs : list string) : 0 <= ploidy_sum fs.
Proof.
  induction fs as [|f fs IH]; cbn [ploidy_sum]; [lia|].
  destruct (is_missing f); [lia|].
  pose proof (Z.div_pos (Z.of_nat (String.length (gt_token f) + 1)) 2). lia.
Qed.

Lemma ploidy_sum_missing (fs : list string) :
  Forall (fun f => is_missing f = true) fs -> ploidy_sum fs = 0 /\ ones_sum fs = 0.
Proof.
  induction 1 as [|f fs Hf _ [IH1 IH2]]; [split; reflexivity|].
  cbn [ploidy_sum ones_sum]. rewrite Hf, IH1, IH2. split; reflexivity.
Qed.

Lemma freq_line_counts (pop_n ind_n : nat) (mis maf : float) (pop_l : list (option nat))
    (ln : vcf_line) (counts : list (float * float)) :
  freq_line pop_n ind_n mis maf pop_l ln = inl (Some counts) ->
  8 * Z.of_nat (List.length (l_gts ln)) < 2 ^ 53 ->
  Forall (fun o => forall q, o = Some q -> (q < pop_n)%nat) pop_l ->
  forall q, (q < pop_n)%nat ->
    nth q counts (0%float, 0%float)
    = (double_of_int (ploidy_sum (cols_of q (zip pop_l (l_gts ln)))),
       double_of_int (ones_sum (cols_of q (zip pop_l (l_gts ln))))).
Proof.
  unfold freq_line. intros Hl Hb Hq q Hqn.
  destruct (negb (l_listed ln)); [discriminate|].
  set (cols := zip pop_l (l_gts ln)) in *.
  destruct (freq_loop _ _ _ cols) as [a|e] eqn:El; [|discriminate].
  assert (Hlen : Z.of_nat (List.length cols) <= Z.of_nat (List.length (l_gts ln))).
  { unfold cols. rewrite length_zip. lia. }
  assert (Hex0 : exact_acc pop_n (fun _ => 0) (fun _ => 0) 0 0 0
            (mkFacc (replicate pop_n (0%float, 0%float)) 0 0%float 0%float 0%float)).
  { unfold exact_acc. cbn [fa_counts fa_mis fa_alt fa_hapn].
    rewrite length_replicate. split; [reflexivity|]. split; [|auto].
    intros q' Hq'. rewrite (nth_lookup_Some _ _ _ (0%float, 0%float)); [reflexivity|].
    apply lookup_replicate_2. exact Hq'. }
  assert (HF : Forall (fun col => forall q, fst col = Some q -> (q < pop_n)%nat) cols).
  { unfold cols. apply Forall_forall. intros [o f] Hin q' Ho. cbn [fst] in Ho. subst o.
    apply elem_of_zip_l in Hin. rewrite Forall_forall in Hq. exact (Hq _ Hin q' eq_refl). }
  pose proof (freq_loop_sums pop_n _ _ cols _ a (fun _ => 0) (fun _ => 0) 0 0 0 El Hex0
                ltac:(intros; lia) ltac:(lia) ltac:(lia) ltac:(lia)
                ltac:(intros; lia) ltac:(lia) ltac:(lia) ltac:(lia) HF)
    as (_ & E2 & _).
  destruct (mis_fails _ _ _); [discriminate|].
  destruct (maf_fails _ _ _); [discriminate|].
  injection Hl as <-. rewrite (E2 q Hqn). reflexivity.
Qed.

(** In the mode without [-r2], the two counts that [printOut] gets for a
    population are whole numbers held exactly: the summed ploidy and the
    number of ['1'] alleles of the genotype columns of that population that
    are not missing; the frequency written is their quotient, rounded once. *)
Theorem freq_counts_exact (pop_n ind_n : nat) (mis maf : float) (pop_l : list (option nat))
    (ln : vcf_line) (counts : list (float * float)) (q : nat) :
  freq_line pop_n ind_n mis maf pop_l ln = inl (Some counts) ->
  8 * Z.of_nat (List.length (l_gts ln)) < 2 ^ 53 ->
  Forall (fun o => forall q, o = Some q -> (q < pop_n)%nat) pop_l ->
  (q < pop_n)%nat ->
  let fields := cols_of q (zip pop_l (l_gts ln)) in
  nth q counts (0%float, 0%float)
  = (double_of_int (ploidy_sum fields), double_of_int (ones_sum fields)) /\
  frequency (nth q counts (0%float, 0%float))
  = (double_of_int (ones_sum fields) / double_of_int (ploidy_sum fields))%float.
Proof.
  intros Hl Hb Hq Hqn fields.
  pose proof (freq_line_counts pop_n ind_n mis maf pop_l ln counts Hl Hb Hq q Hqn) as H.
  fold fields in H. split; [exact H|]. rewrite H. reflexivity.
Qed.

(** A population none of whose individuals has a genotype at a site that is
    printed gets the frequency NaN, the quotient of two zero counts. *)
Theorem freq_nan_without_genotypes (pop_n ind_n : nat) (mis maf : float)
    (pop_l : list (option nat)) (ln : vcf_line) (counts : list (float * float)) (q : nat) :
  freq_line pop_n ind_n mis maf pop_l ln = inl (Some counts) ->
  8 * Z.of_nat (List.length (l_gts ln)) < 2 ^ 53 ->
  Forall (fun o => forall q, o = Some q -> (q < pop_n)%nat) pop_l ->
  (q < pop_n)%nat ->
  Forall (fun f => is_missing f = true) (cols_of q (zip pop_l (l_gts ln))) ->
  Prim2SF (frequency (nth q counts (0%float, 0%float))) = S754_nan.
Proof.
  intros Hl Hb Hq Hqn Hmiss.
  rewrite (freq_line_counts pop_n ind_n mis maf pop_l ln counts Hl Hb Hq q Hqn).
  destruct (ploidy_sum_missing _ Hmiss) as [-> ->]. reflexivity.
Qed.

Lemma freq_counts_exact_witness :
  exists counts,
    freq_line 2 3 0 0 [Some 0; Some 0; Some 1; None]%nat
              (sample_line "1" 10 ["0/1"; "1/1"; "./."; "0/1"]%string)
    = inl (Some counts) /\
    nth 0 counts (0%float, 0%float) = (double_of_int 4, double_of_int 3).
Proof.
  eexists. split; [vm_compute; reflexivity|].
  refine (proj1 (freq_counts_exact 2 3 0 0 [Some 0; Some 0; Some 1; None]%nat
                   (sample_line "1" 10 ["0/1"; "1/1"; "./."; "0/1"]%string) _ 0 _ _ _ _)).
  - vm_compute. reflexivity.
  - vm_compute. reflexivity.
  - repeat (constructor; [intros q Hq; try discriminate Hq; injection Hq as <-; lia|]).
    constructor.
  - lia.
Defined.

Lemma freq_nan_without_genotypes_witness :
  exists counts,
    freq_line 2 3 0 0 [Some 0; Some 0; Some 1; None]%nat
              (sample_line "1" 10 ["0/1"; "1/1"; "./."; "0/1"]%string)
    = inl (Some counts) /\
    Prim2SF (frequency (nth 1 counts (0%float, 0%float))) = S754_nan.
Proof.
  eexists. split; [vm_compute; reflexivity|].
  refine (freq_nan_without_genotypes 2 3 0 0 [Some 0; Some 0; Some 1; None]%nat
            (sample_line "1" 10 ["0/1"; "1/1"; "./."; "0/1"]%string) _ 1 _ _ _ _ _).
  - vm_compute. reflexivity.
  - vm_compute. reflexivity.
  - repeat (constructor; [intros q Hq; try discriminate Hq; injection Hq as <-; lia|]).
    constructor.
  - lia.
  - repeat constructor.
Defined.

(** ** The [#CHROM] line of [poly_freq.c] *)

Lemma column_pop_no_match (pops : list Pop_s) (name : string) (st : option nat * nat) :
  name ∉ map p_ind pops -> column_pop pops name st = st.
Proof.
  unfold column_pop. revert st. induction pops as [|e pops IH]; intros st Hn; [reflexivity|].
  cbn [fold_left]. cbn [map] in Hn. apply not_elem_of_cons in Hn as [Hne Hn].
  destruct (String.eqb_spec name (p_ind e)) as [E|_]; [contradiction|]. apply IH. exact Hn.
Qed.

(** With every individual once in the population file, a column gets the
    index of the entry of its individual, and counts once. *)
Lemma column_pop_spec (pops : list Pop_s) (name : string) (o : option nat) (c : nat) :
  NoDup (map p_ind pops) ->
  column_pop pops name (o, c)
  = match List.find (fun e => String.eqb name (p_ind e)) pops with
    | Some e => (Some (p_idx e), S c)
    | None => (o, c)
    end.
Proof.
  intros Hnd. induction pops as [|e pops IH]; [reflexivity|].
  cbn [map] in Hnd. apply NoDup_cons in Hnd as [Hne Hnd].
  unfold column_pop. cbn [fold_left List.find].
  destruct (String.eqb_spec name (p_ind e)) as [E|_].
  - subst name. apply (column_pop_no_match pops (p_ind e)). exact Hne.
  - apply IH. exact Hnd.
Qed.

Lemma header_fold (pops : list Pop_s) (cols : list string) (l : list (option nat)) (c : nat) :
  NoDup (map p_ind pops) ->
  fold_left (header_step pops) cols (l, c)
  = (l ++ map (fun col => option_map p_idx (column_entry pops col)) cols,
     (c + List.length (counted pops cols))%nat).
Proof.
  intros Hnd. revert l c. induction cols as [|col cols IH]; intros l c.
  - cbn. rewrite app_nil_r, Nat.add_0_r. reflexivity.
  - unfold counted. cbn [fold_left map List.filter]. fold (counted pops cols).
    unfold header_step at 2. cbv zeta. cbn [fst snd].
    rewrite (column_pop_spec pops _ None c Hnd). fold (column_entry pops col).
    destruct (column_entry pops col) as [e|]; cbn [fst snd option_map List.length];
      rewrite IH, <- app_assoc; cbn [app]; f_equal; lia.
Qed.

Lemma filter_sublist {A : Type} (f : A -> bool) (l : list A) : sublist (List.filter f l) l.
Proof.
  induction l as [|x l IH]; [constructor|]. cbn [List.filter].
  destruct (f x); [apply sublist_skip | apply sublist_cons]; exact IH.
Qed.

Lemma counted_length (pops : list Pop_s) (cols : list string) :
  NoDup (map (upto_char newline) cols) ->
  (List.length (counted pops cols) <= List.length pops)%nat.
Proof.
  intros Hnd.
  assert (H1 : NoDup (map (upto_char newline) (counted pops cols))).
  { eapply sublist_NoDup; [exact Hnd|].
    apply (fmap_sublist (upto_char newline)). apply filter_sublist. }
  assert (H2 : forall x, x ∈ map (upto_char newline) (counted pops cols) ->
                         x ∈ map p_ind pops).
  { intros x Hx. apply list_elem_of_In, in_map_iff in Hx as (col & <- & Hcol).
    unfold counted in Hcol. apply filter_In in Hcol as [_ Hcol].
    destruct (column_entry pops col) as [e|] eqn:Ee; [|discriminate].
    unfold column_entry in Ee. apply find_some in Ee as [Hin He].
    apply String.eqb_eq in He. rewrite He.
    apply list_elem_of_In, in_map. exact Hin. }
  pose proof (submseteq_length _ _ (NoDup_submseteq _ _ H1 H2)) as H.
  rewrite !length_map in H. exact H.
Qed.

(** With every individual once in the population file and every sample
    once on the [#CHROM] line: a genotype column gets the population index
    of the entry of its sample, or none if the sample is not in the file,
    and [ind_n] becomes the number of columns that have one; when no column
    has one the program exits. *)
Theorem read_header_columns (pops : list Pop_s) (cols : list string) :
  NoDup (map p_ind pops) -> NoDup (map (upto_char newline) cols) ->
  read_header pops cols
  = match counted pops cols with
    | [] => None
    | _ => Some (map (fun col => option_map p_idx (column_entry pops col)) cols,
                 List.length (counted pops cols))
    end.
Proof.
  intros Hp Hc. unfold read_header.
  rewrite (header_fold pops cols [] 0 Hp). cbv zeta. cbn [fst snd app].
  pose proof (counted_length pops cols Hc) as Hle.
  destruct (counted pops cols) as [|c0 cs] eqn:E; [reflexivity|].
  rewrite Nat.add_0_l. cbn [List.length Nat.eqb] in *.
  f_equal. f_equal.
  destruct (Nat.ltb_spec (S (List.length cs)) (List.length pops)); lia.
Qed.

Lemma read_header_columns_witness :
  read_header [mkPop 0 "a1" "north"; mkPop 1 "b1" "south"; mkPop 0 "a2" "north"]%string
              ["a1"; "x9"; String "b" (String "1" (String newline EmptyString))]%string
  = Some ([Some 0; None; Some 1]%nat, 2%nat).
Proof.
  refine (read_header_columns
            [mkPop 0 "a1" "north"; mkPop 1 "b1" "south"; mkPop 0 "a2" "north"]%string
            ["a1"; "x9"; String "b" (String "1" (String newline EmptyString))]%string _ _).
  - vm_compute. repeat (constructor; [rewrite ?list_elem_of_In; cbn; intuition discriminate|]).
    constructor.
  - vm_compute. repeat (constructor; [rewrite ?list_elem_of_In; cbn; intuition discriminate|]).
    constructor.
Defined.

(** ** Reading back what [printOut] writes *)

Lemma digit_char_spec (d : Z) :
  0 <= d < 10 ->
  is_digit (digit_char d) = true /\ Z.of_N (N_of_ascii (digit_char d)) - 48 = d /\
  is_space (digit_char d) = false /\
  Ascii.eqb (digit_char d) "-"%char = false /\ Ascii.eqb (digit_char d) "+"%char = false.
Proof.
  intros H.
  assert (Hd : d = 0 \/ d = 1 \/ d = 2 \/ d = 3 \/ d = 4 \/ d = 5 \/ d = 6 \/ d = 7 \/
               d = 8 \/ d = 9) by lia.
  repeat (destruct Hd as [-> | Hd]; [repeat split; reflexivity|]).
  subst d. repeat split; reflexivity.
Qed.

Lemma digits_of_value (fuel : nat) (n : Z) (acc : string) :
  0 <= n < 2 ^ Z.of_nat fuel ->
  exists k, 0 <= k /\
    forall a, atoi_digits (digits_of fuel n acc) a = atoi_digits acc (a * 10 ^ k + n).
Proof.
  revert n acc. induction fuel as [|fuel IH]; intros n acc Hn.
  - exists 0. split; [lia|]. intros a. cbn [digits_of].
    change (2 ^ Z.of_nat 0) with 1 in Hn. f_equal. lia.
  - cbn [digits_of]. cbv zeta.
    pose proof (Z.mod_pos_bound n 10 ltac:(lia)) as Hd.
    destruct (digit_char_spec (n mod 10) Hd) as (D1 & D2 & _).
    pose proof (Z.div_mod n 10 ltac:(lia)) as Hdm.
    destruct (Z.eqb_spec (n / 10) 0) as [E|E].
    + exists 1. split; [lia|]. intros a. cbn [atoi_digits]. rewrite D1, D2.
      f_equal. lia.
    + destruct (IH (n / 10) (String (digit_char (n mod 10)) acc)) as (k & Hk & H).
      { rewrite Nat2Z.inj_succ, Z.pow_succ_r in Hn by lia.
        split; [apply Z.div_pos; lia|]. apply Z.div_lt_upper_bound; lia. }
      exists (k + 1). split; [lia|]. intros a. rewrite H. cbn [atoi_digits].
      rewrite D1, D2. f_equal. rewrite Z.pow_add_r by lia. lia.
Qed.

Lemma digits_of_head (fuel : nat) (n : Z) (acc : string) :
  0 <= n -> (1 <= fuel)%nat \/ (exists c r, acc = String c r /\ is_digit c = true /\
                                  is_space c = false /\ Ascii.eqb c "-"%char = false /\
                                  Ascii.eqb c "+"%char = false) ->
  exists c r, digits_of fuel n acc = String c r /\ is_digit c = true /\
              is_space c = false /\ Ascii.eqb c "-"%char = false /\
              Ascii.eqb c "+"%char = false.
Proof.
  revert n acc. induction fuel as [|fuel IH]; intros n acc Hn Hacc.
  - destruct Hacc as [Hf | H]; [lia | exact H].
  - cbn [digits_of]. cbv zeta.
    pose proof (Z.mod_pos_bound n 10 ltac:(lia)) as Hd.
    destruct (digit_char_spec (n mod 10) Hd) as (D1 & _ & D3 & D4 & D5).
    destruct (n / 10 =? 0).
    + eauto 10.
    + apply IH; [apply Z.div_pos; lia|]. right. eauto 10.
Qed.

Lemma has_char_digits_of (c : ascii) (fuel : nat) (n : Z) (acc : string) :
  is_digit c = false -> 0 <= n -> has_char c acc = false ->
  has_char c (digits_of fuel n acc) = false.
Proof.
  intros Hc. revert n acc. induction fuel as [|fuel IH]; intros n acc Hn Hacc; [exact Hacc|].
  cbn [digits_of]. cbv zeta.
  pose proof (Z.mod_pos_bound n 10 ltac:(lia)) as Hd.
  destruct (digit_char_spec (n mod 10) Hd) as (D1 & _).
  assert (Hs : has_char c (String (digit_char (n mod 10)) acc) = false).
  { cbn [has_char]. rewrite Hacc, orb_false_r. apply Ascii.eqb_neq. intros E.
    rewrite E in D1. congruence. }
  destruct (n / 10 =? 0); [exact Hs|]. apply IH; [apply Z.div_pos; lia | exact Hs].
Qed.

Lemma show_nat_fuel (n : Z) : 0 <= n -> 0 <= n < 2 ^ Z.of_nat (S (Z.to_nat (Z.log2 n))).
Proof.
  intros Hn. split; [exact Hn|].
  rewrite Nat2Z.inj_succ, Z2Nat.id by apply Z.log2_nonneg.
  destruct (Z.eq_dec n 0) as [->|Hne]; [reflexivity|].
  apply Z.log2_spec. lia.
Qed.

(** [atoi] reads back what ["%i"] writes. *)
Lemma atoi_show_int (z : Z) : atoi (show_int z) = z.
Proof.
  unfold show_int. destruct (Z.ltb_spec z 0) as [Hz|Hz].
  - cbn [atoi]. change (is_space "-") with false. cbv iota.
    change (Ascii.eqb "-" "-") with true. cbv iota.
    unfold show_nat.
    destruct (digits_of_value _ (- z) EmptyString (show_nat_fuel (- z) ltac:(lia)))
      as (k & _ & H).
    rewrite H. cbn [atoi_digits]. lia.
  - unfold show_nat.
    destruct (digits_of_head (S (Z.to_nat (Z.log2 z))) z EmptyString Hz)
      as (c & r & E & _ & C2 & C3 & C4); [left; lia|].
    destruct (digits_of_value _ z EmptyString (show_nat_fuel z Hz)) as (k & _ & H).
    specialize (H 0). rewrite E in H |- *. cbn [atoi]. rewrite C2, C3, C4.
    rewrite H. cbn [atoi_digits]. lia.
Qed.

Lemma show_int_no_tab (z : Z) : has_char tab (show_int z) = false /\ show_int z <> EmptyString.
Proof.
  unfold show_int, show_nat. destruct (Z.ltb_spec z 0) as [Hz|Hz].
  - split; [|discriminate]. cbn [has_char]. change (Ascii.eqb "-" tab) with false.
    cbn [orb]. apply has_char_digits_of; [reflexivity | lia | reflexivity].
  - split; [apply has_char_digits_of; [reflexivity | lia | reflexivity]|].
    destruct (digits_of_head (S (Z.to_nat (Z.log2 z))) z EmptyString Hz)
      as (c & r & E & _); [left; lia|]. rewrite E. discriminate.
Qed.

Lemma pieces_not_nil (s : string) : pieces s <> [].
Proof.
  destruct s as [|c r]; [discriminate|]. cbn [pieces].
  destruct (Ascii.eqb c tab); [discriminate|]. destruct (pieces r); discriminate.
Qed.

Lemma pieces_app_tab (a b : string) :
  has_char tab a = false -> pieces (a ++ String tab b) = a :: pieces b.
Proof.
  induction a as [|c a IH]; intros Ha.
  - cbn [append pieces]. rewrite Ascii.eqb_refl. reflexivity.
  - cbn [has_char] in Ha. apply orb_false_iff in Ha as [Hc Ha].
    cbn [append pieces]. rewrite Hc, (IH Ha). reflexivity.
Qed.

Lemma pieces_no_tab (a : string) : has_char tab a = false -> pieces a = [a].
Proof.
  induction a as [|c a IH]; intros Ha; [reflexivity|].
  cbn [has_char] in Ha. apply orb_false_iff in Ha as [Hc Ha].
  cbn [pieces]. rewrite Hc, (IH Ha). reflexivity.
Qed.

Lemma fields_app_tab (a b : string) :
  has_char tab a = false -> a <> EmptyString ->
  fields (a ++ String tab b) = a :: fields b.
Proof.
  intros Ha Hne. unfold fields. rewrite (pieces_app_tab a b Ha). cbn [List.filter].
  destruct (String.eqb_spec a EmptyString); [contradiction | reflexivity].
Qed.

Lemma fields_no_tab (a : string) :
  has_char tab a = false -> a <> EmptyString -> fields a = [a].
Proof.
  intros Ha Hne. unfold fields. rewrite (pieces_no_tab a Ha). cbn [List.filter].
  destruct (String.eqb_spec a EmptyString); [contradiction | reflexivity].
Qed.

Lemma has_char_app (c : ascii) (a b : string) :
  has_char c (a ++ b) = has_char c a || has_char c b.
Proof.
  induction a as [|x a IH]; [reflexivity|]. cbn [append has_char].
  rewrite IH, orb_assoc. reflexivity.
Qed.

Lemma append_assoc' (a b c : string) : ((a ++ b) ++ c = a ++ b ++ c)%string.
Proof. induction a as [|x a IH]; [reflexivity|]. cbn [append]. rewrite IH. reflexivity. Qed.

Lemma append_not_empty (a b : string) : a <> EmptyString -> (a ++ b)%string <> EmptyString.
Proof. destruct a; [contradiction | discriminate]. Qed.

(** A token that is written with [":PASS"] after it is read back as it
    was. *)
Lemma gt_token_pass (h rest : string) :
  h <> EmptyString -> has_char colon h = false ->
  gt_token (h ++ String colon rest) = h.
Proof.
  intros Hne Hc. unfold gt_token.
  rewrite has_char_app. cbn [has_char]. rewrite Ascii.eqb_refl, orb_true_r.
  destruct h as [|x h]; [contradiction|].
  cbn [has_char] in Hc. apply orb_false_iff in Hc as [Hx Hc].
  cbn [append skip_char]. rewrite Hx. cbn [upto_char]. rewrite Hx. f_equal.
  clear Hne Hx. induction h as [|y h IH]; cbn [append upto_char].
  - rewrite Ascii.eqb_refl. reflexivity.
  - cbn [has_char] in Hc. apply orb_false_iff in Hc as [Hy Hc].
    rewrite Hy, (IH Hc). reflexivity.
Qed.

Lemma print_haps_fields (haps : list string) :
  haps <> [] -> Forall clean_token haps ->
  exists gts, fields (print_haps haps) = gts /\ map gt_token gts = haps.
Proof.
  intros Hne Hall. eexists. split; [reflexivity|].
  induction haps as [|h haps IH]; [contradiction|].
  pose proof (List.Forall_inv Hall) as (H1 & H2 & H3).
  pose proof (List.Forall_inv_tail Hall) as Hrest.
  assert (Hp : has_char tab (h ++ ":PASS") = false).
  { rewrite has_char_app, H2. reflexivity. }
  destruct haps as [|h' haps].
  - cbn [print_haps]. rewrite fields_no_tab.
    + cbn [map]. f_equal. apply (gt_token_pass h); assumption.
    + rewrite has_char_app, H2. reflexivity.
    + apply append_not_empty. exact H1.
  - change (print_haps (h :: h' :: haps))
      with (h ++ ":PASS" ++ String tab (print_haps (h' :: haps)))%string.
    replace (h ++ ":PASS" ++ String tab (print_haps (h' :: haps)))%string
      with ((h ++ ":PASS") ++ String tab (print_haps (h' :: haps)))%string
      by (apply append_assoc').
    rewrite fields_app_tab; [|exact Hp | apply append_not_empty; exact H1].
    cbn [map]. f_equal.
    + apply (gt_token_pass h); assumption.
    + apply IH; [discriminate | exact Hrest].
Qed.

(** ** The sums the two filters test *)

Lemma gt_loop_exact (c : string) (p : Z) (fs : list string) (a a' : line_acc) (M AL H : Z) :
  gt_loop c p a fs = inl a' ->
  (la_ind a + List.length fs <= List.length (la_geno a))%nat ->
  (forall i, (la_ind a <= i)%nat -> nth i (la_geno a) 0%float = 0%float) ->
  la_mis a = double_of_int M -> la_alt a = double_of_int AL -> la_hapn a = double_of_int H ->
  0 <= M -> 0 <= AL -> 0 <= H ->
  M + Z.of_nat (List.length fs) < 2 ^ 53 ->
  AL + 8 * Z.of_nat (List.length fs) < 2 ^ 53 ->
  H + 8 * Z.of_nat (List.length fs) < 2 ^ 53 ->
  la_ind a' = (la_ind a + List.length fs)%nat /\
  la_mis a' = double_of_int (M + n_missing fs) /\
  la_alt a' = double_of_int (AL + ones_sum fs) /\
  la_hapn a' = double_of_int (H + ploidy_sum fs) /\
  (forall i, (i < la_ind a)%nat -> nth i (la_geno a') 0%float = nth i (la_geno a) 0%float) /\
  (forall i f, fs !! i = Some f ->
     nth (la_ind a + i) (la_geno a') 0%float
     = if is_missing f then missing else double_of_int (ones (gt_token f))).
Proof.
  revert a M AL H. induction fs as [|f fs IH];
    intros a M AL H Hl Hlen Hz EM EA EH HM HAL HH BM BAL BH.
  - cbn in Hl. injection Hl as <-. unfold n_missing.
    cbn [List.filter List.length ones_sum ploidy_sum].
    rewrite Nat.add_0_r, !Z.add_0_r. repeat split; auto. intros i f' Hf. discriminate.
  - cbn [gt_loop] in Hl. cbn [List.length] in Hlen, BM, BAL, BH.
    destruct (gt_step c p a f) as [a1|] eqn:Es; [|discriminate].
    unfold gt_step in Es. rewrite (Hz (la_ind a)), EA in Es by lia.
    change 0%float with (double_of_int 0) in Es at 1.
    pose proof (extract_exact (gt_token f) 0 AL ltac:(lia) ltac:(lia) HAL ltac:(lia)) as Hx.
    rewrite n_missing_cons. cbn [ones_sum ploidy_sum].
    destruct (extract (gt_token f) (double_of_int 0) (double_of_int AL))
      as [|c1 alt' pl| |] eqn:Ex; try discriminate; injection Es as <-.
    + (* a missing genotype *)
      apply is_missing_iff in Hx. rewrite Hx.
      match type of Hl with gt_loop _ _ ?x _ = _ => set (a1 := x) in * end.
      assert (P1 : (la_ind a1 + List.length fs <= List.length (la_geno a1))%nat).
      { unfold a1. cbn [la_ind la_geno]. rewrite length_insert. lia. }
      assert (P2 : forall i, (la_ind a1 <= i)%nat -> nth i (la_geno a1) 0%float = 0%float).
      { unfold a1. cbn [la_ind la_geno]. intros i Hi.
        rewrite nth_lookup, list_lookup_insert_ne by lia.
        rewrite <- nth_lookup. apply Hz. lia. }
      assert (P3 : la_mis a1 = double_of_int (M + 1)).
      { unfold a1. cbn [la_mis]. rewrite EM. change 1%float with (double_of_int 1).
        apply double_add_exact; lia. }
      destruct (IH a1 (M + 1) AL H Hl P1 P2 P3 eq_refl EH ltac:(lia) HAL HH
                  ltac:(lia) ltac:(lia) ltac:(lia)) as (I1 & I2 & I3 & I4 & I5 & I6).
      unfold a1 in I1, I5, I6. cbn [la_ind la_geno] in I1, I5, I6. cbn [List.length].
      split; [lia|]. split; [rewrite I2; f_equal; lia|].
      split; [rewrite I3; f_equal; lia|]. split; [rewrite I4; f_equal; lia|]. split.
      * intros i Hi. rewrite I5 by lia.
        rewrite nth_lookup, list_lookup_insert_ne by lia. rewrite <- nth_lookup. reflexivity.
      * intros [|i] f' Hf; cbn in Hf.
        -- injection Hf as <-. rewrite Hx, Nat.add_0_r, I5 by lia.
           apply nth_lookup_Some. apply list_lookup_insert_eq. lia.
        -- replace (la_ind a + S i)%nat with (S (la_ind a) + i)%nat by lia.
           apply I6. exact Hf.
    + (* a genotype that is read *)
      destruct Hx as (Hd & Hs & -> & -> & ->).
      set (P := Z.of_nat (String.length (gt_token f) + 1) / 2) in *.
      set (O := ones (gt_token f)) in *.
      assert (HP : 2 <= P <= 8).
      { subst P. destruct Hs as [-> | [-> | [-> | ->]]]; vm_compute; split; discriminate. }
      assert (HO : 0 <= O <= P) by (apply ones_bounds).
      assert (Hm : is_missing f = false).
      { destruct (is_missing f) eqn:Em; [|reflexivity].
        apply is_missing_iff in Em. contradiction. }
      rewrite Hm.
      match type of Hl with gt_loop _ _ ?x _ = _ => set (a1 := x) in * end.
      assert (P1 : (la_ind a1 + List.length fs <= List.length (la_geno a1))%nat).
      { unfold a1. cbn [la_ind la_geno]. rewrite length_insert. lia. }
      assert (P2 : forall i, (la_ind a1 <= i)%nat -> nth i (la_geno a1) 0%float = 0%float).
      { unfold a1. cbn [la_ind la_geno]. intros i Hi.
        rewrite nth_lookup, list_lookup_insert_ne by lia.
        rewrite <- nth_lookup. apply Hz. lia. }
      assert (P3 : la_hapn a1 = double_of_int (H + P)).
      { unfold a1. cbn [la_hapn]. rewrite EH. apply double_add_exact; lia. }
      destruct (IH a1 M (AL + O) (H + P) Hl P1 P2 EM eq_refl P3 HM ltac:(lia) ltac:(lia)
                  ltac:(lia) ltac:(lia) ltac:(lia)) as (I1 & I2 & I3 & I4 & I5 & I6).
      unfold a1 in I1, I5, I6. cbn [la_ind la_geno] in I1, I5, I6. cbn [List.length].
      split; [lia|]. split; [rewrite I2; f_equal; lia|].
      split; [rewrite I3; f_equal; lia|]. split; [rewrite I4; f_equal; lia|]. split.
      * intros i Hi. rewrite I5 by lia.
        rewrite nth_lookup, list_lookup_insert_ne by lia. rewrite <- nth_lookup. reflexivity.
      * intros [|i] f' Hf; cbn in Hf.
        -- injection Hf as <-. rewrite Hm, Nat.add_0_r, I5 by lia.
           rewrite (nth_lookup_Some _ _ _ (double_of_int (0 + O))); [f_equal; lia|].
           apply list_lookup_insert_eq. lia.
        -- replace (la_ind a + S i)%nat with (S (la_ind a) + i)%nat by lia.
           apply I6. exact Hf.
Qed.

(** For a line whose genotype columns are all read, what the two filters
    test are whole numbers held exactly: the number of missing genotypes,
    the number of ['1'] alleles and the summed ploidy of the others; and the
    dosage stored for each individual is its number of ['1'] alleles, or
    [-1] when its genotype is missing. *)
Theorem line_sums_exact (geno_n : nat) (ln : vcf_line) (a : line_acc) :
  line_sums geno_n ln = inl a ->
  (List.length (l_gts ln) <= geno_n)%nat ->
  8 * Z.of_nat (List.length (l_gts ln)) < 2 ^ 53 ->
  la_ind a = List.length (l_gts ln) /\
  la_mis a = double_of_int (n_missing (l_gts ln)) /\
  la_alt a = double_of_int (ones_sum (l_gts ln)) /\
  la_hapn a = double_of_int (ploidy_sum (l_gts ln)) /\
  forall i f, l_gts ln !! i = Some f ->
    nth i (la_geno a) 0%float
    = if is_missing f then missing else double_of_int (ones (gt_token f)).
Proof.
  unfold line_sums. intros Hl Hn Hb.
  assert (P1 : (0 + List.length (l_gts ln) <= List.length (replicate geno_n 0%float))%nat)
    by (rewrite length_replicate; lia).
  destruct (gt_loop_exact _ _ _ _ _ 0 0 0 Hl P1 (fun i _ => nth_replicate_zero geno_n i)
              eq_refl eq_refl eq_refl ltac:(lia) ltac:(lia) ltac:(lia)
              ltac:(lia) ltac:(lia) ltac:(lia)) as (I1 & I2 & I3 & I4 & _ & I6).
  cbn [la_ind] in I1, I6. repeat split; auto.
Qed.

Lemma line_sums_exact_witness :
  exists a,
    line_sums 30 (sample_line "1" 10 ["0/1"; "./."; "1/1/0/1"]%string) = inl a /\
    la_mis a = double_of_int 1 /\ la_alt a = double_of_int 4 /\
    la_hapn a = double_of_int 6.
Proof.
  eexists. split; [vm_compute; reflexivity|].
  destruct (line_sums_exact 30 (sample_line "1" 10 ["0/1"; "./."; "1/1/0/1"]%string) _ eq_refl)
    as (_ & H2 & H3 & H4 & _).
  - cbn. lia.
  - cbn. lia.
  - repeat split; assumption.
Defined.

(** ** [stringTerminator] *)

Lemma stringTerminator_upto (s : string) : stringTerminator s = upto_char newline s.
Proof.
  unfold stringTerminator. induction s as [|a r IH]; [reflexivity|].
  cbn [strcspn_char upto_char]. destruct (Ascii.eqb a newline); [reflexivity|].
  cbn [String.substring]. rewrite IH. reflexivity.
Qed.

Lemma upto_char_clean (c : ascii) (s : string) : has_char c (upto_char c s) = false.
Proof.
  induction s as [|a r IH]; [reflexivity|]. cbn [upto_char].
  destruct (Ascii.eqb a c) eqn:E; [reflexivity|]. cbn [has_char]. rewrite E, IH. reflexivity.
Qed.

Lemma upto_char_id (c : ascii) (s : string) : has_char c s = false -> upto_char c s = s.
Proof.
  induction s as [|a r IH]; [reflexivity|]. cbn [has_char upto_char]. intros H.
  apply orb_false_iff in H as [Ha Hr]. rewrite Ha, (IH Hr). reflexivity.
Qed.

(** [stringTerminator] cuts a string at its first newline: what is left is
    the part before it, has no newline, and is the whole string when there
    was none; cutting again changes nothing. *)
Theorem stringTerminator_cut (s : string) :
  (exists rest, s = (stringTerminator s ++ rest)%string /\
                (rest = EmptyString \/ exists r, rest = String newline r)) /\
  has_char newline (stringTerminator s) = false /\
  (has_char newline s = false -> stringTerminator s = s) /\
  stringTerminator (stringTerminator s) = stringTerminator s.
Proof.
  rewrite !stringTerminator_upto. split; [|split; [|split]].
  - induction s as [|a r (rest & E & Hrest)]; [exists EmptyString; auto|].
    cbn [upto_char]. destruct (Ascii.eqb_spec a newline) as [->|Hne].
    + exists (String newline r). split; [reflexivity | right; eauto].
    + exists rest. split; [cbn [append]; rewrite <- E; reflexivity | exact Hrest].
  - apply upto_char_clean.
  - apply upto_char_id.
  - apply upto_char_id, upto_char_clean.
Qed.

(** ** Reading back a line of the output *)

Lemma getline_one_line (s rest : string) :
  one_line s = true -> getline (s ++ rest) = s.
Proof.
  induction s as [|c r IH]; [discriminate|]. cbn [one_line append getline].
  destruct (Ascii.eqb c newline).
  - intros H. apply String.eqb_eq in H. rewrite H. reflexivity.
  - intros H. rewrite (IH H). reflexivity.
Qed.

Lemma one_line_app (a b : string) :
  has_char newline a = false -> one_line (a ++ b) = one_line b.
Proof.
  induction a as [|c a IH]; [reflexivity|]. cbn [has_char append one_line].
  intros H. apply orb_false_iff in H as [Hc Ha]. rewrite Hc. exact (IH Ha).
Qed.

Lemma one_line_cons (c : ascii) (r : string) :
  c <> newline -> one_line (String c r) = one_line r.
Proof.
  intros H. cbn [one_line]. apply Ascii.eqb_neq in H. rewrite H. reflexivity.
Qed.

Lemma one_line_print_haps (haps : list string) :
  haps <> [] -> Forall plain haps -> one_line (print_haps haps) = true.
Proof.
  intros Hne Hall. induction haps as [|h haps IH]; [contradiction|].
  pose proof (List.Forall_inv Hall) as (_ & Hnl & _).
  pose proof (List.Forall_inv_tail Hall) as Hrest.
  destruct haps as [|h' haps].
  - cbn [print_haps]. rewrite one_line_app by exact Hnl. reflexivity.
  - change (print_haps (h :: h' :: haps))
      with (h ++ ":PASS" ++ String tab (print_haps (h' :: haps)))%string.
    rewrite one_line_app by exact Hnl.
    rewrite (one_line_app ":PASS") by reflexivity.
    rewrite one_line_cons by discriminate.
    apply IH; [discriminate | exact Hrest].
Qed.

Lemma zero_free_print_haps (haps : list string) :
  Forall plain haps -> has_char Ascii.zero (print_haps haps) = false.
Proof.
  intros Hall. induction haps as [|h haps IH]; [reflexivity|].
  pose proof (List.Forall_inv Hall) as (_ & _ & Hz).
  specialize (IH (List.Forall_inv_tail Hall)).
  destruct haps as [|h' haps].
  - cbn [print_haps]. rewrite has_char_app, Hz. reflexivity.
  - change (print_haps (h :: h' :: haps))
      with (h ++ ":PASS" ++ String tab (print_haps (h' :: haps)))%string.
    rewrite has_char_app, Hz, (has_char_app _ ":PASS"). cbn [orb].
    change (has_char Ascii.zero ":PASS") with false. cbn [orb has_char].
    change (Ascii.eqb tab Ascii.zero) with false. cbn [orb]. exact IH.
Qed.

Lemma show_int_plain (z : Z) :
  has_char newline (show_int z) = false /\ has_char Ascii.zero (show_int z) = false.
Proof.
  unfold show_int, show_nat. destruct (Z.ltb_spec z 0) as [Hz|Hz].
  - cbn [has_char]. change (Ascii.eqb "-" newline) with false.
    change (Ascii.eqb "-" Ascii.zero) with false. cbn [orb].
    split; apply has_char_digits_of; first [reflexivity | lia].
  - split; apply has_char_digits_of; first [reflexivity | lia].
Qed.

(** The text [printOut] writes for a site with at least one individual is
    one line, and has no zero byte. *)
Lemma printOut_one_line (snp : SNP_s) (n : nat) :
  (1 <= n)%nat -> plain (chr snp) -> plain (id snp) ->
  plain_char (ref snp) -> plain_char (alt snp) ->
  Forall plain (first_haps snp n) ->
  one_line (printOut snp n) = true /\ has_char Ascii.zero (printOut snp n) = false.
Proof.
  intros Hn (_ & Hc1 & Hc0) (_ & Hi1 & Hi0) (_ & Hr1 & Hr0) (_ & Ha1 & Ha0) Hh.
  destruct (show_int_plain (pos snp)) as [Hp1 Hp0].
  assert (Hne : first_haps snp n <> []).
  { unfold first_haps. destruct n; [lia | discriminate]. }
  unfold printOut. split.
  - rewrite one_line_app by exact Hc1. rewrite one_line_cons by discriminate.
    rewrite one_line_app by exact Hp1. rewrite one_line_cons by discriminate.
    rewrite one_line_app by exact Hi1. rewrite one_line_cons by discriminate.
    rewrite one_line_cons by exact Hr1. rewrite one_line_cons by discriminate.
    rewrite one_line_cons by exact Ha1. rewrite one_line_cons by discriminate.
    rewrite (one_line_app ".") by reflexivity. rewrite one_line_cons by discriminate.
    rewrite (one_line_app "PASS") by reflexivity. rewrite one_line_cons by discriminate.
    rewrite (one_line_app ".") by reflexivity. rewrite one_line_cons by discriminate.
    rewrite (one_line_app "GT:FT") by reflexivity. rewrite one_line_cons by discriminate.
    apply one_line_print_haps; assumption.
  - apply Ascii.eqb_neq in Hr0, Ha0.
    repeat (rewrite !has_char_app; cbn [has_char]).
    rewrite Hc0, Hp0, Hi0, Hr0, Ha0, (zero_free_print_haps _ Hh). reflexivity.
Qed.

(** A line that [printOut] writes for a site with at least one individual,
    followed by whatever is written after it, is read by [getline] as that
    line and taken apart by [readVcf] into the chromosome, position,
    identifier and alleles of the site and the genotype tokens of its
    individuals, when the chromosome does not start with ['#'], chromosome,
    identifier and tokens are not empty and hold no tab, newline or zero
    byte, the tokens hold no colon, and neither allele is a tab, a newline or
    a zero byte. *)
Theorem printOut_read_back (snp : SNP_s) (n : nat) (rest : string) :
  (1 <= n)%nat ->
  chr snp <> EmptyString -> first_char (chr snp) <> hash -> plain (chr snp) ->
  id snp <> EmptyString -> plain (id snp) ->
  plain_char (ref snp) -> plain_char (alt snp) ->
  Forall clean_token (first_haps snp n) -> Forall plain (first_haps snp n) ->
  exists gts,
    parse_line (printOut snp n ++ rest)
    = Some (mkLine (chr snp) (pos snp) (id snp) (ref snp) (alt snp) true gts) /\
    map gt_token gts = first_haps snp n.
Proof.
  intros Hn Hc1 Hc3 Hc2 Hi1 Hi2 Hr Ha Hh Hp.
  destruct (print_haps_fields (first_haps snp n)) as (gts & Hg & Hm); [|exact Hh|].
  { unfold first_haps. destruct n; [lia | discriminate]. }
  exists gts. split; [|exact Hm].
  destruct (printOut_one_line snp n Hn Hc2 Hi2 Hr Ha Hp) as [Hline Hzero].
  destruct (show_int_no_tab (pos snp)) as [Hp1 Hp2].
  unfold parse_line. rewrite (getline_one_line _ rest Hline).
  assert (Hfields : fields (c_string (printOut snp n))
            = chr snp :: show_int (pos snp) :: id snp :: String (ref snp) EmptyString
              :: String (alt snp) EmptyString :: "."%string :: "PASS"%string
              :: "."%string :: "GT:FT"%string :: gts).
  { unfold c_string. rewrite (upto_char_id _ _ Hzero). unfold printOut.
    destruct Hc2 as (Hct & _). destruct Hi2 as (Hit & _).
    destruct Hr as (Hrt & _). destruct Ha as (Hat & _).
    rewrite (fields_app_tab (chr snp)) by assumption.
    rewrite (fields_app_tab (show_int (pos snp))) by assumption.
    rewrite (fields_app_tab (id snp)) by assumption.
    assert (Hone : forall (c : ascii) (rest : string), c <> tab ->
              fields (String c (String tab rest)) = String c EmptyString :: fields rest).
    { intros c rest' Hne. apply (fields_app_tab (String c EmptyString) rest'); [|discriminate].
      cbn [has_char]. rewrite orb_false_r. apply Ascii.eqb_neq. exact Hne. }
    rewrite (Hone (ref snp)) by exact Hrt. rewrite (Hone (alt snp)) by exact Hat.
    rewrite (fields_app_tab ".") by (reflexivity || discriminate).
    rewrite (fields_app_tab "PASS") by (reflexivity || discriminate).
    rewrite (fields_app_tab ".") by (reflexivity || discriminate).
    rewrite (fields_app_tab "GT:FT") by (reflexivity || discriminate).
    rewrite Hg. reflexivity. }
  destruct (printOut snp n) as [|c r] eqn:Eout.
  { unfold printOut in Eout. destruct (chr snp); [contradiction | discriminate]. }
  assert (Hc : c = first_char (chr snp)).
  { unfold printOut in Eout. destruct (chr snp) as [|c0 r0]; [contradiction|].
    cbn [append] in Eout. injection Eout as E _. symmetry. exact E. }
  assert (Hnl : Ascii.eqb c newline = false).
  { rewrite Hc. destruct Hc2 as (_ & Hcn & _). destruct (chr snp); [contradiction|].
    cbn [has_char] in Hcn. apply orb_false_iff in Hcn as [Hcn _]. exact Hcn. }
  assert (Hhash : Ascii.eqb c hash = false).
  { apply Ascii.eqb_neq. rewrite Hc. exact Hc3. }
  rewrite Hnl, Hhash. cbn [orb]. rewrite Hfields, atoi_show_int. reflexivity.
Qed.

Lemma printOut_read_back_witness :
  exists gts,
    parse_line (printOut (mkSNP 1520 1 [] "A" "C" "rs1" "chr2" ["0/1"; "1/1/0/0"]%string) 2
                ++ printOut (mkSNP 1600 1 [] "G" "T" "rs2" "chr2" ["0/0"; "."]%string) 2)
    = Some (mkLine "chr2" 1520 "rs1" "A" "C" true gts) /\
    map gt_token gts = ["0/1"; "1/1/0/0"]%string.
Proof.
  apply (printOut_read_back (mkSNP 1520 1 [] "A" "C" "rs1" "chr2" ["0/1"; "1/1/0/0"]%string) 2);
    try discriminate; try lia;
    try (repeat split; (reflexivity || discriminate));
    repeat constructor; (reflexivity || discriminate).
Defined.

(** ** [poly_freq]: from the population file to the counts *)

Lemma rows_of_entries (lst : list Pop_s) (rows : list (string * string)) :
  map p_ind lst = map fst rows -> map p_pop lst = map snd rows ->
  map (fun e => (p_ind e, p_pop e)) lst = rows.
Proof.
  revert rows. induction lst as [|e lst IH]; intros [|[i p] rows] H1 H2;
    try discriminate; [reflexivity|].
  cbn [map fst snd] in *. injection H1 as E1 H1. injection H2 as E2 H2.
  rewrite E1, E2, (IH rows H1 H2). reflexivity.
Qed.

Lemma cols_of_map {A : Type} (g : A -> option nat) (q : nat) (cols : list A)
    (gts : list string) :
  cols_of q (zip (map g cols) gts)
  = map snd (List.filter (fun cf => match g (fst cf) with
                                    | Some q' => (q' =? q)%nat
                                    | None => false
                                    end) (zip cols gts)).
Proof.
  unfold cols_of. revert gts. induction cols as [|col cols IH]; intros [|f gts];
    try reflexivity.
  cbn [map zip zip_with List.filter fst snd].
  destruct (g col) as [q'|]; [destruct (q' =? q)%nat|]; cbn [map snd]; rewrite <- ?IH;
    reflexivity.
Qed.

(** The population index of a column is [q] exactly when the population
    file assigns its sample to the population at [q] in the table. *)
Lemma column_index_sample (rows : list (string * string)) (lst : list Pop_s)
    (pops : list string) (q : nat) (name col : string) :
  map (fun e => (p_ind e, p_pop e)) lst = rows ->
  NoDup (map fst rows) -> NoDup pops ->
  Forall (fun e => pops !! p_idx e = Some (p_pop e)) lst ->
  pops !! q = Some name ->
  match option_map p_idx (column_entry lst col) with
  | Some q' => (q' =? q)%nat
  | None => false
  end = sample_in rows name (upto_char newline col).
Proof.
  intros Hrows Hnd Hpops Hidx Hq. subst rows. unfold column_entry, sample_in.
  set (s := upto_char newline col).
  rewrite map_map in Hnd. cbn [fst] in Hnd.
  induction lst as [|e lst IH]; [reflexivity|].
  cbn [map] in Hnd. apply NoDup_cons in Hnd as [Hne Hnd].
  pose proof (List.Forall_inv Hidx) as He. cbv beta in He.
  pose proof (List.Forall_inv_tail Hidx) as Hrest.
  cbn [List.find map existsb fst snd].
  rewrite (String.eqb_sym (p_ind e) s).
  destruct (String.eqb_spec s (p_ind e)) as [Es|Es]; cbn [andb orb option_map].
  - (* the entry of the sample: no later entry has it *)
    assert (Hno : existsb (fun r => String.eqb (fst r) s && String.eqb (snd r) name)
                          (map (fun e0 => (p_ind e0, p_pop e0)) lst) = false).
    { apply not_true_is_false. intros Hex. apply existsb_exists in Hex as ([i p] & Hin & Hr).
      apply in_map_iff in Hin as (e' & [= <- <-] & Hin). cbn [fst snd] in Hr.
      apply andb_true_iff in Hr as [Hr _]. apply String.eqb_eq in Hr.
      apply Hne. rewrite <- Es, <- Hr. apply list_elem_of_In, in_map. exact Hin. }
    rewrite Hno, orb_false_r.
    destruct (Nat.eqb_spec (p_idx e) q) as [Eq|Eq].
    + symmetry. apply String.eqb_eq. rewrite Eq in He. congruence.
    + symmetry. apply String.eqb_neq. intros En. apply Eq.
      rewrite <- En in Hq. exact (NoDup_lookup _ _ _ _ Hpops He Hq).
  - apply IH; assumption.
Qed.

(** From the population file to the counts of a line that is printed, in
    the mode without [-r2]: for the population at index [q] of the table,
    [printOut] gets the summed ploidy and the number of ['1'] alleles of the
    non-missing genotypes of exactly those columns whose sample the
    population file assigns to that population. *)
Theorem freq_counts_by_population (rows : list (string * string)) (cols : list string)
    (lst : list Pop_s) (pops : list string) (pop_l : list (option nat)) (ind_n : nat)
    (mis maf : float) (ln : vcf_line) (counts : list (float * float))
    (q : nat) (name : string) :
  readPops rows = Some (lst, pops) ->
  Forall (fun r => snd r <> EmptyString) rows ->
  NoDup (map fst rows) -> NoDup (map (upto_char newline) cols) ->
  read_header lst cols = Some (pop_l, ind_n) ->
  freq_line (List.length pops) ind_n mis maf pop_l ln = inl (Some counts) ->
  8 * Z.of_nat (List.length (l_gts ln)) < 2 ^ 53 ->
  pops !! q = Some name ->
  let fields :=
    map snd (List.filter (fun cf => sample_in rows name (upto_char newline (fst cf)))
                         (zip cols (l_gts ln))) in
  nth q counts (0%float, 0%float)
  = (double_of_int (ploidy_sum fields), double_of_int (ones_sum fields)).
Proof.
  intros Hr Hrows Hnd Hcols Hh Hl Hb Hq fields.
  assert (Hf : fold_left pops_step rows ([], []) = (lst, pops)).
  { unfold readPops in Hr. destruct rows; [discriminate | injection Hr as Hr; exact Hr]. }
  destruct (pops_fold_inv rows ([], []) Hrows) as ((H1 & H2 & _ & _) & H5 & H6).
  { split; [constructor|]. split; [constructor|]. split; [reflexivity|].
    intros k Hk. cbn in Hk. lia. }
  rewrite Hf in H1, H2, H5, H6. cbn [fst snd map app] in H1, H2, H5, H6.
  pose proof (rows_of_entries lst _ H5 H6) as Hpairs.
  assert (Hind : NoDup (map p_ind lst)) by (rewrite H5; exact Hnd).
  unfold read_header in Hh. rewrite (header_fold lst cols [] 0 Hind) in Hh.
  cbv zeta in Hh. cbn [fst snd app] in Hh.
  destruct (0 + List.length (counted lst cols) =? 0)%nat; [discriminate|].
  injection Hh as Hpl _. subst pop_l.
  assert (Hq' : (q < List.length pops)%nat) by (apply lookup_lt_Some in Hq; exact Hq).
  rewrite (freq_line_counts _ _ _ _ _ _ _ Hl Hb); [| |exact Hq'].
  - rewrite (cols_of_map (fun col => option_map p_idx (column_entry lst col))).
    unfold fields.
    rewrite (List.filter_ext _ (fun cf => sample_in rows name
                                            (upto_char newline (fst cf)))); [reflexivity|].
    intros [col f]. cbn [fst].
    apply (column_index_sample rows lst pops q name col); assumption.
  - apply Forall_forall. intros o Ho q' ->.
    apply list_elem_of_In, in_map_iff in Ho as (col & Ho & _).
    unfold column_entry in Ho.
    destruct (List.find _ lst) as [e|] eqn:Ef; [|discriminate].
    injection Ho as <-. apply find_some in Ef as [Hin _].
    rewrite Forall_forall in H2. apply list_elem_of_In in Hin.
    exact (lookup_lt_Some _ _ _ (H2 e Hin)).
Qed.

Lemma freq_counts_by_population_witness :
  exists counts,
    freq_line 2 3 0 0 [Some 0; None; Some 1; Some 0]%nat
              (sample_line "1" 10 ["0/1"; "1/1"; "./."; "1/1/0/1"]%string)
    = inl (Some counts) /\
    nth 0 counts (0%float, 0%float) = (double_of_int 6, double_of_int 4).
Proof.
  eexists. split; [vm_compute; reflexivity|].
  refine (freq_counts_by_population
            [("a1", "north"); ("b1", "south"); ("a2", "north")]%string
            ["a1"; "x9"; "b1"; String "a" (String "2" (String newline EmptyString))]%string
            [mkPop 0 "a1" "north"; mkPop 1 "b1" "south"; mkPop 0 "a2" "north"]%string
            ["north"; "south"]%string
            [Some 0; None; Some 1; Some 0]%nat 3 0 0
            (sample_line "1" 10 ["0/1"; "1/1"; "./."; "1/1/0/1"]%string)
            _ 0 "north" _ _ _ _ _ _ _ _).
  - reflexivity.
  - repeat constructor; discriminate.
  - vm_compute. repeat (constructor; [rewrite ?list_elem_of_In; cbn; intuition discriminate|]).
    constructor.
  - vm_compute. repeat (constructor; [rewrite ?list_elem_of_In; cbn; intuition discriminate|]).
    constructor.
  - vm_compute. reflexivity.
  - vm_compute. reflexivity.
  - vm_compute. reflexivity.
  - reflexivity.
Defined.

(** ** The command line of [prune_ld] *)

Section OpenFilesProofs.
Variables (can_open : string -> bool) (isNumeric : string -> bool)
          (atof : string -> float).

Local Abbreviation parse_args' := (parse_args can_open isNumeric atof).
Local Abbreviation checked' := (checked can_open).

Lemma set_win_checked (o o' : opts) (x : string) :
  set_win isNumeric o x = inl o' -> checked' o -> checked' o' /\ o_step o' = o_step o.
Proof.
  unfold set_win. intros H Hc. destruct (isNumeric x); [|injection H as <-; auto].
  cbv zeta in H. destruct (Z.ltb_spec (atoi x) 1) as [Hlt|Hge]; [discriminate|].
  injection H as <-.
  destruct Hc as (_ & H2 & H3). split; [|reflexivity].
  split; [right; exact Hge | split; [exact H2 | exact H3]].
Qed.

Lemma set_step_checked (o o' : opts) (x : string) :
  set_step isNumeric o x = inl o' -> checked' o ->
  checked' o' /\ o_win o' = o_win o /\
  (o' = o \/ 1 <= o_step o' <= o_win o').
Proof.
  unfold set_step. intros H Hc. destruct (isNumeric x); [|injection H as <-; auto].
  cbv zeta in H. destruct (Z.ltb_spec (o_win o) (atoi x)) as [Hgt|Hle]; [discriminate|].
  destruct (Z.ltb_spec (atoi x) 1) as [Hlt|Hge]; [discriminate|]. injection H as <-.
  destruct Hc as (H1 & _ & H3). cbn [o_win o_step].
  split; [|split; [reflexivity | right; lia]].
  split; [exact H1 | split; [right; exact Hge | exact H3]].
Qed.

Lemma set_r2_checked (o o' : opts) (x : string) :
  set_r2 isNumeric atof o x = inl o' -> checked' o ->
  checked' o' /\ o_win o' = o_win o /\ o_step o' = o_step o.
Proof.
  unfold set_r2. intros H Hc. destruct (isNumeric x); [|discriminate].
  cbv zeta in H. destruct (out_of_unit (atof x)) eqn:E; [discriminate|]. injection H as <-.
  destruct Hc as (H1 & H2 & H3 & H4 & _ & H6). cbn [o_win o_step].
  split; [|split; reflexivity].
  split; [exact H1|]. split; [exact H2|]. split; [exact H3|]. split; [exact H4|].
  split; [right; exact E | exact H6].
Qed.

Lemma count_r2_cons (a : string) (rest : list string) :
  count_r2 (a :: rest) = ((if String.eqb "-r2" a then 1 else 0) + count_r2 rest)%nat.
Proof. unfold count_r2. cbn [List.filter]. destruct (String.eqb "-r2" a); reflexivity. Qed.

Lemma sized_tail (o o' : opts) (a : string) (rest : list string) :
  o_win o' = o_win o -> o_step o' = o_step o -> sized o (a :: rest) -> sized o' rest.
Proof.
  intros E1 E2. unfold sized. rewrite count_r2_cons, E1, E2.
  destruct (String.eqb "-r2" a); intros [H | H]; [left | right | left | right]; lia.
Qed.

(** The options after the loop, when it ends without [exit]. *)
Lemma parse_args_checked (n : nat) (args : list string) (o o' : opts) :
  (List.length args <= n)%nat ->
  parse_args' args o = inl o' -> checked' o ->
  checked' o' /\ (sized o args -> sized o' []).
Proof.
  revert args o. induction n as [|n IH]; intros args o Hn Hp Hc.
  - destruct args; [|cbn in Hn; lia]. cbn in Hp. injection Hp as <-. auto.
  - destruct args as [|a rest]; [cbn in Hp; injection Hp as <-; auto|].
    cbn [List.length] in Hn. cbn [parse_args] in Hp.
    destruct (String.eqb a "-vcf").
    { destruct rest as [|f rest']; [discriminate|].
      destruct (can_open f) eqn:Ef; [|discriminate].
      match type of Hp with parse_args _ _ _ _ ?ox = _ =>
        destruct (IH rest' ox ltac:(cbn [List.length] in Hn; lia) Hp) as [R1 R2] end;
        [|split; [exact R1 | intros Hs; apply R2]].
      - destruct Hc as (H1 & H2 & H3 & H4 & H5 & H6 & H7).
        repeat (split; [assumption|]). split; [|exact H7].
        cbn [o_vcf]. intros f' [= <-]. exact Ef.
      - apply (sized_tail o _ f); [reflexivity | reflexivity|].
        apply (sized_tail o o a); [reflexivity | reflexivity | exact Hs]. }
    destruct (String.eqb a "-sites").
    { destruct rest as [|f rest']; [discriminate|].
      destruct (can_open f) eqn:Ef; [|discriminate].
      match type of Hp with parse_args _ _ _ _ ?ox = _ =>
        destruct (IH rest' ox ltac:(cbn [List.length] in Hn; lia) Hp) as [R1 R2] end;
        [|split; [exact R1 | intros Hs; apply R2]].
      - destruct Hc as (H1 & H2 & H3 & H4 & H5 & H6 & H7).
        repeat (split; [assumption|]).
        cbn [o_sites]. intros f' [= <-]. exact Ef.
      - apply (sized_tail o _ f); [reflexivity | reflexivity|].
        apply (sized_tail o o a); [reflexivity | reflexivity | exact Hs]. }
    destruct (String.eqb a "-mis").
    { destruct rest as [|x rest']; [discriminate|].
      destruct (isNumeric x); [|discriminate].
      destruct (out_of_unit (atof x)) eqn:Ex; [discriminate|].
      match type of Hp with parse_args _ _ _ _ ?ox = _ =>
        destruct (IH rest' ox ltac:(cbn [List.length] in Hn; lia) Hp) as [R1 R2] end;
        [|split; [exact R1 | intros Hs; apply R2]].
      - destruct Hc as (H1 & H2 & H3 & H4 & H5 & H6 & H7).
        split; [exact H1|]. split; [exact H2|]. split; [exact Ex|].
        split; [exact H4|]. split; [exact H5|]. split; [exact H6 | exact H7].
      - apply (sized_tail o _ x); [reflexivity | reflexivity|].
        apply (sized_tail o o a); [reflexivity | reflexivity | exact Hs]. }
    destruct (String.eqb a "-maf").
    { destruct rest as [|x rest']; [discriminate|].
      destruct (isNumeric x); [|discriminate].
      destruct (out_of_unit (atof x)) eqn:Ex; [discriminate|].
      match type of Hp with parse_args _ _ _ _ ?ox = _ =>
        destruct (IH rest' ox ltac:(cbn [List.length] in Hn; lia) Hp) as [R1 R2] end;
        [|split; [exact R1 | intros Hs; apply R2]].
      - destruct Hc as (H1 & H2 & H3 & H4 & H5 & H6 & H7).
        split; [exact H1|]. split; [exact H2|]. split; [exact H3|].
        split; [exact Ex|]. split; [exact H5|]. split; [exact H6 | exact H7].
      - apply (sized_tail o _ x); [reflexivity | reflexivity|].
        apply (sized_tail o o a); [reflexivity | reflexivity | exact Hs]. }
    destruct (String.eqb_spec a "-r2") as [Ea|_]; [|discriminate].
    destruct rest as [|x1 rest1]; [discriminate|].
    destruct (set_win isNumeric o x1) as [o1|] eqn:E1; [|discriminate].
    destruct rest1 as [|x2 rest2]; [discriminate|].
    destruct (set_step isNumeric o1 x2) as [o2|] eqn:E2; [|discriminate].
    destruct rest2 as [|x3 rest3]; [discriminate|].
    destruct (set_r2 isNumeric atof o2 x3) as [o3|] eqn:E3; [|discriminate].
    destruct (set_win_checked _ _ _ E1 Hc) as (C1 & W1).
    destruct (set_step_checked _ _ _ E2 C1) as (C2 & W2 & S2).
    destruct (set_r2_checked _ _ _ E3 C2) as (C3 & W3 & S3).
    destruct (IH rest3 o3 ltac:(cbn [List.length] in Hn; lia) Hp C3) as [R1 R2].
    split; [exact R1|]. intros Hs. apply R2.
    (* this is the only [-r2]: the sizes were unset before it *)
    subst a. unfold sized in Hs. rewrite !count_r2_cons in Hs.
    change (String.eqb "-r2" "-r2") with true in Hs. cbv iota in Hs.
    destruct Hs as [(Hcnt & Hw & Hst) | (Hcnt & _)]; [|lia].
    right. split; [lia|]. rewrite S3, W3.
    destruct S2 as [-> | S2]; [left; congruence | right; exact S2].
Qed.
End OpenFilesProofs.

(** When [openFiles] gets to [readVcf], the VCF file and the site file,
    if one is given, could be opened, the window and the step size are at
    least 1, the three thresholds are not outside of [0, 1], and neither
    [-mis] nor [-maf] is 0; with the string ["-r2"] at most once among the
    arguments the step size is at most the window size. *)
Theorem openFiles_checked (can_open isNumeric : string -> bool) (atof : string -> float)
    (args : list string) (o : opts) :
  openFiles can_open isNumeric atof args = Runs o ->
  (exists f, o_vcf o = Some f /\ can_open f = true) /\
  (forall f, o_sites o = Some f -> can_open f = true) /\
  1 <= o_win o /\ 1 <= o_step o /\
  out_of_unit (o_mis o) = false /\ (o_mis o =? 0)%float = false /\
  out_of_unit (o_maf o) = false /\ (o_maf o =? 0)%float = false /\
  out_of_unit (o_r2 o) = false /\
  ((count_r2 args <= 1)%nat -> o_step o <= o_win o).
Proof.
  unfold openFiles. intros H.
  destruct args as [|a0 args0] eqn:Ea; [discriminate|]. rewrite <- Ea in *. clear Ea a0 args0.
  destruct (parse_args can_open isNumeric atof args opts0) as [o1|e] eqn:Ep; [|discriminate].
  destruct (parse_args_checked can_open isNumeric atof _ args opts0 o1 (le_n _) Ep)
    as ((C1 & C2 & C3 & C4 & C5 & C6 & C7) & Hsz).
  { unfold checked, opts0. cbn. repeat split; auto; discriminate. }
  destruct (o_vcf o1) as [f|] eqn:Ev; [|discriminate].
  destruct (Z.eqb_spec (o_win o1) 0) as [?|Hw]; [discriminate|].
  destruct (Z.eqb_spec (o_step o1) 0) as [?|Hst]; [discriminate|].
  destruct (o_r2 o1 =? -1)%float eqn:Er; [discriminate|].
  cbn [orb] in H. injection H as <-. cbn [o_vcf o_sites o_win o_step o_mis o_maf o_r2].
  split; [exists f; split; [reflexivity | apply C6; reflexivity]|].
  split; [exact C7|]. split; [lia|]. split; [lia|].
  split; [destruct (o_mis o1 =? 0)%float; [reflexivity | exact C3]|].
  split; [destruct (o_mis o1 =? 0)%float eqn:E; [reflexivity | exact E]|].
  split; [destruct (o_maf o1 =? 0)%float; [reflexivity | exact C4]|].
  split; [destruct (o_maf o1 =? 0)%float eqn:E; [reflexivity | exact E]|].
  split; [destruct C5 as [E | E]; [rewrite E in Er; discriminate | exact E]|].
  intros Hcnt.
  destruct Hsz as [(_ & _ & Hz) | (_ & [Hz | Hz])]; try lia.
  left. split; [exact Hcnt | split; reflexivity].
Qed.

Lemma openFiles_checked_witness :
  exists o,
    openFiles (fun _ => true) (fun _ => true) (fun _ => 0x1p-3%float)
              ["-vcf"; "in.vcf"; "-r2"; "100"; "50"; "0.125"]%string = Runs o /\
    o_win o = 100 /\ o_step o = 50 /\ (o_maf o =? 0)%float = false /\
    o_step o <= o_win o.
Proof.
  eexists. split; [vm_compute; reflexivity|].
  split; [reflexivity|]. split; [reflexivity|].
  destruct (openFiles_checked (fun _ => true) (fun _ => true) (fun _ => 0x1p-3%float)
              ["-vcf"; "in.vcf"; "-r2"; "100"; "50"; "0.125"]%string
              (mkOpts (Some "in.vcf"%string) None 100 50
                      0x1.3333333333333p-1%float 0x1.999999999999ap-5%float 0x1p-3%float))
    as (_ & _ & _ & _ & _ & _ & _ & H2 & _ & H3).
  - vm_compute. reflexivity.
  - split; [exact H2|]. apply H3. vm_compute. lia.
Defined.

(** ** The driver whatever the data *)

Lemma live_blank : live blank_SNP = false.
Proof. reflexivity. Qed.

Lemma filter_live_none (l : list SNP_s) :
  Forall (fun s => live s = false) l -> List.filter live l = [].
Proof.
  induction 1 as [|s l Hs _ IH]; [reflexivity|].
  cbn [List.filter]. rewrite Hs. exact IH.
Qed.

Lemma kill_sound (s : SNP_s) : sound (kill s).
Proof.
  unfold sound, kill. destruct (Z.eqb_spec (ok s) 1) as [E|E]; cbn [ok set_ok].
  - discriminate.
  - intros H. contradiction.
Qed.

Lemma live_kill (s : SNP_s) :
  live s = false \/ tomb s = true \/ ok s = 0 \/ ok s = 1 -> live (kill s) = false.
Proof.
  unfold kill. destruct (ok s =? 1) eqn:E.
  - intros _. unfold live. cbn. apply andb_false_r.
  - intros [H | [H | [H | H]]].
    + exact H.
    + unfold live. rewrite H. reflexivity.
    + unfold live. rewrite H. apply andb_false_r.
    + rewrite H in E. discriminate.
Qed.

(** The emission test prints the slot under the cursor exactly when its site
    could still be printed and is Kept, and the site cannot be printed
    again. *)
Lemma emit_account (h : SNP_s) (t : list SNP_s) (m : nat) (b : bool) :
  sound h ->
  printed (if b && is_kept h then [Print h m] else [])
  ++ map locus (List.filter live ((if b then kill h else h) :: t))
  = map locus (List.filter live (h :: t)).
Proof.
  intros Hs. destruct b; cbn [andb]; [|reflexivity].
  unfold is_kept, kill. cbn [List.filter].
  destruct (Z.eqb_spec (ok h) 1) as [E|E].
  - assert (Hl : live h = true) by (unfold live; rewrite (Hs E), E; reflexivity).
    rewrite Hl. replace (live (set_ok 0 h)) with false
      by (symmetry; unfold live; cbn; apply andb_false_r).
    reflexivity.
  - reflexivity.
Qed.

Lemma is_kept_live (l : list SNP_s) :
  Forall sound l ->
  sublist (map locus (List.filter is_kept l)) (map locus (List.filter live l)).
Proof.
  induction 1 as [|s l Hs _ IH]; [constructor|]. cbn [List.filter].
  unfold is_kept at 1. destruct (Z.eqb_spec (ok s) 1) as [E|E].
  - replace (live s) with true by (symmetry; unfold live; rewrite (Hs E), E; reflexivity).
    cbn [map]. apply sublist_skip. exact IH.
  - destruct (live s); [cbn [map]; apply sublist_cons|]; exact IH.
Qed.

(** *** What [estLD] does to a slot, whatever the data *)

Lemma verdict_judged (W m : nat) (r2 : float) (w : list SNP_s) (i : nat) :
  judged (w !!! i) (verdict W m r2 w i).
Proof.
  unfold verdict, judged. cbv zeta. destruct (tomb (w !!! i)) eqn:Et.
  - split; [reflexivity|]. split; [reflexivity|]. left. reflexivity.
  - destruct (_ && _) eqn:Ec.
    + apply andb_prop in Ec as [_ Ec]. apply orb_prop in Ec.
      split; [reflexivity|]. split; [reflexivity|].
      right; right. split; [reflexivity|]. split; [reflexivity|].
      destruct Ec as [E|E]; apply Z.eqb_eq in E; auto.
    + split; [reflexivity|]. split; [reflexivity|]. right; left; reflexivity.
Qed.

Lemma estLD_judges (w : list SNP_s) (W m : nat) (r2 : float) :
  Forall2 judged w (estLD w W m r2).
Proof.
  apply Forall2_same_length_lookup.
  split; [symmetry; apply estLD_length|].
  intros i x y Hx Hy.
  apply list_lookup_total_correct in Hx, Hy. subst x y. rewrite estLD_lookup.
  destruct (decide (i < W)%nat) as [Hi|Hi]; [apply verdict_judged|].
  split; [reflexivity|]. split; [reflexivity|]. left; reflexivity.
Qed.

(** Within the evaluated range a slot is empty or decided after the call. *)
Lemma estLD_decides (w : list SNP_s) (W m : nat) (r2 : float) (i : nat) :
  (i < W)%nat ->
  let s' := estLD w W m r2 !!! i in
  tomb s' = true \/ ok s' = 0 \/ ok s' = 1.
Proof.
  intros Hi. cbv zeta. rewrite estLD_lookup. destruct (decide (i < W)%nat); [|lia].
  unfold verdict. cbv zeta. destruct (tomb (w !!! i)) eqn:Et; [left; exact Et|].
  destruct (_ && _); cbn [ok set_ok]; auto.
Qed.

Lemma judged_refl (l : list SNP_s) : Forall2 judged l l.
Proof.
  induction l as [|s l IH]; constructor; [|exact IH].
  split; [reflexivity|]. split; [reflexivity|]. left; reflexivity.
Qed.

Lemma judged_tomb (s s' : SNP_s) : judged s s' -> tomb s' = tomb s.
Proof. intros (Hc & _). unfold tomb. rewrite Hc. reflexivity. Qed.

Lemma judged_live (s s' : SNP_s) :
  judged s s' -> (live s' = true -> live s = true) /\ locus s' = locus s.
Proof.
  intros Hj. pose proof (judged_tomb s s' Hj) as Ht.
  destruct Hj as (Hchr & Hpos & [E | [E | (E & Etomb & Eo)]]).
  - subst s'. split; [auto | reflexivity].
  - split; [|unfold locus; rewrite Hchr, Hpos; reflexivity].
    unfold live at 1. rewrite E. cbn. rewrite andb_false_r. discriminate.
  - split; [|unfold locus; rewrite Hchr, Hpos; reflexivity].
    intros _. unfold live. rewrite Etomb. destruct Eo as [-> | ->]; reflexivity.
Qed.

Lemma judged_sound (l l' : list SNP_s) :
  Forall2 judged l l' -> Forall sound l -> Forall sound l'.
Proof.
  induction 1 as [|s s' l l' Hj _ IH]; intros Hs; [constructor|].
  constructor; [|apply IH; exact (List.Forall_inv_tail Hs)].
  pose proof (List.Forall_inv Hs) as Hs0. pose proof (judged_tomb s s' Hj) as Ht.
  destruct Hj as (_ & _ & [E | [E | (E & Etomb & Eo)]]); unfold sound.
  - subst s'. exact Hs0.
  - rewrite E. discriminate.
  - intros _. rewrite Ht. exact Etomb.
Qed.

Lemma judged_not_live (l l' : list SNP_s) :
  Forall2 judged l l' -> Forall (fun s => live s = false) l ->
  Forall (fun s => live s = false) l'.
Proof.
  induction 1 as [|s s' l l' Hj _ IH]; intros Hs; [constructor|].
  constructor; [|apply IH; exact (List.Forall_inv_tail Hs)].
  pose proof (List.Forall_inv Hs) as Hs0. cbv beta in Hs0.
  destruct (judged_live s s' Hj) as [H _].
  destruct (live s'); [|reflexivity]. rewrite H in Hs0 by reflexivity. discriminate.
Qed.

(** The sites that may be printed after an evaluation could be printed
    before it. *)
Lemma judged_account (l l' : list SNP_s) :
  Forall2 judged l l' ->
  sublist (map locus (List.filter live l')) (map locus (List.filter live l)).
Proof.
  induction 1 as [|s s' l l' Hj _ IH]; [constructor|].
  cbn [List.filter]. destruct (judged_live s s' Hj) as [Hl Hloc].
  destruct (live s') eqn:E'.
  - rewrite (Hl eq_refl). cbn [map]. rewrite Hloc. apply sublist_skip. exact IH.
  - destruct (live s); [cbn [map]; apply sublist_cons|]; exact IH.
Qed.

Lemma rot_Forall2 (R : SNP_s -> SNP_s -> Prop) (c : nat) (w w' : list SNP_s) :
  Forall2 R w w' -> Forall2 R (rot c w) (rot c w').
Proof.
  intros H. unfold rot. apply Forall2_app; [apply Forall2_drop | apply Forall2_take]; exact H.
Qed.

Lemma sound_view (st : state) : Forall sound (view st) <-> Forall sound (snps st).
Proof. unfold view. apply rot_Forall. Qed.

(** The state in which the filters are tested, for a line without a bad
    token read into a zeroed slot. *)
Lemma site_state_written (win geno_n : nat) (mis maf r2 : float) (n : nat)
    (st : state) (ln : vcf_line) :
  n <> 0%nat ->
  let st0 := open_line win geno_n r2 st ln in
  (ind_n st0 = n \/ ind_n st0 = 0%nat) ->
  geno (snps st0 !!! win_i st0) = replicate geno_n 0%float ->
  length (l_gts ln) = n -> ~ bad_line ln -> l_listed ln = true ->
  exists a x,
    site_state win geno_n r2 st ln
    = inl (mkState (<[win_i st0 := x]> (snps st0)) (win_n st0) (win_i st0) (step_i st0)
                   n (snp_i st0) (log st0), a) /\
    chr x = l_chr ln /\ pos x = l_pos ln /\ ok x = -1 /\
    passes geno_n mis maf n ln = negb (mis_fails mis (la_mis a) n)
                                 && negb (maf_fails maf (la_alt a) (la_hapn a)).
Proof.
  intros n_pos st0 Hn0 Hz Hcols Hbad Hlist.
  unfold site_state. fold st0.
  set (s := mkSNP (l_pos ln) (-1) _ _ _ _ _ _).
  set (a0 := mkLacc (geno s) (hap s) 0 0%float 0%float 0%float).
  assert (Hss : same_sums a0 (mkLacc (replicate geno_n 0%float) [] 0 0%float 0%float 0%float)).
  { unfold same_sums, a0, s. cbn. rewrite Hz. auto. }
  pose proof (gt_loop_same_sums (l_chr ln) (l_pos ln) (l_gts ln) _ _ Hss) as Hsim.
  fold (line_sums geno_n ln) in Hsim.
  destruct (gt_loop (l_chr ln) (l_pos ln) a0 (l_gts ln)) as [a|e] eqn:El.
  - destruct (line_sums geno_n ln) as [a1|] eqn:E1; [|contradiction].
    destruct Hsim as (Sg & Si & Sm & Sa & Sh).
    exists a, (mkSNP (l_pos ln) (-1) (la_geno a) (l_ref ln) (l_alt ln) (l_id ln)
                     (l_chr ln) (la_hap a)).
    split; [|split; [reflexivity|split; [reflexivity|split; [reflexivity|]]]].
    + f_equal. f_equal. unfold with_snps, with_ind_n.
      cbn [snps win_n win_i step_i ind_n snp_i log pos ok ref alt id chr s].
      apply (gt_loop_ind 1 1 1) in El; [|lia|lia]. cbn [la_ind a0] in El.
      destruct Hn0 as [Hn0|Hn0]; rewrite Hn0.
      * destruct (Nat.eqb_spec n 0); [contradiction | reflexivity].
      * cbn. rewrite El, Hcols. reflexivity.
    + unfold passes. rewrite Hlist, E1, Sm, Sa, Sh. reflexivity.
  - exfalso. apply Hbad. split; [exact Hlist|].
    apply (gt_loop_fatal (l_chr ln) (l_pos ln) (l_gts ln) a0). eauto.
Qed.

Lemma evaluate_if_due_judged (win step : nat) (r2 : float) (st : state) :
  let sE := evaluate_if_due win step r2 st in
  Forall2 judged (snps st) (snps sE) /\ win_n sE = win_n st /\ win_i sE = win_i st /\
  ind_n sE = ind_n st /\ printed (log sE) = printed (log st) /\
  length (snps sE) = length (snps st).
Proof.
  cbv zeta. unfold evaluate_if_due. destruct (trigger win step st).
  - unfold call_estLD. cbn [snps win_n win_i ind_n log].
    split; [apply estLD_judges|]. repeat (split; [reflexivity|]).
    split; [|apply estLD_length].
    rewrite printed_app. cbn [printed flat_map app]. apply app_nil_r.
  - split; [apply judged_refl|]. repeat split; reflexivity.
Qed.

Section Tidy.
Variables (win step geno_n : nat) (mis maf r2 : float) (n : nat).
Variable lines : list vcf_line.
Hypothesis win_pos : (1 <= win)%nat.
Hypothesis n_pos : n <> 0%nat.
Hypothesis well_formed :
  Forall (fun l => l_chr l <> EmptyString /\ length (l_gts l) = n /\ ~ bad_line l) lines.

Local Abbreviation tidy' := (tidy win geno_n mis maf n).
Local Abbreviation passes' := (passes geno_n mis maf n).
Local Abbreviation candidates :=
  (fun done => map line_locus (List.filter passes' done)).
Local Abbreviation not_live := (fun s : SNP_s => live s = false).

(** Reading more lines only adds candidate sites. *)
Lemma tidy_more (st : state) (ln : vcf_line) (done : list vcf_line) :
  tidy' st done -> tidy' st (done ++ [ln]).
Proof.
  intros (Hl & Hc & Hn & Hs & Hacc & Hph).
  split; [exact Hl|]. split; [exact Hc|]. split; [exact Hn|]. split; [exact Hs|].
  split; [|exact Hph].
  rewrite List.filter_app, map_app. apply sublist_inserts_r. exact Hacc.
Qed.

(** Writing under the cursor a slot that cannot be printed, or one with the
    site and the decision state of the slot it replaces. *)
Lemma tidy_cursor (st : state) (done : list vcf_line) (y : SNP_s) (m : nat) :
  tidy' st done -> sound y ->
  live y = false \/
  (live y = live (snps st !!! win_i st) /\ locus y = locus (snps st !!! win_i st)) ->
  m = n \/ m = 0%nat ->
  tidy' (mkState (<[win_i st := y]> (snps st)) (win_n st) (win_i st) (step_i st)
                 m (snp_i st) (log st)) done.
Proof.
  intros (Hl & Hc & Hn & Hs & Hacc & Hph) Hy Hlive Hm.
  set (h := snps st !!! win_i st) in *.
  set (T := drop (S (win_i st)) (snps st) ++ take (win_i st) (snps st)).
  assert (Hv : view st = h :: T) by (unfold view; apply rot_cursor; lia).
  set (st' := mkState _ _ _ _ _ _ _).
  assert (Hv' : view st' = y :: T) by (unfold view, st'; cbn [snps win_i]; apply rot_insert; lia).
  unfold tidy. rewrite Hv'. unfold st'. cbn [snps win_i win_n step_i ind_n log].
  rewrite length_insert.
  split; [exact Hl|]. split; [exact Hc|]. split; [exact Hm|].
  split; [apply Forall_insert; assumption|]. split.
  - rewrite Hv in Hacc. cbn [List.filter] in Hacc |- *.
    destruct Hlive as [H0 | [H1 H2]].
    + rewrite H0. etrans; [|exact Hacc]. apply sublist_app; [reflexivity|].
      destruct (live h); [cbn [map]; apply sublist_cons|]; reflexivity.
    + rewrite H1. destruct (live h); cbn [map]; [rewrite H2|]; exact Hacc.
  - destruct Hph as [HA | (D & P & HvD & HD & HP & Hi)]; [left; exact HA | right].
    assert (HlenV : length (D ++ P) = win).
    { rewrite <- HvD. unfold view. rewrite rot_length. exact Hl. }
    rewrite length_app in HlenV.
    destruct D as [|d0 D']; [cbn [length] in HlenV; lia|].
    rewrite Hv in HvD. cbn [app] in HvD. injection HvD as Hd0 HT.
    exists (y :: D'), P. cbn [app]. rewrite HT.
    split; [reflexivity|]. split; [|split; assumption].
    constructor; [|exact (List.Forall_inv_tail HD)].
    destruct Hlive as [H0 | [H1 _]]; [exact H0|].
    rewrite H1, Hd0. exact (List.Forall_inv HD).
Qed.

Lemma tidy_clear_geno (st : state) (done : list vcf_line) :
  tidy' st done ->
  tidy' (clear_geno geno_n st) done /\
  geno (snps (clear_geno geno_n st) !!! win_i st) = replicate geno_n 0%float.
Proof.
  intros Ht. pose proof Ht as (Hl & Hc & Hn & Hs & _).
  split.
  - apply (tidy_cursor st done _ (ind_n st)); [exact Ht | | | exact Hn].
    + assert (Hh : sound (snps st !!! win_i st)).
      { eapply Forall_lookup_1; [exact Hs|].
        apply list_lookup_lookup_total_lt. lia. }
      exact Hh.
    + right. split; reflexivity.
  - unfold clear_geno, with_snps. cbn [snps].
    rewrite list_lookup_total_insert_eq by lia. reflexivity.
Qed.

(** A window none of whose slots can be printed, with the counters at
    zero. *)
Lemma tidy_reset (w : list SNP_s) (m k : nat) (lg : list event) (done : list vcf_line) :
  length w = win -> Forall not_live w -> Forall sound w -> m = n \/ m = 0%nat ->
  sublist (printed lg) (candidates done) ->
  tidy' (mkState w 0 0 0 m k lg) done.
Proof.
  intros Hl Hd Hs Hm Hp. unfold tidy, view. cbn [snps win_i win_n step_i ind_n log].
  rewrite rot_0.
  split; [exact Hl|]. split; [lia|]. split; [exact Hm|]. split; [exact Hs|]. split.
  - rewrite (filter_live_none w Hd). cbn [map]. rewrite app_nil_r. exact Hp.
  - right. exists w, []. rewrite app_nil_r. auto.
Qed.

(** The forced evaluation followed by the flush prints only sites that were
    waiting in the window, and leaves no slot that can be printed. *)
Lemma tidy_evaluate_flush (st : state) (done : list vcf_line) :
  tidy' st done ->
  let st' := flush win (call_estLD r2 st) in
  sublist (printed (log st')) (candidates done) /\
  Forall not_live (snps st') /\ Forall sound (snps st') /\
  length (snps st') = win /\ ind_n st' = ind_n st.
Proof.
  intros (Hl & Hc & Hn & Hs & Hacc & Hph).
  set (sa := call_estLD r2 st).
  assert (HJ : Forall2 judged (snps st) (snps sa)) by apply estLD_judges.
  assert (HJv : Forall2 judged (view st) (view sa)) by (apply rot_Forall2; exact HJ).
  assert (Hsa : Forall sound (snps sa)) by (exact (judged_sound _ _ HJ Hs)).
  assert (Hla : length (snps sa) = win).
  { unfold sa, call_estLD. cbn [snps]. rewrite estLD_length. exact Hl. }
  destruct (flush_view win sa Hla Hc) as (Fv & Fl & Flen & Fc & Fi).
  cbv zeta. split; [|split; [|split; [|split]]].
  - rewrite Fl, printed_app, printed_prints. unfold sa at 1, call_estLD. cbn [log].
    rewrite printed_app. cbn [printed flat_map app]. rewrite app_nil_r.
    etrans; [|exact Hacc]. apply sublist_app; [reflexivity|].
    etrans; [apply is_kept_live; apply sound_view; exact Hsa|].
    apply judged_account. exact HJv.
  - apply (rot_Forall not_live (win_i (flush win sa))). fold (view (flush win sa)).
    rewrite Fv. apply Forall_map. apply (rot_Forall _ (win_i sa)).
    apply Forall_lookup. intros i s1 Hi.
    pose proof (lookup_lt_Some _ _ _ Hi) as Hlt.
    apply list_lookup_total_correct in Hi. subst s1. cbv beta.
    apply live_kill. unfold sa, call_estLD. cbn [snps].
    destruct (decide (i < S (win_n st))%nat) as [Hin|Hout].
    + right. apply estLD_decides. exact Hin.
    + left. rewrite estLD_lookup. destruct (decide (i < S (win_n st))%nat); [lia|].
      destruct Hph as [HA | (D & P & HvD & HD & HP & Hi)]; [lia|].
      unfold view in HvD. apply rot_split in HvD; [|lia|lia]. rewrite HvD.
      rewrite lookup_total_app_r by lia.
      destruct (D !! (i - length P)%nat) as [d|] eqn:Ed.
      * rewrite (list_lookup_total_correct _ _ _ Ed).
        exact (Forall_lookup_1 _ _ _ _ HD Ed).
      * rewrite list_lookup_total_alt, Ed. reflexivity.
  - apply sound_view. rewrite Fv. apply Forall_map, Forall_forall.
    intros s _. apply kill_sound.
  - exact Flen.
  - rewrite Fi. reflexivity.
Qed.

Lemma tidy_chr_change (st : state) (done : list vcf_line) :
  tidy' st done ->
  tidy' (chr_change win geno_n r2 st) done /\
  geno (snps (chr_change win geno_n r2 st) !!! win_i (chr_change win geno_n r2 st))
  = replicate geno_n 0%float.
Proof.
  intros Ht. pose proof Ht as (_ & _ & Hn & _).
  destruct (tidy_evaluate_flush st done Ht) as (Hp & Hd & Hs & Hl & Hi).
  unfold chr_change. set (st' := flush win (call_estLD r2 st)) in *.
  apply (tidy_clear_geno (mkState (snps st') 0 0 0 (ind_n st') (snp_i st') (log st')) done).
  apply tidy_reset; [exact Hl | exact Hd | exact Hs | rewrite Hi; exact Hn | exact Hp].
Qed.

Lemma tidy_open_line (st : state) (ln : vcf_line) (done : list vcf_line) :
  tidy' st done ->
  tidy' (open_line win geno_n r2 st ln) done /\
  geno (snps (open_line win geno_n r2 st ln) !!! win_i (open_line win geno_n r2 st ln))
  = replicate geno_n 0%float.
Proof.
  intros Ht. unfold open_line.
  destruct (tidy_clear_geno st done Ht) as [H1 H2].
  destruct (_ && _); [apply tidy_chr_change; exact H1 | split; [exact H1 | exact H2]].
Qed.

(** A placement of a candidate site keeps the invariant, whether the window
    is evaluated or not, and whatever slot the cursor moves on to. *)
Lemma tidy_placed (st1 : state) (x : SNP_s) (T : list SNP_s)
    (ln : vcf_line) (done : list vcf_line) :
  length (snps st1) = win -> (win_i st1 < win)%nat -> ind_n st1 = n ->
  Forall sound (snps st1) ->
  view st1 = x :: T -> live x = true ->
  sublist (printed (log st1) ++ map locus (List.filter live T)) (candidates done) ->
  locus x = line_locus ln -> passes' ln = true ->
  (win_n st1 = (win - 1)%nat \/
   exists D' P, T = D' ++ P /\ Forall not_live D' /\
                length P = win_n st1 /\ win_i st1 = win_n st1) ->
  tidy' (placed win step r2 st1) (done ++ [ln]).
Proof.
  intros Hl Hc Hn Hs Hv Hx Hacc Hloc Hpass Hphase.
  assert (HlenT : length T = (win - 1)%nat).
  { assert (H : length (x :: T) = win) by (rewrite <- Hv; unfold view; rewrite rot_length; exact Hl).
    cbn [length] in H. lia. }
  unfold placed.
  destruct (evaluate_if_due_judged win step r2 st1) as (HJ & En & Ei & Em & Elog & Elen).
  set (sE := evaluate_if_due win step r2 st1) in *.
  assert (HJv : Forall2 judged (x :: T) (view sE)).
  { rewrite <- Hv. unfold view. rewrite Ei. apply rot_Forall2. exact HJ. }
  assert (HsE : Forall sound (view sE)) by (apply sound_view; exact (judged_sound _ _ HJ Hs)).
  destruct (view sE) as [|x' T'] eqn:HvE; [inversion HJv|].
  apply Forall2_cons_1 in HJv as [Hjx HjT].
  assert (HJ' : Forall2 judged (T ++ [x]) (T' ++ [x'])).
  { apply Forall2_app; [exact HjT | constructor; [exact Hjx | constructor]]. }
  assert (Hs' : Forall sound (T' ++ [x'])).
  { rewrite Forall_app. split; [exact (List.Forall_inv_tail HsE)|].
    constructor; [exact (List.Forall_inv HsE) | constructor]. }
  destruct (T' ++ [x']) as [|h' t'] eqn:EL.
  { destruct T'; discriminate. }
  destruct (move_on_view win 1 1 ltac:(lia) ltac:(lia) sE x' h' T' t')
    as (Mn & Ms & Mi & Mc & Ml & Mv & Mlog).
  { rewrite Elen. exact Hl. }
  { rewrite Ei. exact Hc. }
  { exact HvE. }
  { exact EL. }
  rewrite En in Mn, Mv, Mlog. rewrite Ei in Mc. rewrite Em in Mi.
  set (wn := if (win_n st1 <? win - 1)%nat then S (win_n st1) else win_n st1) in *.
  unfold tidy. rewrite Ml, Mc, Mi, Mn.
  split; [reflexivity|].
  split; [destruct (Nat.eqb_spec (S (win_i st1)) win); lia|].
  split; [left; exact Hn|]. split; [|split].
  - apply sound_view. rewrite Mv. constructor; [|exact (List.Forall_inv_tail Hs')].
    destruct (wn =? win - 1)%nat; [apply kill_sound | exact (List.Forall_inv Hs')].
  - rewrite Mv, Mlog, printed_app, <- app_assoc.
    rewrite (emit_account h' t' _ _ (List.Forall_inv Hs')).
    rewrite Elog, filter_passes_snoc by exact Hpass.
    etrans; [apply sublist_app; [reflexivity | apply (judged_account _ _ HJ')]|].
    rewrite List.filter_app. cbn [List.filter]. rewrite Hx, map_app. cbn [map].
    rewrite Hloc, app_assoc. apply sublist_app; [exact Hacc | reflexivity].
  - destruct (Nat.eq_dec (win_n st1) (win - 1)) as [HA | HnA].
    { left. unfold wn. rewrite HA, Nat.ltb_irrefl. reflexivity. }
    destruct Hphase as [HA | (D' & P & HT & HD & HP & Hi)]; [contradiction|].
    right. rewrite HT in HjT.
    apply Forall2_app_inv_l in HjT as (D1 & P1 & HjD & HjP & ET').
    pose proof (Forall2_length _ _ _ HjD) as LD.
    pose proof (Forall2_length _ _ _ HjP) as LP.
    rewrite HT, length_app in HlenT.
    destruct D1 as [|d1 D1']; [cbn [length] in LD; lia|].
    rewrite ET' in EL. cbn [app] in EL. injection EL as Eh Et.
    pose proof (judged_not_live _ _ HjD HD) as HD1.
    exists ((if (wn =? win - 1)%nat then kill h' else h') :: D1'), (P1 ++ [x']).
    rewrite Mv. split; [cbn [app]; rewrite <- Et, <- app_assoc; reflexivity|].
    split.
    + constructor; [|exact (List.Forall_inv_tail HD1)].
      pose proof (List.Forall_inv HD1) as Hd1. cbv beta in Hd1. rewrite Eh in Hd1.
      destruct (wn =? win - 1)%nat; [apply live_kill; left; exact Hd1 | exact Hd1].
    + assert (Hlt : (win_n st1 <? win - 1)%nat = true) by (apply Nat.ltb_lt; lia).
      unfold wn. rewrite Hlt, length_app. cbn [length].
      split; [lia|]. destruct (Nat.eqb_spec (S (win_i st1)) win); lia.
Qed.

(** One line of the file keeps the invariant, and is never fatal. *)
Lemma tidy_read_line (st : state) (ln : vcf_line) (done : list vcf_line) :
  tidy' st done -> In ln lines ->
  exists st', read_line win step geno_n mis maf r2 st ln = inl st' /\
              tidy' st' (done ++ [ln]).
Proof.
  intros Ho Hin.
  destruct (proj1 (List.Forall_forall _ _) well_formed ln Hin) as (Hne & Hcols & Hbad).
  unfold read_line. destruct (l_listed ln) eqn:EL; cbn [negb].
  2:{ exists (clear_geno geno_n st). split; [reflexivity|].
      apply tidy_more, tidy_clear_geno. exact Ho. }
  destruct (tidy_open_line st ln done Ho) as [Ho0 Hz].
  pose proof Ho0 as (Hl & Hc & Hn0 & Hs & Hacc & Hph).
  destruct (site_state_written win geno_n mis maf r2 n st ln n_pos Hn0 Hz Hcols Hbad EL)
    as (a & x & Hst & Hchr & Hpos & Hok & Hp).
  rewrite Hst. cbn [ind_n].
  set (st0 := open_line win geno_n r2 st ln) in *.
  assert (Htomb : tomb x = false).
  { unfold tomb. rewrite Hchr. destruct (l_chr ln); [contradiction | reflexivity]. }
  assert (Hsx : sound x) by (intros _; exact Htomb).
  assert (Hfail : tidy' (tombstone (mkState (<[win_i st0 := x]> (snps st0)) (win_n st0)
                           (win_i st0) (step_i st0) n (snp_i st0) (log st0))) (done ++ [ln])).
  { apply tidy_more.
    unfold tombstone, with_snps. cbn [snps win_n win_i step_i ind_n snp_i log].
    rewrite list_insert_insert_eq, list_lookup_total_insert_eq by lia.
    apply tidy_cursor; [exact Ho0 | | left; reflexivity | left; reflexivity].
    unfold sound. cbn [ok set_chr]. rewrite Hok. discriminate. }
  destruct (mis_fails mis (la_mis a) n) eqn:Em.
  { eexists. split; [reflexivity | exact Hfail]. }
  destruct (maf_fails maf (la_alt a) (la_hapn a)) eqn:Ef.
  { eexists. split; [reflexivity | exact Hfail]. }
  cbn [negb andb] in Hp. eexists. split; [reflexivity|].
  set (h := snps st0 !!! win_i st0).
  set (T := drop (S (win_i st0)) (snps st0) ++ take (win_i st0) (snps st0)).
  assert (Hv : view st0 = h :: T) by (unfold view; apply rot_cursor; lia).
  apply (tidy_placed _ x T ln done); cbn [snps win_n win_i step_i ind_n log].
  - rewrite length_insert. exact Hl.
  - exact Hc.
  - reflexivity.
  - apply Forall_insert; assumption.
  - unfold view. cbn [snps win_i]. apply rot_insert. lia.
  - unfold live. rewrite Htomb, Hok. reflexivity.
  - rewrite Hv in Hacc. cbn [List.filter] in Hacc.
    etrans; [|exact Hacc]. apply sublist_app; [reflexivity|].
    destruct (live h); [cbn [map]; apply sublist_cons|]; reflexivity.
  - unfold locus, line_locus. rewrite Hchr, Hpos. reflexivity.
  - exact Hp.
  - destruct Hph as [HA | (D & P & HvD & HD & HP & Hi)]; [left; exact HA | right].
    assert (HlenV : length (D ++ P) = win).
    { rewrite <- HvD. unfold view. rewrite rot_length. exact Hl. }
    rewrite length_app in HlenV.
    destruct D as [|d0 D']; [cbn [length] in HlenV; lia|].
    rewrite Hv in HvD. cbn [app] in HvD. injection HvD as _ HT.
    exists D', P. split; [exact HT|]. split; [exact (List.Forall_inv_tail HD)|].
    split; assumption.
Qed.

Lemma tidy_read_lines (ls : list vcf_line) (st : state) (done : list vcf_line) :
  tidy' st done -> lines = done ++ ls ->
  exists st', read_lines win step geno_n mis maf r2 st ls = inl st' /\
              tidy' st' (done ++ ls).
Proof.
  revert st done. induction ls as [|ln ls IH]; intros st done Ho El.
  - exists st. rewrite app_nil_r. split; [reflexivity | exact Ho].
  - cbn [read_lines].
    destruct (tidy_read_line st ln done Ho) as (st1 & E1 & Ho1).
    { rewrite El. apply in_elt. }
    rewrite E1.
    destruct (IH st1 (done ++ [ln]) Ho1) as (st' & E' & Ho').
    { rewrite <- app_assoc. exact El. }
    exists st'. split; [exact E'|]. rewrite <- app_assoc in Ho'. exact Ho'.
Qed.

(** Whatever the data, the run prints candidate sites only, in file order. *)
Lemma readVcf_prints_sublist (snps0 : list SNP_s) :
  lines <> [] ->
  length snps0 = win -> Forall (fun s => tomb s = true /\ ok s <> 1) snps0 ->
  exists st, readVcf win step geno_n mis maf r2 snps0 lines = inl st /\
             sublist (printed (log st)) (candidates lines).
Proof.
  intros Hne Hl H0.
  assert (Hstart : tidy' (start snps0) []).
  { apply tidy_reset; [exact Hl | | | right; reflexivity | constructor].
    - eapply Forall_impl; [exact H0|]. intros s [Ht _]. unfold live. rewrite Ht. reflexivity.
    - eapply Forall_impl; [exact H0|]. intros s [_ Hk] H1. contradiction. }
  destruct (tidy_read_lines lines (start snps0) [] Hstart eq_refl) as (st' & E & Ho).
  cbn [app] in Ho.
  destruct (tidy_evaluate_flush st' lines Ho) as (Hp & _).
  exists (flush win (call_estLD r2 st')). split; [|exact Hp].
  unfold readVcf. fold (start snps0). rewrite E.
  destruct lines; [contradiction | reflexivity].
Qed.
End Tidy.

(** Whatever the genotypes, the threshold and the step size (also a step
    size above the window size), a run with a window of at least one slot
    over lines without a bad token, all with the [n] genotype columns that
    the dosage arrays have room for, and from a window whose slots have an
    empty chromosome field and are not Kept, ends without a fatal error and
    prints candidate sites only: the printed loci are a subsequence of the
    loci of the lines that are listed and pass both filters.  No site is
    printed that a filter or the site list has rejected, none is printed more
    often than it is in the file, and the output keeps the file order. *)
Theorem readVcf_prints_candidates_only (win step geno_n : nat) (mis maf r2 : float)
    (n : nat) (lines : list vcf_line) (snps0 : list SNP_s) :
  (1 <= win)%nat -> (0 < n <= geno_n)%nat -> lines <> [] ->
  Forall (fun l => l_chr l <> EmptyString /\ length (l_gts l) = n /\ ~ bad_line l) lines ->
  length snps0 = win -> Forall (fun s => tomb s = true /\ ok s <> 1) snps0 ->
  exists st, readVcf win step geno_n mis maf r2 snps0 lines = inl st /\
             sublist (printed (log st))
                     (map line_locus (List.filter (passes geno_n mis maf n) lines)).
Proof.
  intros Hwin Hn Hne Hwf Hl H0.
  apply (readVcf_prints_sublist win step geno_n mis maf r2 n lines); auto. lia.
Qed.

Lemma readVcf_prints_candidates_only_witness :
  exists st, readVcf 1 5 30 mis_06 maf_005 r2_01 (fresh 1 30) two_chromosomes = inl st /\
             sublist (printed (log st))
                     [("1", 10); ("1", 20); ("2", 5); ("2", 15)]%string.
Proof.
  destruct (readVcf_prints_candidates_only 1 5 30 mis_06 maf_005 r2_01 4 two_chromosomes
              (fresh 1 30)) as (st & E & Hp).
  - lia.
  - lia.
  - discriminate.
  - exact two_chromosomes_well_formed.
  - reflexivity.
  - repeat constructor; discriminate.
  - exists st. split; [exact E|].
    replace [("1", 10); ("1", 20); ("2", 5); ("2", 15)]%string
      with (map line_locus (List.filter (passes 30 mis_06 maf_005 4) two_chromosomes))
      by (vm_compute; reflexivity).
    exact Hp.
Defined.
